(** * mc_att_control: multicopter attitude / rate controller

    Shallow embedding of [src/modules/mc_att_control/mc_att_control_main.cpp]
    and the properties of its sensor-correction pipeline, throttle PID
    attenuation, landing-gear logic, state-space altitude controller,
    mission sequencer and output publisher.

    The C++ [float] is kept abstract behind the interface [FloatOps], which
    lists exactly the operations the source uses.  The controller code is
    embedded once, over that interface, and run at the instance [b32_ops]:
    IEEE-754 binary32 with round-to-nearest-even, built from the Standard
    Library's [SpecFloat] ([prec = 24], [emax = 128]).  It computes, and it
    has NaN and the infinities.  The properties that only depend on the
    control flow are proved over the interface; those that depend on the
    arithmetic are proved of binary32, rounding included. *)

From Stdlib Require Import ZArith Bool List Lia.
From Stdlib Require Import Floats.SpecFloat.
Import ListNotations.

Set Implicit Arguments.

(** ** The [float] interface *)

Class FloatOps (F : Type) : Type := {
  fadd : F -> F -> F;
  fsub : F -> F -> F;
  fmul : F -> F -> F;
  fdiv : F -> F -> F;
  fneg : F -> F;
  fabsf : F -> F;
  (** [a < b] and [a <= b]; [a > b] is [flt b a], [a >= b] is [fle b a]. *)
  flt : F -> F -> bool;
  fle : F -> F -> bool;
  (** [PX4_ISFINITE] and [isnan]. *)
  fisfinite : F -> bool;
  fisnan : F -> bool;
  (** The decimal literal [m / 10^k]: [fdec 25 2] is [0.25f]. *)
  fdec : Z -> nat -> F
}.

Declare Scope float_scope.
Delimit Scope float_scope with fl.
Infix "+" := fadd : float_scope.
Infix "-" := fsub : float_scope.
Infix "*" := fmul : float_scope.
Infix "/" := fdiv : float_scope.
Notation "- x" := (fneg x) : float_scope.
Infix "<?" := flt : float_scope.
Infix "<=?" := fle : float_scope.
Notation "a >? b" := (flt b a) (only parsing) : float_scope.
Notation "a >=? b" := (fle b a) (only parsing) : float_scope.

Definition fzero {F} `{FloatOps F} : F := fdec 0 0.
Definition fone {F} `{FloatOps F} : F := fdec 1 0.

(** The laws of the arithmetic that the properties of the control flow
    rest on; binary32 has them. *)
Class FloatLaws (F : Type) `{FloatOps F} : Prop := {
  fadd_comm : forall a b : F, fadd a b = fadd b a;
  flt_irrefl : forall a : F, flt a a = false
}.

Arguments FloatLaws F {_}.

(** ** binary32 *)

Module B32.

Definition prec : Z := 24.
Definition emax : Z := 128.

Definition float32 : Type := spec_float.

Definition of_Z (z : Z) : float32 := binary_normalize prec emax z 0 false.

Definition isfinite (x : float32) : bool :=
  match x with
  | S754_zero _ | S754_finite _ _ _ => true
  | S754_infinity _ | S754_nan => false
  end.

Definition isnan (x : float32) : bool :=
  match x with
  | S754_nan => true
  | _ => false
  end.

(** [m] and [10^k] are exact in binary32 for every literal of the source,
    so the quotient is the literal rounded once. *)
Definition dec (m : Z) (k : nat) : float32 :=
  SFdiv prec emax (of_Z m) (of_Z (10 ^ Z.of_nat k)).

Definition pinf : float32 := S754_infinity false.
Definition nan : float32 := S754_nan.
Definition pzero : float32 := S754_zero false.

End B32.

#[export] Instance b32_ops : FloatOps B32.float32 := {
  fadd := SFadd B32.prec B32.emax;
  fsub := SFsub B32.prec B32.emax;
  fmul := SFmul B32.prec B32.emax;
  fdiv := SFdiv B32.prec B32.emax;
  fneg := SFopp;
  fabsf := SFabs;
  flt := SFltb;
  fle := SFleb;
  fisfinite := B32.isfinite;
  fisnan := B32.isnan;
  fdec := B32.dec
}.

(** ** Vectors and matrices *)

Section Matrix.

Context {F : Type} `{FloatOps F}.

(** Modelled from the spec: the [matrix] library ([Matrix<float, M, N>],
    [Vector3f], [Dcmf]) is not part of the sources.  A matrix is the list
    of its rows; the 8x1, 4x1 and 3x1 column vectors are lists of their
    components, and the source's [v(0, i)] on a column vector, which
    addresses its [i]-th float, is [vget v i]. *)
Definition vec : Type := list F.
Definition mat : Type := list vec.

Definition vzero (n : nat) : vec := repeat fzero n.
Definition mzero (m n : nat) : mat := repeat (vzero n) m.

Definition vget (v : vec) (i : nat) : F := nth i v fzero.

Fixpoint vset (v : vec) (i : nat) (a : F) : vec :=
  match v, i with
  | [], _ => []
  | _ :: t, O => a :: t
  | h :: t, S j => h :: vset t j a
  end.

Definition mget (M : mat) (i j : nat) : F := vget (nth i M []) j.

Fixpoint mset (M : mat) (i j : nat) (a : F) : mat :=
  match M, i with
  | [], _ => []
  | r :: t, O => vset r j a :: t
  | r :: t, S k => r :: mset t k j a
  end.

(** Modelled from the spec: [operator*] accumulates
    [res(i) += self(i, j) * other(j)] from zero, for [j] ascending. *)
Definition dot (row v : vec) : F :=
  fold_left (fun acc p => (acc + fst p * snd p)%fl) (combine row v) fzero.

Definition mat_vec (M : mat) (v : vec) : vec := map (fun row => dot row v) M.

Fixpoint vmap2 (f : F -> F -> F) (a b : vec) : vec :=
  match a, b with
  | x :: a', y :: b' => f x y :: vmap2 f a' b'
  | _, _ => []
  end.

Definition vadd : vec -> vec -> vec := vmap2 fadd.
Definition vsub : vec -> vec -> vec := vmap2 fsub.
Definition vscale (v : vec) (c : F) : vec := map (fun a => (a * c)%fl) v.

(** [fmaxf] and [fminf] of the C library: a NaN argument is dropped in
    favour of the other one. *)
Definition fmaxf (x y : F) : F :=
  if fisnan x then y else if fisnan y then x
  else if (x <? y)%fl then y else x.

Definition fminf (x y : F) : F :=
  if fisnan x then y else if fisnan y then x
  else if (y <? x)%fl then y else x.

End Matrix.

Arguments vec : clear implicits.
Arguments mat : clear implicits.

(** ** Throttle PID attenuation *)

Section PidAttenuations.

Context {F : Type} `{FloatOps F}.

Definition TPA_RATE_LOWER_LIMIT : F := fdec 5 2.

Definition AXIS_INDEX_ROLL : nat := 0.
Definition AXIS_INDEX_PITCH : nat := 1.
Definition AXIS_INDEX_YAW : nat := 2.
Definition AXIS_COUNT : nat := 3.

(** The scalar factor of [pid_attenuations], before it is stored in the
    roll and pitch entries. *)
Definition tpa_factor (_thrust_sp tpa_breakpoint tpa_rate : F) : F :=
  let tpa :=
    (fone - tpa_rate * (fabsf _thrust_sp - tpa_breakpoint)
              / (fone - tpa_breakpoint))%fl in
  fmaxf TPA_RATE_LOWER_LIMIT (fminf fone tpa).

Definition pid_attenuations (_thrust_sp tpa_breakpoint tpa_rate : F) : vec F :=
  let tpa := tpa_factor _thrust_sp tpa_breakpoint tpa_rate in
  let pidAttenuationPerAxis := vzero AXIS_COUNT in
  let pidAttenuationPerAxis := vset pidAttenuationPerAxis AXIS_INDEX_ROLL tpa in
  let pidAttenuationPerAxis := vset pidAttenuationPerAxis AXIS_INDEX_PITCH tpa in
  let pidAttenuationPerAxis := vset pidAttenuationPerAxis AXIS_INDEX_YAW fone in
  pidAttenuationPerAxis.

(** The spec's [clamp(x, lo, hi)]. *)
Definition clamp (x lo hi : F) : F :=
  if (x <? lo)%fl then lo else if (hi <? x)%fl then hi else x.

Definition spec_tpa (thrust_sp breakpoint rate : F) : F :=
  clamp (fone - rate * (fabsf thrust_sp - breakpoint) / (fone - breakpoint))%fl
        (fdec 5 2) fone.

(** The value [pid_attenuations] clamps. *)
Definition tpa_unclamped (_thrust_sp tpa_breakpoint tpa_rate : F) : F :=
  (fone - tpa_rate * (fabsf _thrust_sp - tpa_breakpoint)
          / (fone - tpa_breakpoint))%fl.

(** The factor of [pid_attenuations] as a function of
    [a = fabsf(_thrust_sp)]. *)
Definition tpa_of_abs (tpa_breakpoint tpa_rate a : F) : F :=
  fmaxf TPA_RATE_LOWER_LIMIT
    (fminf fone
       (fone - tpa_rate * (a - tpa_breakpoint) / (fone - tpa_breakpoint))%fl).

End PidAttenuations.

(** ** Sensor correction pipeline *)

Section SensorCorrection.

Context {F : Type} `{FloatOps F}.

(** Modelled from the spec: [MAX_GYRO_COUNT] is declared in the absent
    header; the message carries correction tables for instances 0, 1, 2. *)
Definition MAX_GYRO_COUNT : N := 3.

Record sensor_correction_s : Type := {
  selected_gyro_instance : N;
  gyro_offset_0 : vec F; gyro_scale_0 : vec F;
  gyro_offset_1 : vec F; gyro_scale_1 : vec F;
  gyro_offset_2 : vec F; gyro_scale_2 : vec F
}.

Record sensor_gyro_s : Type := { gyro_x : F; gyro_y : F; gyro_z : F }.

Record sensor_bias_s : Type :=
  { gyro_x_bias : F; gyro_y_bias : F; gyro_z_bias : F }.

(** The members [sensor_correction_poll] reads and writes. *)
Record gyro_selection : Type := {
  _sensor_correction : sensor_correction_s;
  _selected_gyro : N;
  _gyro_count : N
}.

(** [msg] is the new [sensor_correction] message when [orb_check] reports
    one. *)
Definition sensor_correction_poll
    (msg : option sensor_correction_s) (s : gyro_selection) : gyro_selection :=
  let sc := match msg with
            | Some m => m
            | None => _sensor_correction s
            end in
  {| _sensor_correction := sc;
     _selected_gyro :=
       if (selected_gyro_instance sc <? _gyro_count s)%N
       then selected_gyro_instance sc
       else _selected_gyro s;
     _gyro_count := _gyro_count s |}.

(** The constructor: unit scale factors, zero offsets, instance 0. *)
Definition sensor_correction_init : sensor_correction_s :=
  {| selected_gyro_instance := 0;
     gyro_offset_0 := vzero 3; gyro_scale_0 := repeat fone 3;
     gyro_offset_1 := vzero 3; gyro_scale_1 := repeat fone 3;
     gyro_offset_2 := vzero 3; gyro_scale_2 := repeat fone 3 |}.

(** [run]: [_gyro_count = min(orb_group_count, MAX_GYRO_COUNT)], and 1 when
    that is 0. *)
Definition gyro_selection_init (group_count : N) : gyro_selection :=
  let n := N.min group_count MAX_GYRO_COUNT in
  {| _sensor_correction := sensor_correction_init;
     _selected_gyro := 0;
     _gyro_count := if (n =? 0)%N then 1%N else n |}.

(** First part of [control_attitude_rates]: thermal correction, rotation
    to the body frame, in-run bias. *)
Definition corrected_rates
    (sel : N) (g : sensor_gyro_s) (sc : sensor_correction_s)
    (_board_rotation : mat F) (b : sensor_bias_s) : vec F :=
  let rates :=
    if (sel =? 0)%N then
      [ ((gyro_x g - vget (gyro_offset_0 sc) 0) * vget (gyro_scale_0 sc) 0)%fl;
        ((gyro_y g - vget (gyro_offset_0 sc) 1) * vget (gyro_scale_0 sc) 1)%fl;
        ((gyro_z g - vget (gyro_offset_0 sc) 2) * vget (gyro_scale_0 sc) 2)%fl ]
    else if (sel =? 1)%N then
      [ ((gyro_x g - vget (gyro_offset_1 sc) 0) * vget (gyro_scale_1 sc) 0)%fl;
        ((gyro_y g - vget (gyro_offset_1 sc) 1) * vget (gyro_scale_1 sc) 1)%fl;
        ((gyro_z g - vget (gyro_offset_1 sc) 2) * vget (gyro_scale_1 sc) 2)%fl ]
    else if (sel =? 2)%N then
      [ ((gyro_x g - vget (gyro_offset_2 sc) 0) * vget (gyro_scale_2 sc) 0)%fl;
        ((gyro_y g - vget (gyro_offset_2 sc) 1) * vget (gyro_scale_2 sc) 1)%fl;
        ((gyro_z g - vget (gyro_offset_2 sc) 2) * vget (gyro_scale_2 sc) 2)%fl ]
    else
      [ gyro_x g; gyro_y g; gyro_z g ] in
  let rates := mat_vec _board_rotation rates in
  [ (vget rates 0 - gyro_x_bias b)%fl;
    (vget rates 1 - gyro_y_bias b)%fl;
    (vget rates 2 - gyro_z_bias b)%fl ].

(** The spec's [offset[instance]] and [scale[instance]]. *)
Definition offset_of (sc : sensor_correction_s) (i : N) : vec F :=
  match i with
  | 0%N => gyro_offset_0 sc
  | 1%N => gyro_offset_1 sc
  | _ => gyro_offset_2 sc
  end.

Definition scale_of (sc : sensor_correction_s) (i : N) : vec F :=
  match i with
  | 0%N => gyro_scale_0 sc
  | 1%N => gyro_scale_1 sc
  | _ => gyro_scale_2 sc
  end.

(** The spec's pipeline: [(raw - offset) * scale] per axis, rotated, minus
    the bias. *)
Definition spec_corrected_rates
    (sel : N) (g : sensor_gyro_s) (sc : sensor_correction_s)
    (R : mat F) (b : sensor_bias_s) : vec F :=
  let raw := [gyro_x g; gyro_y g; gyro_z g] in
  let bias := [gyro_x_bias b; gyro_y_bias b; gyro_z_bias b] in
  let thermal :=
    map (fun k => ((vget raw k - vget (offset_of sc sel) k)
                   * vget (scale_of sc sel) k)%fl) [0; 1; 2]%nat in
  let body := mat_vec R thermal in
  map (fun k => (vget body k - vget bias k)%fl) [0; 1; 2]%nat.

(** A poll that brings no message, or a message whose reported instance has
    no subscription. *)
Definition no_valid_report (count : N) (m : option sensor_correction_s) : Prop :=
  match m with
  | Some c => (count <= selected_gyro_instance c)%N
  | None => True
  end.

(** A run of polls, oldest first. *)
Definition poll_all (msgs : list (option sensor_correction_s))
    (s : gyro_selection) : gyro_selection :=
  fold_left (fun st m => sensor_correction_poll m st) msgs s.

End SensorCorrection.

Arguments sensor_correction_s : clear implicits.
Arguments sensor_gyro_s : clear implicits.
Arguments sensor_bias_s : clear implicits.
Arguments gyro_selection : clear implicits.

(** ** Landing gear *)

Module LandingGear.

(** [manual_control_setpoint_s::SWITCH_POS_*]. *)
Inductive switch_pos : Type :=
  | SWITCH_POS_NONE | SWITCH_POS_ON | SWITCH_POS_MIDDLE | SWITCH_POS_OFF.

(** [landing_gear_s::GEAR_UP] and [GEAR_DOWN], the two values the function
    returns. *)
Inductive gear : Type := GEAR_DOWN | GEAR_UP.

Definition is_on (p : switch_pos) : bool :=
  match p with SWITCH_POS_ON => true | _ => false end.

Definition is_off (p : switch_pos) : bool :=
  match p with SWITCH_POS_OFF => true | _ => false end.

(** What one evaluation reads: [_vehicle_land_detected.landed] and
    [_manual_control_sp.gear_switch]. *)
Record gear_in : Type := { landed : bool; gear_switch : switch_pos }.

(** [get_landing_gear_state]: the member [_gear_state_initialized] is
    threaded through; the result is the returned gear value. *)
Definition get_landing_gear_state
    (i : gear_in) (_gear_state_initialized : bool) : gear * bool :=
  let _gear_state_initialized :=
    if landed i then false else _gear_state_initialized in
  if is_on (gear_switch i) && _gear_state_initialized then
    (GEAR_UP, _gear_state_initialized)
  else if is_off (gear_switch i) then
    (GEAR_DOWN, true)
  else
    (GEAR_DOWN, _gear_state_initialized).

(** Successive evaluations: the returned values, oldest first, and the
    final [_gear_state_initialized]. *)
Fixpoint gear_run (ins : list gear_in) (init : bool) : list gear * bool :=
  match ins with
  | [] => ([], init)
  | i :: rest =>
      let '(g, init') := get_landing_gear_state i init in
      let '(gs, final) := gear_run rest init' in
      (g :: gs, final)
  end.

(** A pilot who arms with the switch on and leaves it there. *)
Definition gear_held_on : list gear_in :=
  [ {| landed := true; gear_switch := SWITCH_POS_ON |};
    {| landed := false; gear_switch := SWITCH_POS_ON |};
    {| landed := false; gear_switch := SWITCH_POS_ON |} ].

End LandingGear.

(** ** Attitude controller *)

Module AttitudeControl.
Section AttitudeControl.

Context {F : Type} `{FloatOps F}.

Record vehicle_attitude_setpoint_s : Type := {
  q_d : vec F;
  yaw_sp_move_rate : F;
  thrust_body_2 : F
}.

(** The members within reach of [control_attitude]: the attitude estimate
    [_v_att.q], the setpoint message, and the two outputs its header
    comment names. *)
Record attitude_state : Type := {
  _v_att_q : vec F;
  _v_att_sp : vehicle_attitude_setpoint_s;
  _rates_sp : vec F;
  _thrust_sp : F
}.

Definition vehicle_attitude_setpoint_poll
    (msg : option vehicle_attitude_setpoint_s) (s : attitude_state)
    : attitude_state :=
  match msg with
  | Some m =>
      {| _v_att_q := _v_att_q s; _v_att_sp := m;
         _rates_sp := _rates_sp s; _thrust_sp := _thrust_sp s |}
  | None => s
  end.

(** [control_attitude]: the poll is the whole body; the quaternion error
    law, the yaw feed-forward and the rate limits are commented out. *)
Definition control_attitude
    (msg : option vehicle_attitude_setpoint_s) (s : attitude_state)
    : attitude_state :=
  vehicle_attitude_setpoint_poll msg s.

(** The ACRO branch of [run], which does write [_rates_sp]; [man_rate_sp]
    is the stick vector after [math::superexpo]. *)
Definition manual_rates_control
    (man_rate_sp _acro_rate_max : vec F) (manual_z : F) (s : attitude_state)
    : attitude_state :=
  {| _v_att_q := _v_att_q s; _v_att_sp := _v_att_sp s;
     _rates_sp := vmap2 fmul man_rate_sp _acro_rate_max;
     _thrust_sp := manual_z |}.

End AttitudeControl.

Arguments vehicle_attitude_setpoint_s : clear implicits.
Arguments attitude_state : clear implicits.
End AttitudeControl.

(** ** Output publisher *)

Module Publisher.
Section Publisher.

Context {F : Type} `{FloatOps F}.

Record actuator_controls_s : Type := {
  control : vec F;
  timestamp : Z;
  timestamp_sample : Z
}.

(** The members [publish_actuator_controls] reads, and [_actuators], which
    it fills. *)
Record publisher : Type := {
  _att_control : vec F;
  _thrust_sp : F;
  _landing_gear : F;
  _bat_scale_en : bool;
  _battery_status_scale : F;
  _actuators_0_circuit_breaker_enabled : bool;
  _actuators : actuator_controls_s
}.

Definition finite_or_zero (x : F) : F := if fisfinite x then x else fzero.

(** The computed value of primary channel [k]: roll, pitch and yaw torque
    demand from [_att_control], thrust demand from [_thrust_sp]. *)
Definition primary_channel (s : publisher) (k : nat) : F :=
  match k with
  | 3%nat => _thrust_sp s
  | _ => vget (_att_control s) k
  end.

Definition scale_control (scale : F) (c : vec F) (i : nat) : vec F :=
  vset c i (vget c i * scale)%fl.

(** Returns the message left in [_actuators] and, when the circuit breaker
    lets it through, the message handed to [orb_publish_auto]. *)
Definition publish_actuator_controls
    (hrt_absolute_time gyro_timestamp : Z) (s : publisher)
    : actuator_controls_s * option actuator_controls_s :=
  let c := control (_actuators s) in
  let c := vset c 0 (finite_or_zero (vget (_att_control s) 0)) in
  let c := vset c 1 (finite_or_zero (vget (_att_control s) 1)) in
  let c := vset c 2 (finite_or_zero (vget (_att_control s) 2)) in
  let c := vset c 3 (finite_or_zero (_thrust_sp s)) in
  let c := vset c 7 (_landing_gear s) in
  let c :=
    if _bat_scale_en s && (_battery_status_scale s >? fzero)%fl
    then fold_left (scale_control (_battery_status_scale s)) [0; 1; 2; 3]%nat c
    else c in
  let a := {| control := c; timestamp := hrt_absolute_time;
              timestamp_sample := gyro_timestamp |} in
  (a, if negb (_actuators_0_circuit_breaker_enabled s) then Some a else None).

Definition actuators_zero : actuator_controls_s :=
  {| control := vzero 8; timestamp := 0; timestamp_sample := 0 |}.

End Publisher.

Arguments actuator_controls_s : clear implicits.
Arguments publisher : clear implicits.
End Publisher.

(** ** State-space altitude controller and mission sequencer *)

Module ModernControl.
Section ModernControl.

Context {F : Type} `{FloatOps F}.

Record vehicle_local_position_s : Type := { z : F; vz : F }.

(** Modelled from the spec: the members below are declared in the absent
    header [mc_att_control.hpp].  Those the source only reads are gathered
    in [config]: the plant constants, the mission 2 plan, the safety
    ceiling, the ramp factor and the actuator maxima [T_max], [Mx_max],
    [My_max], [Mz_max]. *)
Record config : Type := {
  ss_G_scale_0 : F;
  ss_m : F; ss_Ixx : F; ss_Iyy : F; ss_Izz : F;
  setout_phi : F; setout_theta : F; setout_psi : F;
  modern_control_mission_able : bool;
  mission_2_time_still : F;
  mission_2_time_height : F;
  mission_2_setout_Z : F;
  safety_return_time : F;
  return_degress_rate : F;
  g : F;
  T_max : F; Mx_max : F; My_max : F; Mz_max : F;
  cywmc_angle_control : bool
}.

(** The members [control_attitude_rates] writes.  The flags the source tests
    as truth values are [bool]; [ss_seted] and
    [modern_control_mission_select], compared with integer literals, are
    [Z]. *)
Record state : Type := {
  cywmc_able : bool;
  arm_t0 : F;
  run_t : F;
  loop_times : Z;
  pos_current : vehicle_local_position_s;
  ss_seted : Z;
  ss_x : vec F;
  ss_x_dot : vec F;
  ss_r : vec F;
  ss_u_scale : vec F;
  ss_u_actual : vec F;
  ss_y : vec F;
  ss_setout_y : vec F;
  ss_k : mat F;
  ss_A : mat F;
  ss_B : mat F;
  ss_C : mat F;
  ss_D : mat F;
  ss_G_scale : mat F;
  need_update_r : bool;
  mordern_control_able : bool;
  give_output_able : bool;
  modern_control_mission_select : Z;
  is_msl_t_set : bool;
  ms1_t : vec F;
  setout_Z : F;
  return_back_to_0m_able : bool;
  start_return_back_runt : F;
  back_Z_aim : F;
  _att_control : vec F;
  _thrust_sp : F;
  _rates_int : vec F
}.

(** Member assignment [s.f = v], one setter per member. *)
Definition set_cywmc_able (v : bool) (s : state) : state :=
  Build_state v (arm_t0 s) (run_t s) (loop_times s) (pos_current s) (ss_seted
    s) (ss_x s) (ss_x_dot s) (ss_r s) (ss_u_scale s) (ss_u_actual s) (ss_y s)
    (ss_setout_y s) (ss_k s) (ss_A s) (ss_B s) (ss_C s) (ss_D s) (ss_G_scale
    s) (need_update_r s) (mordern_control_able s) (give_output_able s)
    (modern_control_mission_select s) (is_msl_t_set s) (ms1_t s) (setout_Z s)
    (return_back_to_0m_able s) (start_return_back_runt s) (back_Z_aim s)
    (_att_control s) (_thrust_sp s) (_rates_int s).

Definition set_arm_t0 (v : F) (s : state) : state :=
  Build_state (cywmc_able s) v (run_t s) (loop_times s) (pos_current s)
    (ss_seted s) (ss_x s) (ss_x_dot s) (ss_r s) (ss_u_scale s) (ss_u_actual s)
    (ss_y s) (ss_setout_y s) (ss_k s) (ss_A s) (ss_B s) (ss_C s) (ss_D s)
    (ss_G_scale s) (need_update_r s) (mordern_control_able s)
    (give_output_able s) (modern_control_mission_select s) (is_msl_t_set s)
    (ms1_t s) (setout_Z s) (return_back_to_0m_able s) (start_return_back_runt
    s) (back_Z_aim s) (_att_control s) (_thrust_sp s) (_rates_int s).

Definition set_run_t (v : F) (s : state) : state :=
  Build_state (cywmc_able s) (arm_t0 s) v (loop_times s) (pos_current s)
    (ss_seted s) (ss_x s) (ss_x_dot s) (ss_r s) (ss_u_scale s) (ss_u_actual s)
    (ss_y s) (ss_setout_y s) (ss_k s) (ss_A s) (ss_B s) (ss_C s) (ss_D s)
    (ss_G_scale s) (need_update_r s) (mordern_control_able s)
    (give_output_able s) (modern_control_mission_select s) (is_msl_t_set s)
    (ms1_t s) (setout_Z s) (return_back_to_0m_able s) (start_return_back_runt
    s) (back_Z_aim s) (_att_control s) (_thrust_sp s) (_rates_int s).

Definition set_loop_times (v : Z) (s : state) : state :=
  Build_state (cywmc_able s) (arm_t0 s) (run_t s) v (pos_current s) (ss_seted
    s) (ss_x s) (ss_x_dot s) (ss_r s) (ss_u_scale s) (ss_u_actual s) (ss_y s)
    (ss_setout_y s) (ss_k s) (ss_A s) (ss_B s) (ss_C s) (ss_D s) (ss_G_scale
    s) (need_update_r s) (mordern_control_able s) (give_output_able s)
    (modern_control_mission_select s) (is_msl_t_set s) (ms1_t s) (setout_Z s)
    (return_back_to_0m_able s) (start_return_back_runt s) (back_Z_aim s)
    (_att_control s) (_thrust_sp s) (_rates_int s).

Definition set_pos_current (v : vehicle_local_position_s) (s : state) : state :=
  Build_state (cywmc_able s) (arm_t0 s) (run_t s) (loop_times s) v (ss_seted
    s) (ss_x s) (ss_x_dot s) (ss_r s) (ss_u_scale s) (ss_u_actual s) (ss_y s)
    (ss_setout_y s) (ss_k s) (ss_A s) (ss_B s) (ss_C s) (ss_D s) (ss_G_scale
    s) (need_update_r s) (mordern_control_able s) (give_output_able s)
    (modern_control_mission_select s) (is_msl_t_set s) (ms1_t s) (setout_Z s)
    (return_back_to_0m_able s) (start_return_back_runt s) (back_Z_aim s)
    (_att_control s) (_thrust_sp s) (_rates_int s).

Definition set_ss_seted (v : Z) (s : state) : state :=
  Build_state (cywmc_able s) (arm_t0 s) (run_t s) (loop_times s) (pos_current
    s) v (ss_x s) (ss_x_dot s) (ss_r s) (ss_u_scale s) (ss_u_actual s) (ss_y
    s) (ss_setout_y s) (ss_k s) (ss_A s) (ss_B s) (ss_C s) (ss_D s)
    (ss_G_scale s) (need_update_r s) (mordern_control_able s)
    (give_output_able s) (modern_control_mission_select s) (is_msl_t_set s)
    (ms1_t s) (setout_Z s) (return_back_to_0m_able s) (start_return_back_runt
    s) (back_Z_aim s) (_att_control s) (_thrust_sp s) (_rates_int s).

Definition set_ss_x (v : vec F) (s : state) : state :=
  Build_state (cywmc_able s) (arm_t0 s) (run_t s) (loop_times s) (pos_current
    s) (ss_seted s) v (ss_x_dot s) (ss_r s) (ss_u_scale s) (ss_u_actual s)
    (ss_y s) (ss_setout_y s) (ss_k s) (ss_A s) (ss_B s) (ss_C s) (ss_D s)
    (ss_G_scale s) (need_update_r s) (mordern_control_able s)
    (give_output_able s) (modern_control_mission_select s) (is_msl_t_set s)
    (ms1_t s) (setout_Z s) (return_back_to_0m_able s) (start_return_back_runt
    s) (back_Z_aim s) (_att_control s) (_thrust_sp s) (_rates_int s).

Definition set_ss_x_dot (v : vec F) (s : state) : state :=
  Build_state (cywmc_able s) (arm_t0 s) (run_t s) (loop_times s) (pos_current
    s) (ss_seted s) (ss_x s) v (ss_r s) (ss_u_scale s) (ss_u_actual s) (ss_y
    s) (ss_setout_y s) (ss_k s) (ss_A s) (ss_B s) (ss_C s) (ss_D s)
    (ss_G_scale s) (need_update_r s) (mordern_control_able s)
    (give_output_able s) (modern_control_mission_select s) (is_msl_t_set s)
    (ms1_t s) (setout_Z s) (return_back_to_0m_able s) (start_return_back_runt
    s) (back_Z_aim s) (_att_control s) (_thrust_sp s) (_rates_int s).

Definition set_ss_r (v : vec F) (s : state) : state :=
  Build_state (cywmc_able s) (arm_t0 s) (run_t s) (loop_times s) (pos_current
    s) (ss_seted s) (ss_x s) (ss_x_dot s) v (ss_u_scale s) (ss_u_actual s)
    (ss_y s) (ss_setout_y s) (ss_k s) (ss_A s) (ss_B s) (ss_C s) (ss_D s)
    (ss_G_scale s) (need_update_r s) (mordern_control_able s)
    (give_output_able s) (modern_control_mission_select s) (is_msl_t_set s)
    (ms1_t s) (setout_Z s) (return_back_to_0m_able s) (start_return_back_runt
    s) (back_Z_aim s) (_att_control s) (_thrust_sp s) (_rates_int s).

Definition set_ss_u_scale (v : vec F) (s : state) : state :=
  Build_state (cywmc_able s) (arm_t0 s) (run_t s) (loop_times s) (pos_current
    s) (ss_seted s) (ss_x s) (ss_x_dot s) (ss_r s) v (ss_u_actual s) (ss_y s)
    (ss_setout_y s) (ss_k s) (ss_A s) (ss_B s) (ss_C s) (ss_D s) (ss_G_scale
    s) (need_update_r s) (mordern_control_able s) (give_output_able s)
    (modern_control_mission_select s) (is_msl_t_set s) (ms1_t s) (setout_Z s)
    (return_back_to_0m_able s) (start_return_back_runt s) (back_Z_aim s)
    (_att_control s) (_thrust_sp s) (_rates_int s).

Definition set_ss_u_actual (v : vec F) (s : state) : state :=
  Build_state (cywmc_able s) (arm_t0 s) (run_t s) (loop_times s) (pos_current
    s) (ss_seted s) (ss_x s) (ss_x_dot s) (ss_r s) (ss_u_scale s) v (ss_y s)
    (ss_setout_y s) (ss_k s) (ss_A s) (ss_B s) (ss_C s) (ss_D s) (ss_G_scale
    s) (need_update_r s) (mordern_control_able s) (give_output_able s)
    (modern_control_mission_select s) (is_msl_t_set s) (ms1_t s) (setout_Z s)
    (return_back_to_0m_able s) (start_return_back_runt s) (back_Z_aim s)
    (_att_control s) (_thrust_sp s) (_rates_int s).

Definition set_ss_y (v : vec F) (s : state) : state :=
  Build_state (cywmc_able s) (arm_t0 s) (run_t s) (loop_times s) (pos_current
    s) (ss_seted s) (ss_x s) (ss_x_dot s) (ss_r s) (ss_u_scale s) (ss_u_actual
    s) v (ss_setout_y s) (ss_k s) (ss_A s) (ss_B s) (ss_C s) (ss_D s)
    (ss_G_scale s) (need_update_r s) (mordern_control_able s)
    (give_output_able s) (modern_control_mission_select s) (is_msl_t_set s)
    (ms1_t s) (setout_Z s) (return_back_to_0m_able s) (start_return_back_runt
    s) (back_Z_aim s) (_att_control s) (_thrust_sp s) (_rates_int s).

Definition set_ss_setout_y (v : vec F) (s : state) : state :=
  Build_state (cywmc_able s) (arm_t0 s) (run_t s) (loop_times s) (pos_current
    s) (ss_seted s) (ss_x s) (ss_x_dot s) (ss_r s) (ss_u_scale s) (ss_u_actual
    s) (ss_y s) v (ss_k s) (ss_A s) (ss_B s) (ss_C s) (ss_D s) (ss_G_scale s)
    (need_update_r s) (mordern_control_able s) (give_output_able s)
    (modern_control_mission_select s) (is_msl_t_set s) (ms1_t s) (setout_Z s)
    (return_back_to_0m_able s) (start_return_back_runt s) (back_Z_aim s)
    (_att_control s) (_thrust_sp s) (_rates_int s).

Definition set_ss_k (v : mat F) (s : state) : state :=
  Build_state (cywmc_able s) (arm_t0 s) (run_t s) (loop_times s) (pos_current
    s) (ss_seted s) (ss_x s) (ss_x_dot s) (ss_r s) (ss_u_scale s) (ss_u_actual
    s) (ss_y s) (ss_setout_y s) v (ss_A s) (ss_B s) (ss_C s) (ss_D s)
    (ss_G_scale s) (need_update_r s) (mordern_control_able s)
    (give_output_able s) (modern_control_mission_select s) (is_msl_t_set s)
    (ms1_t s) (setout_Z s) (return_back_to_0m_able s) (start_return_back_runt
    s) (back_Z_aim s) (_att_control s) (_thrust_sp s) (_rates_int s).

Definition set_ss_A (v : mat F) (s : state) : state :=
  Build_state (cywmc_able s) (arm_t0 s) (run_t s) (loop_times s) (pos_current
    s) (ss_seted s) (ss_x s) (ss_x_dot s) (ss_r s) (ss_u_scale s) (ss_u_actual
    s) (ss_y s) (ss_setout_y s) (ss_k s) v (ss_B s) (ss_C s) (ss_D s)
    (ss_G_scale s) (need_update_r s) (mordern_control_able s)
    (give_output_able s) (modern_control_mission_select s) (is_msl_t_set s)
    (ms1_t s) (setout_Z s) (return_back_to_0m_able s) (start_return_back_runt
    s) (back_Z_aim s) (_att_control s) (_thrust_sp s) (_rates_int s).

Definition set_ss_B (v : mat F) (s : state) : state :=
  Build_state (cywmc_able s) (arm_t0 s) (run_t s) (loop_times s) (pos_current
    s) (ss_seted s) (ss_x s) (ss_x_dot s) (ss_r s) (ss_u_scale s) (ss_u_actual
    s) (ss_y s) (ss_setout_y s) (ss_k s) (ss_A s) v (ss_C s) (ss_D s)
    (ss_G_scale s) (need_update_r s) (mordern_control_able s)
    (give_output_able s) (modern_control_mission_select s) (is_msl_t_set s)
    (ms1_t s) (setout_Z s) (return_back_to_0m_able s) (start_return_back_runt
    s) (back_Z_aim s) (_att_control s) (_thrust_sp s) (_rates_int s).

Definition set_ss_C (v : mat F) (s : state) : state :=
  Build_state (cywmc_able s) (arm_t0 s) (run_t s) (loop_times s) (pos_current
    s) (ss_seted s) (ss_x s) (ss_x_dot s) (ss_r s) (ss_u_scale s) (ss_u_actual
    s) (ss_y s) (ss_setout_y s) (ss_k s) (ss_A s) (ss_B s) v (ss_D s)
    (ss_G_scale s) (need_update_r s) (mordern_control_able s)
    (give_output_able s) (modern_control_mission_select s) (is_msl_t_set s)
    (ms1_t s) (setout_Z s) (return_back_to_0m_able s) (start_return_back_runt
    s) (back_Z_aim s) (_att_control s) (_thrust_sp s) (_rates_int s).

Definition set_ss_D (v : mat F) (s : state) : state :=
  Build_state (cywmc_able s) (arm_t0 s) (run_t s) (loop_times s) (pos_current
    s) (ss_seted s) (ss_x s) (ss_x_dot s) (ss_r s) (ss_u_scale s) (ss_u_actual
    s) (ss_y s) (ss_setout_y s) (ss_k s) (ss_A s) (ss_B s) (ss_C s) v
    (ss_G_scale s) (need_update_r s) (mordern_control_able s)
    (give_output_able s) (modern_control_mission_select s) (is_msl_t_set s)
    (ms1_t s) (setout_Z s) (return_back_to_0m_able s) (start_return_back_runt
    s) (back_Z_aim s) (_att_control s) (_thrust_sp s) (_rates_int s).

Definition set_ss_G_scale (v : mat F) (s : state) : state :=
  Build_state (cywmc_able s) (arm_t0 s) (run_t s) (loop_times s) (pos_current
    s) (ss_seted s) (ss_x s) (ss_x_dot s) (ss_r s) (ss_u_scale s) (ss_u_actual
    s) (ss_y s) (ss_setout_y s) (ss_k s) (ss_A s) (ss_B s) (ss_C s) (ss_D s) v
    (need_update_r s) (mordern_control_able s) (give_output_able s)
    (modern_control_mission_select s) (is_msl_t_set s) (ms1_t s) (setout_Z s)
    (return_back_to_0m_able s) (start_return_back_runt s) (back_Z_aim s)
    (_att_control s) (_thrust_sp s) (_rates_int s).

Definition set_need_update_r (v : bool) (s : state) : state :=
  Build_state (cywmc_able s) (arm_t0 s) (run_t s) (loop_times s) (pos_current
    s) (ss_seted s) (ss_x s) (ss_x_dot s) (ss_r s) (ss_u_scale s) (ss_u_actual
    s) (ss_y s) (ss_setout_y s) (ss_k s) (ss_A s) (ss_B s) (ss_C s) (ss_D s)
    (ss_G_scale s) v (mordern_control_able s) (give_output_able s)
    (modern_control_mission_select s) (is_msl_t_set s) (ms1_t s) (setout_Z s)
    (return_back_to_0m_able s) (start_return_back_runt s) (back_Z_aim s)
    (_att_control s) (_thrust_sp s) (_rates_int s).

Definition set_mordern_control_able (v : bool) (s : state) : state :=
  Build_state (cywmc_able s) (arm_t0 s) (run_t s) (loop_times s) (pos_current
    s) (ss_seted s) (ss_x s) (ss_x_dot s) (ss_r s) (ss_u_scale s) (ss_u_actual
    s) (ss_y s) (ss_setout_y s) (ss_k s) (ss_A s) (ss_B s) (ss_C s) (ss_D s)
    (ss_G_scale s) (need_update_r s) v (give_output_able s)
    (modern_control_mission_select s) (is_msl_t_set s) (ms1_t s) (setout_Z s)
    (return_back_to_0m_able s) (start_return_back_runt s) (back_Z_aim s)
    (_att_control s) (_thrust_sp s) (_rates_int s).

Definition set_give_output_able (v : bool) (s : state) : state :=
  Build_state (cywmc_able s) (arm_t0 s) (run_t s) (loop_times s) (pos_current
    s) (ss_seted s) (ss_x s) (ss_x_dot s) (ss_r s) (ss_u_scale s) (ss_u_actual
    s) (ss_y s) (ss_setout_y s) (ss_k s) (ss_A s) (ss_B s) (ss_C s) (ss_D s)
    (ss_G_scale s) (need_update_r s) (mordern_control_able s) v
    (modern_control_mission_select s) (is_msl_t_set s) (ms1_t s) (setout_Z s)
    (return_back_to_0m_able s) (start_return_back_runt s) (back_Z_aim s)
    (_att_control s) (_thrust_sp s) (_rates_int s).

Definition set_modern_control_mission_select (v : Z) (s : state) : state :=
  Build_state (cywmc_able s) (arm_t0 s) (run_t s) (loop_times s) (pos_current
    s) (ss_seted s) (ss_x s) (ss_x_dot s) (ss_r s) (ss_u_scale s) (ss_u_actual
    s) (ss_y s) (ss_setout_y s) (ss_k s) (ss_A s) (ss_B s) (ss_C s) (ss_D s)
    (ss_G_scale s) (need_update_r s) (mordern_control_able s)
    (give_output_able s) v (is_msl_t_set s) (ms1_t s) (setout_Z s)
    (return_back_to_0m_able s) (start_return_back_runt s) (back_Z_aim s)
    (_att_control s) (_thrust_sp s) (_rates_int s).

Definition set_is_msl_t_set (v : bool) (s : state) : state :=
  Build_state (cywmc_able s) (arm_t0 s) (run_t s) (loop_times s) (pos_current
    s) (ss_seted s) (ss_x s) (ss_x_dot s) (ss_r s) (ss_u_scale s) (ss_u_actual
    s) (ss_y s) (ss_setout_y s) (ss_k s) (ss_A s) (ss_B s) (ss_C s) (ss_D s)
    (ss_G_scale s) (need_update_r s) (mordern_control_able s)
    (give_output_able s) (modern_control_mission_select s) v (ms1_t s)
    (setout_Z s) (return_back_to_0m_able s) (start_return_back_runt s)
    (back_Z_aim s) (_att_control s) (_thrust_sp s) (_rates_int s).

Definition set_ms1_t (v : vec F) (s : state) : state :=
  Build_state (cywmc_able s) (arm_t0 s) (run_t s) (loop_times s) (pos_current
    s) (ss_seted s) (ss_x s) (ss_x_dot s) (ss_r s) (ss_u_scale s) (ss_u_actual
    s) (ss_y s) (ss_setout_y s) (ss_k s) (ss_A s) (ss_B s) (ss_C s) (ss_D s)
    (ss_G_scale s) (need_update_r s) (mordern_control_able s)
    (give_output_able s) (modern_control_mission_select s) (is_msl_t_set s) v
    (setout_Z s) (return_back_to_0m_able s) (start_return_back_runt s)
    (back_Z_aim s) (_att_control s) (_thrust_sp s) (_rates_int s).

Definition set_setout_Z (v : F) (s : state) : state :=
  Build_state (cywmc_able s) (arm_t0 s) (run_t s) (loop_times s) (pos_current
    s) (ss_seted s) (ss_x s) (ss_x_dot s) (ss_r s) (ss_u_scale s) (ss_u_actual
    s) (ss_y s) (ss_setout_y s) (ss_k s) (ss_A s) (ss_B s) (ss_C s) (ss_D s)
    (ss_G_scale s) (need_update_r s) (mordern_control_able s)
    (give_output_able s) (modern_control_mission_select s) (is_msl_t_set s)
    (ms1_t s) v (return_back_to_0m_able s) (start_return_back_runt s)
    (back_Z_aim s) (_att_control s) (_thrust_sp s) (_rates_int s).

Definition set_return_back_to_0m_able (v : bool) (s : state) : state :=
  Build_state (cywmc_able s) (arm_t0 s) (run_t s) (loop_times s) (pos_current
    s) (ss_seted s) (ss_x s) (ss_x_dot s) (ss_r s) (ss_u_scale s) (ss_u_actual
    s) (ss_y s) (ss_setout_y s) (ss_k s) (ss_A s) (ss_B s) (ss_C s) (ss_D s)
    (ss_G_scale s) (need_update_r s) (mordern_control_able s)
    (give_output_able s) (modern_control_mission_select s) (is_msl_t_set s)
    (ms1_t s) (setout_Z s) v (start_return_back_runt s) (back_Z_aim s)
    (_att_control s) (_thrust_sp s) (_rates_int s).

Definition set_start_return_back_runt (v : F) (s : state) : state :=
  Build_state (cywmc_able s) (arm_t0 s) (run_t s) (loop_times s) (pos_current
    s) (ss_seted s) (ss_x s) (ss_x_dot s) (ss_r s) (ss_u_scale s) (ss_u_actual
    s) (ss_y s) (ss_setout_y s) (ss_k s) (ss_A s) (ss_B s) (ss_C s) (ss_D s)
    (ss_G_scale s) (need_update_r s) (mordern_control_able s)
    (give_output_able s) (modern_control_mission_select s) (is_msl_t_set s)
    (ms1_t s) (setout_Z s) (return_back_to_0m_able s) v (back_Z_aim s)
    (_att_control s) (_thrust_sp s) (_rates_int s).

Definition set_back_Z_aim (v : F) (s : state) : state :=
  Build_state (cywmc_able s) (arm_t0 s) (run_t s) (loop_times s) (pos_current
    s) (ss_seted s) (ss_x s) (ss_x_dot s) (ss_r s) (ss_u_scale s) (ss_u_actual
    s) (ss_y s) (ss_setout_y s) (ss_k s) (ss_A s) (ss_B s) (ss_C s) (ss_D s)
    (ss_G_scale s) (need_update_r s) (mordern_control_able s)
    (give_output_able s) (modern_control_mission_select s) (is_msl_t_set s)
    (ms1_t s) (setout_Z s) (return_back_to_0m_able s) (start_return_back_runt
    s) v (_att_control s) (_thrust_sp s) (_rates_int s).

Definition set_att_control (v : vec F) (s : state) : state :=
  Build_state (cywmc_able s) (arm_t0 s) (run_t s) (loop_times s) (pos_current
    s) (ss_seted s) (ss_x s) (ss_x_dot s) (ss_r s) (ss_u_scale s) (ss_u_actual
    s) (ss_y s) (ss_setout_y s) (ss_k s) (ss_A s) (ss_B s) (ss_C s) (ss_D s)
    (ss_G_scale s) (need_update_r s) (mordern_control_able s)
    (give_output_able s) (modern_control_mission_select s) (is_msl_t_set s)
    (ms1_t s) (setout_Z s) (return_back_to_0m_able s) (start_return_back_runt
    s) (back_Z_aim s) v (_thrust_sp s) (_rates_int s).

Definition set_thrust_sp (v : F) (s : state) : state :=
  Build_state (cywmc_able s) (arm_t0 s) (run_t s) (loop_times s) (pos_current
    s) (ss_seted s) (ss_x s) (ss_x_dot s) (ss_r s) (ss_u_scale s) (ss_u_actual
    s) (ss_y s) (ss_setout_y s) (ss_k s) (ss_A s) (ss_B s) (ss_C s) (ss_D s)
    (ss_G_scale s) (need_update_r s) (mordern_control_able s)
    (give_output_able s) (modern_control_mission_select s) (is_msl_t_set s)
    (ms1_t s) (setout_Z s) (return_back_to_0m_able s) (start_return_back_runt
    s) (back_Z_aim s) (_att_control s) v (_rates_int s).

Definition set_rates_int (v : vec F) (s : state) : state :=
  Build_state (cywmc_able s) (arm_t0 s) (run_t s) (loop_times s) (pos_current
    s) (ss_seted s) (ss_x s) (ss_x_dot s) (ss_r s) (ss_u_scale s) (ss_u_actual
    s) (ss_y s) (ss_setout_y s) (ss_k s) (ss_A s) (ss_B s) (ss_C s) (ss_D s)
    (ss_G_scale s) (need_update_r s) (mordern_control_able s)
    (give_output_able s) (modern_control_mission_select s) (is_msl_t_set s)
    (ms1_t s) (setout_Z s) (return_back_to_0m_able s) (start_return_back_runt
    s) (back_Z_aim s) (_att_control s) (_thrust_sp s) v.

(** What one call of [control_attitude_rates] reads from outside [state]:
    the mode flags, the two readings of [hrt_absolute_time], the
    [vehicle_local_position] message when [orb_check] reports one, the Euler
    angles of [_v_att.q], the corrected body rates and [dt]. *)
Record cycle_in : Type := {
  flag_armed : bool;
  flag_control_rates_enabled : bool;
  is_rotary_wing : bool;
  hrt_arm : F;
  hrt_run : F;
  pos_update : option vehicle_local_position_s;
  agl_roll : F; agl_pitch : F; agl_yaw : F;
  rates : vec F;
  dt : F
}.

(** *** Statements

    A statement is a function [state -> state], and a block chains its
    statements with [let s := ... s in].  [assign set_f e] is [f = e], where
    [e] reads the state; [f_at i e] is [f(0, i) = e] or [f[i] = e];
    [when c body] is [if (c) { body }]. *)

Definition assign {A : Type} (set : A -> state -> state) (e : state -> A)
    (s : state) : state :=
  set (e s) s.

Definition when (c : state -> bool) (body : state -> state) (s : state) : state :=
  if c s then body s else s.

Definition ss_x_at (i : nat) (e : F) (s : state) : state :=
  set_ss_x (vset (ss_x s) i e) s.

Definition ss_r_at (i : nat) (e : F) (s : state) : state :=
  set_ss_r (vset (ss_r s) i e) s.

Definition ss_u_scale_at (i : nat) (e : F) (s : state) : state :=
  set_ss_u_scale (vset (ss_u_scale s) i e) s.

Definition ss_setout_y_at (i : nat) (e : F) (s : state) : state :=
  set_ss_setout_y (vset (ss_setout_y s) i e) s.

Definition ms1_t_at (i : nat) (e : F) (s : state) : state :=
  set_ms1_t (vset (ms1_t s) i e) s.

Definition att_control_at (i : nat) (e : F) (s : state) : state :=
  set_att_control (vset (_att_control s) i e) s.

Definition ss_k_at (i j : nat) (e : F) (s : state) : state :=
  set_ss_k (mset (ss_k s) i j e) s.

Definition ss_A_at (i j : nat) (e : F) (s : state) : state :=
  set_ss_A (mset (ss_A s) i j e) s.

Definition ss_B_at (i j : nat) (e : F) (s : state) : state :=
  set_ss_B (mset (ss_B s) i j e) s.

Definition ss_C_at (i j : nat) (e : F) (s : state) : state :=
  set_ss_C (mset (ss_C s) i j e) s.

Definition ss_G_scale_at (i j : nat) (e : F) (s : state) : state :=
  set_ss_G_scale (mset (ss_G_scale s) i j e) s.

(** *** Init running time *)

Definition update_run_t (i : cycle_in) (s : state) : state :=
  if flag_armed i && flag_control_rates_enabled i then
    let s := when (fun s => arm_t0 s <? fone)%fl (set_arm_t0 (hrt_arm i)) s in
    assign set_run_t (fun s => (hrt_run i - arm_t0 s) / fdec 1000000 0)%fl s
  else
    let s := set_arm_t0 fzero s in
    set_run_t fzero s.

Definition poll_position (i : cycle_in) (s : state) : state :=
  match pos_update i with
  | Some p => set_pos_current p s
  | None => s
  end.

(** *** Init for default parameters in SS *)

Definition ss_set_zero (s : state) : state :=
  let s := set_ss_x (vzero 8) s in
  let s := set_ss_x_dot (vzero 8) s in
  let s := set_ss_r (vzero 4) s in
  let s := set_ss_u_scale (vzero 4) s in
  let s := set_ss_u_actual (vzero 4) s in
  let s := set_ss_y (vzero 4) s in
  let s := set_ss_k (mzero 4 8) s in
  let s := set_ss_A (mzero 8 8) s in
  let s := set_ss_B (mzero 8 4) s in
  let s := set_ss_C (mzero 4 8) s in
  let s := set_ss_D (mzero 4 4) s in
  set_ss_G_scale (mzero 4 4) s.

Definition ss_fill_k (s : state) : state :=
  let s := ss_k_at 0 0 (fdec 3 0) s in
  let s := ss_k_at 0 4 (fdec 4 0) s in
  let s := ss_k_at 1 1 (fdec 14800 4) s in
  let s := ss_k_at 1 2 (fdec (-3884) 4) s in
  let s := ss_k_at 1 3 (fdec (-3751) 4) s in
  let s := ss_k_at 1 5 (fdec 5151 4) s in
  let s := ss_k_at 1 6 (fdec (-914) 4) s in
  let s := ss_k_at 1 7 (fdec (-650) 4) s in
  let s := ss_k_at 2 1 (fdec 1841 4) s in
  let s := ss_k_at 2 2 (fdec 16960 4) s in
  let s := ss_k_at 2 3 (fdec (-133) 4) s in
  let s := ss_k_at 2 5 (fdec 709 4) s in
  let s := ss_k_at 2 6 (fdec 5454 4) s in
  let s := ss_k_at 2 7 (fdec 140 4) s in
  let s := ss_k_at 3 1 (fdec 9353 4) s in
  let s := ss_k_at 3 2 (fdec 6032 4) s in
  let s := ss_k_at 3 3 (fdec 54446 4) s in
  let s := ss_k_at 3 5 (fdec 915 4) s in
  let s := ss_k_at 3 6 (fdec 1529 4) s in
  ss_k_at 3 7 (fdec 21972 4) s.

(** [ss_r = ss_G_scale * ss_r]. *)
Definition scale_reference (s : state) : state :=
  set_ss_r (mat_vec (ss_G_scale s) (ss_r s)) s.

Definition ss_setup (cfg : config) (s : state) : state :=
  let s := ss_set_zero s in
  let s := ss_G_scale_at 0 0 (ss_G_scale_0 cfg) s in
  let s := ss_G_scale_at 1 1 fzero s in
  let s := ss_G_scale_at 2 2 fzero s in
  let s := ss_G_scale_at 3 3 fzero s in
  let s := assign (ss_r_at 0) setout_Z s in
  let s := ss_r_at 1 fzero s in
  let s := ss_r_at 2 fzero s in
  let s := ss_r_at 3 fzero s in
  let s := scale_reference s in
  let s := ss_A_at 0 4 fone s in
  let s := ss_A_at 1 5 fone s in
  let s := ss_A_at 2 6 fone s in
  let s := ss_A_at 3 7 fone s in
  let s := ss_B_at 4 0 (fone / ss_m cfg)%fl s in
  let s := ss_B_at 5 1 (fone / ss_Ixx cfg)%fl s in
  let s := ss_B_at 6 2 (fone / ss_Iyy cfg)%fl s in
  let s := ss_B_at 7 3 (fone / ss_Izz cfg)%fl s in
  let s := ss_C_at 0 0 fone s in
  let s := ss_C_at 1 1 fone s in
  let s := ss_C_at 2 2 fone s in
  let s := ss_C_at 3 3 fone s in
  let s := ss_fill_k s in
  let s := assign (ss_setout_y_at 0) setout_Z s in
  let s := ss_setout_y_at 1 (setout_phi cfg) s in
  let s := ss_setout_y_at 2 (setout_theta cfg) s in
  let s := ss_setout_y_at 3 (setout_psi cfg) s in
  set_ss_seted 1 s.

Definition ss_init (cfg : config) : state -> state :=
  when (fun s => ss_seted s =? 0)%Z (ss_setup cfg).

(** *** Update r if needed in every loop *)

Definition update_r : state -> state :=
  when need_update_r
    (fun s =>
       let s := assign (ss_r_at 0) setout_Z s in
       let s := scale_reference s in
       set_need_update_r false s).

(** *** Mission *)

(** The stand-still branch of a mission. *)
Definition keep_still (s : state) : state :=
  let s := set_give_output_able false s in
  let s := att_control_at 0 fzero s in
  let s := att_control_at 1 fzero s in
  let s := att_control_at 2 fzero s in
  set_thrust_sp fzero s.

(** A hold branch: [need_update_r = 1; setout_Z = h]. *)
Definition rise_and_keep (h : F) (s : state) : state :=
  let s := set_need_update_r true s in
  set_setout_Z h s.

(** The final [else] of a mission. *)
Definition start_return (s : state) : state :=
  let s := set_return_back_to_0m_able true s in
  let s := set_modern_control_mission_select 0 s in
  assign set_start_return_back_runt run_t s.

(** Mission 1: 1m, 1.5m, 2m. *)
Definition mission_1_time_plan : state -> state :=
  when (fun s => negb (is_msl_t_set s))
    (fun s =>
       let s := ms1_t_at 0 (fdec 5 0) s in
       let s := ms1_t_at 1 (fdec 15 0) s in
       let s := ms1_t_at 2 (fdec 15 0) s in
       let s := ms1_t_at 3 (fdec 15 0) s in
       set_is_msl_t_set true s).

Definition mission_1_content (s : state) : state :=
  let t := vget (ms1_t s) in
  if (run_t s <? t 0)%fl then keep_still s
  else if (run_t s >? t 0)%fl && (run_t s <? t 0 + t 1)%fl then
    rise_and_keep (fdec 1 0) s
  else if (run_t s >? t 0)%fl && (run_t s <? t 0 + t 1 + t 2)%fl then
    rise_and_keep (fdec 15 1) s
  else if (run_t s >? t 0)%fl && (run_t s <? t 0 + t 1 + t 2 + t 3)%fl then
    rise_and_keep (fdec 2 0) s
  else start_return s.

Definition mission_1 (s : state) : state :=
  mission_1_content (mission_1_time_plan s).

(** Mission 2: x m. *)
Definition mission_2_time_plan (cfg : config) : state -> state :=
  when (fun s => negb (is_msl_t_set s))
    (fun s =>
       let s := ms1_t_at 0 (mission_2_time_still cfg) s in
       let s := ms1_t_at 1 (mission_2_time_height cfg) s in
       set_is_msl_t_set true s).

Definition mission_2_content (cfg : config) (s : state) : state :=
  let t := vget (ms1_t s) in
  if (run_t s <? t 0)%fl then keep_still s
  else if (run_t s >? t 0)%fl && (run_t s <? t 0 + t 1)%fl then
    rise_and_keep (mission_2_setout_Z cfg) s
  else start_return s.

Definition mission_2 (cfg : config) (s : state) : state :=
  mission_2_content cfg (mission_2_time_plan cfg s).

(** Mission 3 has an empty body. *)
Definition mission (cfg : config) (s : state) : state :=
  if modern_control_mission_able cfg then
    let s := set_mordern_control_able true s in
    let s := set_give_output_able true s in
    let s := when (fun s => modern_control_mission_select s =? 1)%Z mission_1 s in
    let s := when (fun s => modern_control_mission_select s =? 2)%Z (mission_2 cfg) s in
    s
  else
    set_give_output_able false s.

(** *** Return back to 0m *)

Definition safety_check (cfg : config) : state -> state :=
  when (fun s => run_t s >? safety_return_time cfg)%fl (set_cywmc_able false).

Definition return_back (cfg : config) (Z : F) : state -> state :=
  when return_back_to_0m_able
    (fun s =>
       let s := set_need_update_r true s in
       let s :=
         when (fun s => (- Z <? back_Z_aim s / return_degress_rate cfg)%fl
                        && (setout_Z s >=? fdec 25 2)%fl)
           (fun s =>
              let s := set_back_Z_aim (- Z * return_degress_rate cfg)%fl s in
              assign set_setout_Z
                (fun s => setout_Z s * return_degress_rate cfg)%fl s) s in
       let s :=
         when (fun s => setout_Z s <? fdec 25 2)%fl
           (fun s =>
              let s := set_setout_Z fzero s in
              set_need_update_r true s) s in
       when (fun _ => - Z <? fdec 2 1)%fl (set_give_output_able false) s).

(** *** Main feedback control *)

Definition main_feedback (i : cycle_in) (Z rate_Z : F) : state -> state :=
  when mordern_control_able
    (fun s =>
       let s := ss_x_at 0 (- Z)%fl s in
       let s := ss_x_at 1 (agl_roll i) s in
       let s := ss_x_at 2 (agl_pitch i) s in
       let s := ss_x_at 3 (agl_yaw i) s in
       let s := ss_x_at 4 (- rate_Z)%fl s in
       let s := ss_x_at 5 (vget (rates i) 0) s in
       let s := ss_x_at 6 (vget (rates i) 1) s in
       let s := ss_x_at 7 (vget (rates i) 2) s in
       let s := assign set_ss_u_actual
                  (fun s => vsub (ss_r s) (mat_vec (ss_k s) (ss_x s))) s in
       let s := assign set_ss_x_dot
                  (fun s => vadd (mat_vec (ss_B s) (ss_u_actual s))
                                 (mat_vec (ss_A s) (ss_x s))) s in
       let s := assign set_ss_x
                  (fun s => vadd (ss_x s) (vscale (ss_x_dot s) (dt i))) s in
       assign set_ss_y (fun s => mat_vec (ss_C s) (ss_x s)) s).

(** *** Give output *)

Definition give_output (cfg : config) (s : state) : state :=
  if give_output_able s then
    let s := assign (ss_u_scale_at 0)
               (fun s => (vget (ss_u_actual s) 0 + ss_m cfg * g cfg)
                         / T_max cfg)%fl s in
    let s := assign (ss_u_scale_at 1)
               (fun s => vget (ss_u_actual s) 1 / Mx_max cfg)%fl s in
    let s := assign (ss_u_scale_at 2)
               (fun s => vget (ss_u_actual s) 2 / My_max cfg)%fl s in
    let s := assign (ss_u_scale_at 3)
               (fun s => vget (ss_u_actual s) 3 / Mz_max cfg)%fl s in
    let s :=
      when (fun _ => cywmc_angle_control cfg)
        (fun s =>
           let s := assign (att_control_at 0) (fun s => vget (ss_u_scale s) 1) s in
           let s := assign (att_control_at 1) (fun s => vget (ss_u_scale s) 2) s in
           assign (att_control_at 2) (fun s => vget (ss_u_scale s) 3) s) s in
    assign set_thrust_sp (fun s => vget (ss_u_scale s) 0) s
  else
    let s :=
      when (fun _ => cywmc_angle_control cfg)
        (fun s =>
           let s := att_control_at 0 fzero s in
           let s := att_control_at 1 fzero s in
           att_control_at 2 fzero s) s in
    set_thrust_sp fzero s.

(** *** The modern-control block and [control_attitude_rates] *)

(** Running time and current state: the statements above the locals [Z]
    and [rate_Z]. *)
Definition get_current_state (i : cycle_in) (s : state) : state :=
  let s := update_run_t i s in
  let s := assign set_loop_times (fun s => loop_times s + 1)%Z s in
  poll_position i s.

(** The set-up and the mission sequencer, down to the feedback law. *)
Definition sequencing (cfg : config) (Z : F) (s : state) : state :=
  let s := ss_init cfg s in
  let s := update_r s in
  let s := mission cfg s in
  let s := safety_check cfg s in
  return_back cfg Z s.

(** The rest of the block, on the locals [Z = pos_current.z] and
    [rate_Z = pos_current.vz]. *)
Definition control_law (cfg : config) (i : cycle_in) (Z rate_Z : F)
    (s : state) : state :=
  let s := sequencing cfg Z s in
  let s := main_feedback i Z rate_Z s in
  give_output cfg s.

(** The block guarded by [if(cywmc_able)]. *)
Definition modern_control (cfg : config) (i : cycle_in) : state -> state :=
  when cywmc_able
    (fun s =>
       let s := get_current_state i s in
       control_law cfg i (z (pos_current s)) (vz (pos_current s)) s).

(** Reset integral if disarmed. *)
Definition reset_integral (i : cycle_in) : state -> state :=
  when (fun _ => negb (flag_armed i) || negb (is_rotary_wing i))
    (set_rates_int (vzero 3)).

Definition control_attitude_rates (cfg : config) (i : cycle_in) (s : state) : state :=
  let s := reset_integral i s in
  modern_control cfg i s.

(** *** The block, stage by stage *)

(** The state the mission logic starts from. *)
Definition before_mission (cfg : config) (i : cycle_in) (s : state) : state :=
  update_r (ss_init cfg (get_current_state i s)).

(** The state the feedback law starts from. *)
Definition before_feedback (cfg : config) (i : cycle_in) (s : state) : state :=
  let s := get_current_state i s in
  sequencing cfg (z (pos_current s)) s.

(** The state vector the feedback law builds from the measurements. *)
Definition measured_x (i : cycle_in) (p : vehicle_local_position_s) : vec F :=
  [ (- z p)%fl; agl_roll i; agl_pitch i; agl_yaw i;
    (- vz p)%fl; vget (rates i) 0; vget (rates i) 1; vget (rates i) 2 ].

(** The fixed sizes of the vectors the block writes by index. *)
Definition dims_ok (s : state) : Prop :=
  length (ss_x s) = 8%nat /\ length (ss_u_scale s) = 4%nat.

(** *** The sequencer's phase *)

Inductive sequencer_phase : Type :=
  | Phase (k : nat)
  | Returning.

(** Modelled from the spec: for cumulative thresholds [T_0], [T_0 + T_1],
    ..., the active phase is the smallest [k] with [run_t] in
    [[T_0 + ... + T_(k-1), T_0 + ... + T_k)]; past the last threshold the
    sequencer is [Returning]. *)
Fixpoint spec_phase_from (k : nat) (bound : F) (rest : list F) (t : F)
    : sequencer_phase :=
  if (t <? bound)%fl then Phase k
  else match rest with
       | [] => Returning
       | d :: rest' => spec_phase_from (S k) (bound + d)%fl rest' t
       end.

Definition spec_phase (plan : list F) (t : F) : sequencer_phase :=
  match plan with
  | [] => Returning
  | d :: rest => spec_phase_from 0 d rest t
  end.

(** The branch [mission_1_content] takes, read off its conditions. *)
Definition mission_1_phase (s : state) : sequencer_phase :=
  let t := vget (ms1_t s) in
  if (run_t s <? t 0)%fl then Phase 0
  else if (run_t s >? t 0)%fl && (run_t s <? t 0 + t 1)%fl then Phase 1
  else if (run_t s >? t 0)%fl && (run_t s <? t 0 + t 1 + t 2)%fl then Phase 2
  else if (run_t s >? t 0)%fl && (run_t s <? t 0 + t 1 + t 2 + t 3)%fl then Phase 3
  else Returning.

Definition mission_1_effect (ph : sequencer_phase) (s : state) : state :=
  match ph with
  | Phase 0 => keep_still s
  | Phase 1 => rise_and_keep (fdec 1 0) s
  | Phase 2 => rise_and_keep (fdec 15 1) s
  | Phase _ => rise_and_keep (fdec 2 0) s
  | Returning => start_return s
  end.

(** The members the mission sequencer owns, and those of the state-space
    model that are written by index: each half of the block leaves the
    other half's members alone. *)
Record sequencer_view : Type := {
  sq_cywmc_able : bool;
  sq_run_t : F;
  sq_setout_Z : F;
  sq_return_back_to_0m_able : bool;
  sq_modern_control_mission_select : Z;
  sq_start_return_back_runt : F;
  sq_back_Z_aim : F;
  sq_pos_current : vehicle_local_position_s
}.

Definition sequencer (s : state) : sequencer_view :=
  {| sq_cywmc_able := cywmc_able s;
     sq_run_t := run_t s;
     sq_setout_Z := setout_Z s;
     sq_return_back_to_0m_able := return_back_to_0m_able s;
     sq_modern_control_mission_select := modern_control_mission_select s;
     sq_start_return_back_runt := start_return_back_runt s;
     sq_back_Z_aim := back_Z_aim s;
     sq_pos_current := pos_current s |}.

Record model_view : Type := {
  mv_run_t : F;
  mv_ss_seted : Z;
  mv_pos_current : vehicle_local_position_s;
  mv_ss_x : vec F;
  mv_ss_u_scale : vec F;
  mv_ss_u_actual : vec F;
  mv_ss_k : mat F;
  mv_ss_A : mat F;
  mv_ss_B : mat F;
  mv_ss_C : mat F
}.

Definition model (s : state) : model_view :=
  {| mv_run_t := run_t s;
     mv_ss_seted := ss_seted s;
     mv_pos_current := pos_current s;
     mv_ss_x := ss_x s;
     mv_ss_u_scale := ss_u_scale s;
     mv_ss_u_actual := ss_u_actual s;
     mv_ss_k := ss_k s;
     mv_ss_A := ss_A s;
     mv_ss_B := ss_B s;
     mv_ss_C := ss_C s |}.

(** The commanded altitude with the two members that say which part of
    the sequencer drives it. *)
Definition altitude_view (s : state) : F * bool * Z :=
  (setout_Z s, return_back_to_0m_able s, modern_control_mission_select s).

(** The sequencer is in the return phase. *)
Definition returning (s : state) : Prop :=
  return_back_to_0m_able s = true /\ modern_control_mission_select s = 0%Z.

(** The states after each of a run of calls, oldest first. *)
Fixpoint trace (cfg : config) (ins : list cycle_in) (s : state) : list state :=
  match ins with
  | [] => []
  | i :: rest =>
      let s' := control_attitude_rates cfg i s in
      s' :: trace cfg rest s'
  end.

(** Successive calls, oldest input first. *)
Definition run_cycles (cfg : config) (ins : list cycle_in) (s : state) : state :=
  fold_left (fun st i => control_attitude_rates cfg i st) ins s.

End ModernControl.

Arguments vehicle_local_position_s : clear implicits.
Arguments config : clear implicits.
Arguments state : clear implicits.
Arguments cycle_in : clear implicits.
Arguments sequencer_view : clear implicits.
Arguments model_view : clear implicits.
End ModernControl.

(** ** Concrete inputs, in binary32 *)

Module Scenario.

Definition f32 (m : Z) (k : nat) : B32.float32 := fdec m k.

(** A [sensor_correction] message that only differs from the constructor's
    in the instance it selects. *)
Definition select_instance (n : N) : sensor_correction_s B32.float32 :=
  {| selected_gyro_instance := n;
     gyro_offset_0 := vzero 3; gyro_scale_0 := repeat fone 3;
     gyro_offset_1 := vzero 3; gyro_scale_1 := repeat fone 3;
     gyro_offset_2 := vzero 3; gyro_scale_2 := repeat fone 3 |}.

(** Two gyros; the sensor module first selects instance 1, then reports
    instance 7. *)
Definition two_gyros_then_invalid : list (option (sensor_correction_s B32.float32)) :=
  [Some (select_instance 1); Some (select_instance 7)].

(** Level attitude, attitude setpoint equal to it, and the rate setpoint a
    roll stick left behind in ACRO mode. *)
Definition level_after_acro : AttitudeControl.attitude_state B32.float32 :=
  AttitudeControl.manual_rates_control
    [f32 1 0; f32 0 0; f32 0 0] [f32 1 0; f32 1 0; f32 1 0] (f32 5 1)
    {| AttitudeControl._v_att_q := [f32 1 0; f32 0 0; f32 0 0; f32 0 0];
       AttitudeControl._v_att_sp :=
         {| AttitudeControl.q_d := [f32 1 0; f32 0 0; f32 0 0; f32 0 0];
            AttitudeControl.yaw_sp_move_rate := f32 0 0;
            AttitudeControl.thrust_body_2 := f32 0 0 |};
       AttitudeControl._rates_sp := vzero 3;
       AttitudeControl._thrust_sp := f32 0 0 |}.

End Scenario.

(** ** Concrete publisher inputs *)

Module PublisherScenario.

Import Publisher.

(** The roll channel is NaN, battery compensation is on, and the battery
    module reports an infinite scale. *)
Definition nan_roll_infinite_scale : publisher B32.float32 :=
  {| _att_control := [B32.nan; Scenario.f32 0 0; Scenario.f32 0 0];
     _thrust_sp := Scenario.f32 5 1;
     _landing_gear := Scenario.f32 (-1) 0;
     _bat_scale_en := true;
     _battery_status_scale := B32.pinf;
     _actuators_0_circuit_breaker_enabled := false;
     _actuators := actuators_zero |}.

(** The same channels with the scale of a healthy battery, 1.1. *)
Definition nan_roll_scale_1_1 : publisher B32.float32 :=
  {| _att_control := [B32.nan; Scenario.f32 0 0; Scenario.f32 0 0];
     _thrust_sp := B32.pinf;
     _landing_gear := Scenario.f32 (-1) 0;
     _bat_scale_en := true;
     _battery_status_scale := Scenario.f32 11 1;
     _actuators_0_circuit_breaker_enabled := false;
     _actuators := actuators_zero |}.

End PublisherScenario.

(** ** A concrete flight *)

Module Flight.
Section Flight.

Import ModernControl.

Context {F : Type} `{FloatOps F}.

(** A 1.5 kg vehicle flying mission 1, with the safety ceiling at 30 s. *)
Definition cfg : config F :=
  {| ss_G_scale_0 := fdec 3 0;
     ss_m := fdec 15 1; ss_Ixx := fdec 3 2; ss_Iyy := fdec 3 2; ss_Izz := fdec 6 2;
     setout_phi := fdec 0 0; setout_theta := fdec 0 0; setout_psi := fdec 0 0;
     modern_control_mission_able := true;
     mission_2_time_still := fdec 5 0;
     mission_2_time_height := fdec 20 0;
     mission_2_setout_Z := fdec 1 0;
     safety_return_time := fdec 30 0;
     return_degress_rate := fdec 9 1;
     g := fdec 98 1;
     T_max := fdec 30 0; Mx_max := fdec 1 0; My_max := fdec 1 0; Mz_max := fdec 1 0;
     cywmc_angle_control := true |}.

(** Modelled from the spec: the header's member initialisers are absent.
    The start-up state has the block enabled, mission [select] selected,
    nothing set up yet and every number zero, but for the given return
    aim. *)
Definition start_up (select : Z) (back_Z_aim : F) : state F :=
  {| cywmc_able := true; arm_t0 := fzero; run_t := fzero; loop_times := 0;
     pos_current := {| z := fzero; vz := fzero |};
     ss_seted := 0;
     ss_x := vzero 8; ss_x_dot := vzero 8; ss_r := vzero 4;
     ss_u_scale := vzero 4; ss_u_actual := vzero 4; ss_y := vzero 4;
     ss_setout_y := vzero 4;
     ss_k := mzero 4 8; ss_A := mzero 8 8; ss_B := mzero 8 4;
     ss_C := mzero 4 8; ss_D := mzero 4 4; ss_G_scale := mzero 4 4;
     need_update_r := false; mordern_control_able := false;
     give_output_able := false;
     modern_control_mission_select := select; is_msl_t_set := false;
     ms1_t := vzero 4;
     setout_Z := fzero; return_back_to_0m_able := false;
     start_return_back_runt := fzero; back_Z_aim := back_Z_aim;
     _att_control := vzero 3; _thrust_sp := fzero; _rates_int := vzero 3 |}.

(** The sequencer on its way down from [h] metres, the mission over. *)
Definition coming_down (h : F) : state F :=
  let s := start_up 0 (fdec 100 0) in
  let s := set_setout_Z h s in
  set_return_back_to_0m_able true s.

(** An armed cycle at clock reading [usec] microseconds, the vehicle level
    and still at height [h] (so [pos_current.z = -h]). *)
Definition armed_at (usec : Z) (h : F) : cycle_in F :=
  {| flag_armed := true; flag_control_rates_enabled := true;
     is_rotary_wing := true;
     hrt_arm := fdec usec 0; hrt_run := fdec usec 0;
     pos_update := Some {| z := (- h)%fl; vz := fzero |};
     agl_roll := fzero; agl_pitch := fzero; agl_yaw := fzero;
     rates := vzero 3;
     dt := fdec 4 3 |}.

(** With the vehicle armed at 1 s of clock, the cycle at [1 + n] seconds
    has [run_t = n]. *)
Definition at_run_t (n : Z) (h : F) : cycle_in F :=
  armed_at (1000000 + n * 1000000) h.

(** The state after the arming cycle and one more cycle at [run_t = n],
    the vehicle at height [h]. *)
Definition flown_to (n : Z) (h : F) : state F :=
  run_cycles cfg [at_run_t 0 fzero; at_run_t n h] (start_up 1 (fdec 100 0)).

(** The publisher fed with the commands of a controller state. *)
Definition to_publisher (s : state F) : Publisher.publisher F :=
  {| Publisher._att_control := _att_control s;
     Publisher._thrust_sp := _thrust_sp s;
     Publisher._landing_gear := fdec (-1) 0;
     Publisher._bat_scale_en := false;
     Publisher._battery_status_scale := fone;
     Publisher._actuators_0_circuit_breaker_enabled := false;
     Publisher._actuators := Publisher.actuators_zero |}.

End Flight.
End Flight.

(** ** The altitude ramp of the return phase *)

Module ReturnRamp.
Section ReturnRamp.

Import ModernControl.

Context {F : Type} `{FloatOps F}.

(** The local [Z = pos_current.z] of a call: the altitude of the message
    polled in the call, or the one kept from an earlier call. *)
Definition altitude_read (i : cycle_in F) (s : state F) : F :=
  match pos_update i with
  | Some p => z p
  | None => z (pos_current s)
  end.

(** [-Z<back_Z_aim/return_degress_rate && setout_Z>=0.25f]. *)
Definition ramp_test (cfg : config F) (Z : F) (s : state F) : bool :=
  (- Z <? back_Z_aim s / return_degress_rate cfg)%fl
  && (setout_Z s >=? fdec 25 2)%fl.

(** The commanded altitude the return block leaves: ramped when the test
    holds, then replaced by 0 when under the floor. *)
Definition ramped_altitude (cfg : config F) (Z : F) (s : state F) : F :=
  let a := if ramp_test cfg Z s
           then (setout_Z s * return_degress_rate cfg)%fl
           else setout_Z s in
  if (a <? fdec 25 2)%fl then fzero else a.

(** Modelled from the spec: one evaluation takes the commanded altitude
    from [a] to [b]: it is left alone, multiplied by the ramp factor, or
    replaced by 0; it does not grow from a value at or above the floor; a
    value under the floor is replaced by 0; and what is left is 0 or at
    least the floor. *)
Definition ramp_step (rate a b : F) : Prop :=
  (b = a \/ b = (a * rate)%fl \/ b = fzero)
  /\ ((fdec 25 2 <=? a)%fl = true -> (b <=? a)%fl = true)
  /\ ((a <? fdec 25 2)%fl = true -> b = fzero)
  /\ (b = fzero \/ (fdec 25 2 <=? b)%fl = true).

End ReturnRamp.
End ReturnRamp.

(** ** The scheduling loop and the remaining helpers *)

Module Scheduler.
Section Scheduler.

Context {F : Type} `{FloatOps F}.

(** [run]: guard against too small (< 0.2 ms) and too large (> 20 ms)
    [dt]'s. *)
Definition clamp_dt (dt : F) : F :=
  if (dt <? fdec 2 4)%fl then fdec 2 4
  else if (dt >? fdec 2 2)%fl then fdec 2 2
  else dt.

(** [dt = (now - last_run) / 1e6f], on the unsigned 64-bit clock. *)
Definition loop_dt (now last_run : Z) : F :=
  clamp_dt (fdec ((now - last_run) mod 2 ^ 64) 6).

(** The uORB topic the actuator controls go to. *)
Inductive orb_id : Type :=
  | actuator_controls_virtual_mc
  | actuator_controls_0.

Record vehicle_status_s : Type := { is_vtol : bool; is_rotary_wing : bool }.

(** The members [vehicle_status_poll] writes; [None] is [nullptr]. *)
Record status_state : Type := {
  _vehicle_status : vehicle_status_s;
  _actuators_id : option orb_id
}.

Definition topic_of (m : vehicle_status_s) : orb_id :=
  if is_vtol m then actuator_controls_virtual_mc else actuator_controls_0.

Definition vehicle_status_poll (msg : option vehicle_status_s) (s : status_state)
    : status_state :=
  match msg with
  | Some m =>
      {| _vehicle_status := m;
         _actuators_id :=
           match _actuators_id s with
           | None => Some (topic_of m)
           | Some id => Some id
           end |}
  | None => s
  end.

Definition status_polls (msgs : list (option vehicle_status_s)) (s : status_state)
    : status_state :=
  fold_left (fun st m => vehicle_status_poll m st) msgs s.

(** The first message of a run of polls, if any. *)
Fixpoint first_message (msgs : list (option vehicle_status_s))
    : option vehicle_status_s :=
  match msgs with
  | [] => None
  | Some m :: _ => Some m
  | None :: rest => first_message rest
  end.

(** [run], flight termination of a multicopter: the setpoints and the
    commands are zeroed and published. *)
Definition terminate (hrt_absolute_time gyro_timestamp : Z)
    (s : Publisher.publisher F)
    : Publisher.actuator_controls_s F * option (Publisher.actuator_controls_s F) :=
  Publisher.publish_actuator_controls hrt_absolute_time gyro_timestamp
    {| Publisher._att_control := vzero 3;
       Publisher._thrust_sp := fzero;
       Publisher._landing_gear := Publisher._landing_gear s;
       Publisher._bat_scale_en := Publisher._bat_scale_en s;
       Publisher._battery_status_scale := Publisher._battery_status_scale s;
       Publisher._actuators_0_circuit_breaker_enabled :=
         Publisher._actuators_0_circuit_breaker_enabled s;
       Publisher._actuators := Publisher._actuators s |}.

End Scheduler.
End Scheduler.

Arguments Scheduler.status_state : clear implicits.
Arguments Scheduler.vehicle_status_s : clear implicits.

(** ** More views of the modern-control state *)

Module ModernControlViews.
Section ModernControlViews.

Import ModernControl.

Context {F : Type} `{FloatOps F}.

(** The matrices of the model and the flag that guards their set-up. *)
Definition plant (s : state F) : Z * mat F * mat F * mat F * mat F * mat F :=
  (ss_seted s, ss_k s, ss_A s, ss_B s, ss_C s, ss_G_scale s).

(** The output flag and the commands. *)
Definition commands (s : state F) : vec F * F := (_att_control s, _thrust_sp s).

(** The gain matrix the set-up writes. *)
Definition K_setup : mat F :=
  [ [fdec 3 0; fzero; fzero; fzero; fdec 4 0; fzero; fzero; fzero];
    [fzero; fdec 14800 4; fdec (-3884) 4; fdec (-3751) 4;
     fzero; fdec 5151 4; fdec (-914) 4; fdec (-650) 4];
    [fzero; fdec 1841 4; fdec 16960 4; fdec (-133) 4;
     fzero; fdec 709 4; fdec 5454 4; fdec 140 4];
    [fzero; fdec 9353 4; fdec 6032 4; fdec 54446 4;
     fzero; fdec 915 4; fdec 1529 4; fdec 21972 4] ].

(** The reference scaling the set-up writes. *)
Definition G_scale_setup (cfg : config F) : mat F :=
  [ [ss_G_scale_0 cfg; fzero; fzero; fzero];
    [fzero; fzero; fzero; fzero];
    [fzero; fzero; fzero; fzero];
    [fzero; fzero; fzero; fzero] ].

(** The plant matrices the set-up writes: a double integrator per channel,
    driven through the inverse mass and inertias, observed in its first
    four states. *)
Definition A_setup : mat F :=
  [ [fzero; fzero; fzero; fzero; fone; fzero; fzero; fzero];
    [fzero; fzero; fzero; fzero; fzero; fone; fzero; fzero];
    [fzero; fzero; fzero; fzero; fzero; fzero; fone; fzero];
    [fzero; fzero; fzero; fzero; fzero; fzero; fzero; fone];
    [fzero; fzero; fzero; fzero; fzero; fzero; fzero; fzero];
    [fzero; fzero; fzero; fzero; fzero; fzero; fzero; fzero];
    [fzero; fzero; fzero; fzero; fzero; fzero; fzero; fzero];
    [fzero; fzero; fzero; fzero; fzero; fzero; fzero; fzero] ].

Definition B_setup (cfg : config F) : mat F :=
  [ [fzero; fzero; fzero; fzero];
    [fzero; fzero; fzero; fzero];
    [fzero; fzero; fzero; fzero];
    [fzero; fzero; fzero; fzero];
    [(fone / ss_m cfg)%fl; fzero; fzero; fzero];
    [fzero; (fone / ss_Ixx cfg)%fl; fzero; fzero];
    [fzero; fzero; (fone / ss_Iyy cfg)%fl; fzero];
    [fzero; fzero; fzero; (fone / ss_Izz cfg)%fl] ].

Definition C_setup : mat F :=
  [ [fone; fzero; fzero; fzero; fzero; fzero; fzero; fzero];
    [fzero; fone; fzero; fzero; fzero; fzero; fzero; fzero];
    [fzero; fzero; fone; fzero; fzero; fzero; fzero; fzero];
    [fzero; fzero; fzero; fone; fzero; fzero; fzero; fzero] ].

(** The model with the reference the feedback law subtracts from. *)
Definition model_and_reference (s : state F)
    : Z * mat F * mat F * mat F * mat F * mat F * vec F :=
  (plant s, ss_r s).

(** Successive armed cycles of the running-time statement. *)
Definition run_time_after (ins : list (cycle_in F)) (s : state F) : state F :=
  fold_left (fun st i => update_run_t i st) ins s.

(** A cycle in which the running time counts. *)
Definition armed_cycle (i : cycle_in F) : Prop :=
  flag_armed i && flag_control_rates_enabled i = true.

(** A configuration with the mission sequencer switched off. *)
Definition sequencer_off (cfg : config F) : config F :=
  {| ss_G_scale_0 := ss_G_scale_0 cfg;
     ss_m := ss_m cfg; ss_Ixx := ss_Ixx cfg; ss_Iyy := ss_Iyy cfg;
     ss_Izz := ss_Izz cfg;
     setout_phi := setout_phi cfg; setout_theta := setout_theta cfg;
     setout_psi := setout_psi cfg;
     modern_control_mission_able := false;
     mission_2_time_still := mission_2_time_still cfg;
     mission_2_time_height := mission_2_time_height cfg;
     mission_2_setout_Z := mission_2_setout_Z cfg;
     safety_return_time := safety_return_time cfg;
     return_degress_rate := return_degress_rate cfg;
     g := g cfg;
     T_max := T_max cfg; Mx_max := Mx_max cfg; My_max := My_max cfg;
     Mz_max := Mz_max cfg;
     cywmc_angle_control := cywmc_angle_control cfg |}.

(** A disarmed cycle: the mode flags are clear and nothing else is read. *)
Definition disarmed (i : cycle_in F) : cycle_in F :=
  {| flag_armed := false; flag_control_rates_enabled := false;
     is_rotary_wing := is_rotary_wing i;
     hrt_arm := hrt_arm i; hrt_run := hrt_run i;
     pos_update := pos_update i;
     agl_roll := agl_roll i; agl_pitch := agl_pitch i; agl_yaw := agl_yaw i;
     rates := rates i;
     dt := dt i |}.

End ModernControlViews.
End ModernControlViews.

(** ** Rounding in binary32

    The vocabulary of the proofs about [SpecFloat]'s rounding: the exact
    value an operation rounds is kept as a quotient of integers, and a
    mantissa with its round and sticky bits is read as one integer, its
    key. *)

Section RoundingDefinitions.

Local Open Scope Z_scope.

(** [A / B] kept with one more bit: the quotient doubled, plus a last bit
    that says whether the division left a remainder (the sticky bit). *)
Definition sticky_div (A B : Z) : Z :=
  2 * (A / B) + (if A mod B =? 0 then 0 else 1).

(** A shift record read as one integer: the mantissa, then the round
    bit, then the sticky bit.  Shifting the record right by [k] bits is
    [sticky_div] of its key by [2^(k+1)]. *)
Definition key (mrs : shr_record) : Z :=
  4 * shr_m mrs + (if shr_r mrs then 2 else 0) + (if shr_s mrs then 1 else 0).

(** Round to nearest, ties to even, read off a key: the mantissa [K / 4],
    plus one when the two low bits say more than a half, or a half next to
    an odd mantissa. *)
Definition rne_key (K : Z) : Z := (K + 1 + (K / 4) mod 2) / 4.

(** A location as the two low bits of a key. *)
Definition loc_code (l : location) : Z :=
  match l with
  | loc_Exact => 0
  | loc_Inexact Lt => 1
  | loc_Inexact Eq => 2
  | loc_Inexact Gt => 3
  end.

(** What [binary_round_aux] returns for the rounded mantissa [r] at the
    exponent [E]: a mantissa that rounding carried up to [2^24] is
    renormalised, and an exponent above 104 overflows to an infinity. *)
Definition finish (sx : bool) (r E : Z) : spec_float :=
  match r with
  | Z0 => S754_zero sx
  | Zpos p =>
      if r <? 2 ^ 24 then
        if E <=? 104 then S754_finite sx p E else S754_infinity sx
      else
        if E + 1 <=? 104 then S754_finite sx 8388608 (E + 1) else S754_infinity sx
  | Zneg _ => S754_nan
  end.

(** The mantissa [m] with location [l] is what the exact value [N / D]
    looks like on the integer grid. *)
Definition located (N D m : Z) (l : location) : Prop :=
  0 <= N /\ 0 < D /\ 4 * m + loc_code l = sticky_div (2 * N) D.

(** The exponent [e] is at most the one binary32 gives a value with the
    mantissa [m], so that rounding [m] at [e] only shifts to the right. *)
Definition regime (m e : Z) : Prop :=
  0 <= fexp B32.prec B32.emax (Zdigits2 m + e) - e.

(** [valid_binary] at binary32: a finite value has a canonical mantissa
    and its exponent in range.  Every binary32 value is valid. *)
Definition valid32 (x : spec_float) : bool := valid_binary B32.prec B32.emax x.

(** The value of a number in units of [2^c], for [c] at most its
    exponent. *)
Definition sval (c : Z) (x : spec_float) : Z :=
  match x with
  | S754_finite s m e => cond_Zopp s (Zpos m * 2 ^ (e - c))
  | _ => 0
  end.

(** The exponent of a finite value. *)
Definition sexp (x : spec_float) : Z :=
  match x with
  | S754_finite _ _ e => e
  | _ => 0
  end.

(** Rounding of the signed integer [M] at exponent [e]. *)
Definition sbra (M e : Z) : spec_float :=
  match M with
  | Z0 => S754_zero false
  | Zpos p => binary_round_aux B32.prec B32.emax false (Zpos p) e loc_Exact
  | Zneg p => binary_round_aux B32.prec B32.emax true (Zpos p) e loc_Exact
  end.

(** Not above zero, and not NaN. *)
Definition nonpos_shape (x : spec_float) : bool :=
  match x with
  | S754_zero _ => true
  | S754_finite s _ _ => s
  | S754_infinity s => s
  | S754_nan => false
  end.

(** Not below zero, and not NaN. *)
Definition nonneg_shape (x : spec_float) : bool :=
  match x with
  | S754_zero _ => true
  | S754_finite s _ _ => negb s
  | S754_infinity s => negb s
  | S754_nan => false
  end.

(** The value of a valid number in units of [2^-149], the smallest
    positive binary32 number. *)
Definition ulps (x : spec_float) : Z := sval (-149) x.

(** The signed mantissa of a number. *)
Definition smant (x : spec_float) : Z :=
  match x with
  | S754_finite s m _ => cond_Zopp s (Zpos m)
  | _ => 0
  end.

(** [z] is the binary32 rounding of the exact value [V / D * 2^c]. *)
Definition rounding_of (V D c : Z) (z : spec_float) : Prop :=
  0 < D /\
  (V = 0 -> exists s, z = S754_zero s) /\
  (V <> 0 -> exists (N m e : Z) (l : location) (c0 : Z),
      z = binary_round_aux B32.prec B32.emax (V <? 0) m e l
      /\ located N D m l /\ regime m e /\ c0 <= e /\ c0 <= c
      /\ N * 2 ^ (e - c0) = Z.abs V * 2 ^ (c - c0)).

(** A valid value that is not NaN. *)
Definition ordered (x : spec_float) : Prop := valid32 x = true /\ x <> S754_nan.

(** The largest binary32 number. *)
Definition max_float : spec_float := S754_finite false 16777215 104.

End RoundingDefinitions.

(** * Properties *)

Unset Implicit Arguments.

(** ** Laws of binary32 *)

Lemma SFcompare_refl_not_Lt (x : spec_float) : SFcompare x x <> Some Lt.
Proof.
  destruct x as [s | s | | s m e]; simpl; try destruct s; try discriminate.
  - rewrite Z.compare_refl, Pos.compare_cont_refl. discriminate.
  - rewrite Z.compare_refl, Pos.compare_cont_refl. discriminate.
Qed.

Lemma SFltb_irrefl (x : spec_float) : SFltb x x = false.
Proof.
  unfold SFltb. pose proof (SFcompare_refl_not_Lt x) as Hx.
  destruct (SFcompare x x) as [[ | | ] | ]; try reflexivity.
  now elim Hx.
Qed.

Lemma SFadd_comm (prec emax : Z) (x y : spec_float) :
  SFadd prec emax x y = SFadd prec emax y x.
Proof.
  destruct x as [sx | sx | | sx mx ex], y as [sy | sy | | sy my ey];
    simpl; try reflexivity;
    try (destruct sx, sy; reflexivity).
  rewrite (Z.min_comm ey ex), Z.add_comm. reflexivity.
Qed.

#[export] Instance b32_laws : FloatLaws B32.float32.
Proof.
  split.
  - intros a b. apply SFadd_comm.
  - intros a. apply SFltb_irrefl.
Qed.

(** ** Comparisons of binary32 *)

Lemma SFcompare_antisym (x y : spec_float) :
  SFcompare y x = option_map CompOpp (SFcompare x y).
Proof.
  destruct x as [sx | sx | | sx mx ex], y as [sy | sy | | sy my ey]; simpl;
    try reflexivity;
    try (destruct sx; reflexivity);
    try (destruct sy; reflexivity);
    try (destruct sx, sy; reflexivity).
  destruct sx, sy; simpl; try reflexivity;
    rewrite (Z.compare_antisym ex ey); destruct (ex ?= ey)%Z; simpl;
    try reflexivity;
    change (Pos.compare_cont Eq my mx) with (Pos.compare my mx);
    change (Pos.compare_cont Eq mx my) with (Pos.compare mx my);
    rewrite (Pos.compare_antisym mx my);
    try rewrite CompOpp_involutive; reflexivity.
Qed.

Lemma SFcompare_None (x y : spec_float) :
  SFcompare x y = None -> B32.isnan x = true \/ B32.isnan y = true.
Proof.
  destruct x as [sx | sx | | sx mx ex], y as [sy | sy | | sy my ey]; simpl;
    intros E; try discriminate E; auto;
    try (destruct sx; discriminate E);
    try (destruct sy; discriminate E).
Qed.

Lemma SFltb_SFleb (x y : spec_float) : SFltb x y = true -> SFleb x y = true.
Proof.
  unfold SFltb, SFleb. destruct (SFcompare x y) as [[ | | ] | ]; easy.
Qed.

Lemma SFltb_not_nan (x y : spec_float) :
  SFltb x y = true -> B32.isnan x = false /\ B32.isnan y = false.
Proof.
  unfold SFltb.
  destruct x as [sx | sx | | sx mx ex], y as [sy | sy | | sy my ey]; simpl;
    intros E; try discriminate E; auto.
Qed.

(** Of two numbers, one that is not below the other is at least it. *)
Lemma SFleb_of_not_SFltb (x y : spec_float) :
  B32.isnan x = false -> B32.isnan y = false ->
  SFltb y x = false -> SFleb x y = true.
Proof.
  intros Hx Hy. unfold SFltb, SFleb. rewrite (SFcompare_antisym x y).
  destruct (SFcompare x y) as [[ | | ] | ] eqn:E; simpl; try easy.
  destruct (SFcompare_None _ _ E); congruence.
Qed.

Lemma SFltb_of_SFleb (x y : spec_float) : SFleb x y = true -> SFltb y x = false.
Proof.
  unfold SFltb, SFleb. rewrite (SFcompare_antisym x y).
  destruct (SFcompare x y) as [[ | | ] | ]; simpl; easy.
Qed.

(** ** Rounding in binary32 *)

Section Rounding.

Local Open Scope Z_scope.

(** *** The number of binary digits *)

Lemma digits2_pos_bounds (p : positive) :
  2 ^ (Zpos (digits2_pos p) - 1) <= Zpos p < 2 ^ Zpos (digits2_pos p).
Proof.
  induction p as [p IH | p IH | ]; cbn [digits2_pos].
  - rewrite Pos2Z.inj_succ. replace (Z.succ (Zpos (digits2_pos p)) - 1) with (Zpos (digits2_pos p)) by lia.
    rewrite Z.pow_succ_r by lia.
    replace (2 ^ Zpos (digits2_pos p)) with (2 * 2 ^ (Zpos (digits2_pos p) - 1)) in *
      by (rewrite <- Z.pow_succ_r by lia; f_equal; lia).
    lia.
  - rewrite Pos2Z.inj_succ. replace (Z.succ (Zpos (digits2_pos p)) - 1) with (Zpos (digits2_pos p)) by lia.
    rewrite Z.pow_succ_r by lia.
    replace (2 ^ Zpos (digits2_pos p)) with (2 * 2 ^ (Zpos (digits2_pos p) - 1)) in *
      by (rewrite <- Z.pow_succ_r by lia; f_equal; lia).
    lia.
  - cbn. lia.
Qed.

Lemma Zdigits2_bounds (m : Z) :
  0 < m -> 0 < Zdigits2 m /\ 2 ^ (Zdigits2 m - 1) <= m < 2 ^ Zdigits2 m.
Proof.
  destruct m as [ | p | p]; try lia. intros _. cbn [Zdigits2].
  split; [lia | apply digits2_pos_bounds].
Qed.

Lemma Zdigits2_nonneg (m : Z) : 0 <= Zdigits2 m.
Proof. destruct m; cbn; lia. Qed.

Lemma Zdigits2_unique (m d : Z) :
  2 ^ (d - 1) <= m < 2 ^ d -> 0 < d -> Zdigits2 m = d.
Proof.
  intros [Hlo Hhi] Hd.
  assert (Hm : 0 < m).
  { pose proof (Z.pow_pos_nonneg 2 (d - 1)). lia. }
  destruct (Zdigits2_bounds m Hm) as (Hpos & Hlo' & Hhi').
  destruct (Z.lt_trichotomy (Zdigits2 m) d) as [Hlt | [Heq | Hgt]]; [ | exact Heq | ].
  - assert (2 ^ Zdigits2 m <= 2 ^ (d - 1)) by (apply Z.pow_le_mono_r; lia). lia.
  - assert (2 ^ d <= 2 ^ (Zdigits2 m - 1)) by (apply Z.pow_le_mono_r; lia). lia.
Qed.

Lemma Zdigits2_mono (m m' : Z) : 0 <= m <= m' -> Zdigits2 m <= Zdigits2 m'.
Proof.
  intros [H0 Hle].
  destruct (Z.eq_dec m 0) as [-> | Hm]; [apply Zdigits2_nonneg | ].
  destruct (Zdigits2_bounds m) as (Hp & Hlo & Hhi); [lia | ].
  destruct (Zdigits2_bounds m') as (Hp' & Hlo' & Hhi'); [lia | ].
  destruct (Z_lt_le_dec (Zdigits2 m') (Zdigits2 m)) as [Hlt | Hge]; [ | exact Hge].
  assert (2 ^ Zdigits2 m' <= 2 ^ (Zdigits2 m - 1)) by (apply Z.pow_le_mono_r; lia). lia.
Qed.

Lemma Zdigits2_lt_pow (m d : Z) : 0 <= m -> 0 <= d -> m < 2 ^ d -> Zdigits2 m <= d.
Proof.
  intros Hm Hd Hlt.
  destruct (Z.eq_dec m 0) as [-> | Hne]; [cbn; lia | ].
  destruct (Zdigits2_bounds m) as (Hp & Hlo & Hhi); [lia | ].
  destruct (Z_lt_le_dec d (Zdigits2 m)) as [Hlt' | Hge]; [ | exact Hge].
  assert (2 ^ d <= 2 ^ (Zdigits2 m - 1)) by (apply Z.pow_le_mono_r; lia). lia.
Qed.

Lemma Zdigits2_ge_pow (m d : Z) : 0 <= d -> 2 ^ d <= m -> d + 1 <= Zdigits2 m.
Proof.
  intros Hd Hle.
  assert (0 < m) by (pose proof (Z.pow_pos_nonneg 2 d); lia).
  destruct (Zdigits2_bounds m) as (Hp & Hlo & Hhi); [lia | ].
  destruct (Z_lt_le_dec (Zdigits2 m) (d + 1)) as [Hlt' | Hge]; [ | exact Hge].
  assert (2 ^ Zdigits2 m <= 2 ^ d) by (apply Z.pow_le_mono_r; lia). lia.
Qed.

(** *** Division with a sticky bit *)

Lemma sticky_div_compose (A B k : Z) :
  0 <= A -> 0 < B -> 0 <= k ->
  sticky_div (sticky_div A B) (2 ^ (k + 1)) = sticky_div A (B * 2 ^ k).
Proof.
  intros HA HB Hk. unfold sticky_div.
  set (Q := A / B). set (R := A mod B).
  assert (HQR : A = B * Q + R) by (apply Z.div_mod; lia).
  assert (HR : 0 <= R < B) by (apply Z.mod_pos_bound; lia).
  assert (HQ : 0 <= Q) by (apply Z.div_pos; lia).
  set (t := if R =? 0 then 0 else 1).
  assert (Ht : 0 <= t <= 1) by (unfold t; destruct (R =? 0); lia).
  assert (HP : 0 < 2 ^ k) by (apply Z.pow_pos_nonneg; lia).
  rewrite Z.pow_add_r by lia. change (2 ^ 1) with 2.
  rewrite (Z.mul_comm (2 ^ k) 2).
  assert (E1 : (2 * Q + t) / (2 * 2 ^ k) = Q / 2 ^ k).
  { rewrite <- Z.div_div by lia. f_equal.
    symmetry. apply (Z.div_unique _ 2 Q t); lia. }
  assert (E2 : A / (B * 2 ^ k) = Q / 2 ^ k).
  { rewrite <- Z.div_div by lia. reflexivity. }
  rewrite E1, E2. f_equal.
  assert (M1 : (2 * Q + t) mod (2 * 2 ^ k) = t + 2 * (Q mod 2 ^ k)).
  { rewrite Z.rem_mul_r by lia.
    replace ((2 * Q + t) mod 2) with t
      by (apply (Z.mod_unique _ 2 Q t); lia).
    replace ((2 * Q + t) / 2) with Q
      by (apply (Z.div_unique _ 2 Q t); lia).
    reflexivity. }
  assert (M2 : A mod (B * 2 ^ k) = R + B * (Q mod 2 ^ k)).
  { rewrite Z.rem_mul_r by lia. reflexivity. }
  rewrite M1, M2.
  assert (Hq : 0 <= Q mod 2 ^ k < 2 ^ k) by (apply Z.mod_pos_bound; lia).
  unfold t.
  destruct (Z.eqb_spec R 0) as [HR0 | HR0];
    destruct (Z.eqb_spec (Q mod 2 ^ k) 0) as [HQ0 | HQ0].
  - rewrite HR0, HQ0. cbn. rewrite Z.mul_0_r. reflexivity.
  - destruct (Z.eqb_spec (0 + 2 * (Q mod 2 ^ k)) 0); [lia | ].
    destruct (Z.eqb_spec (R + B * (Q mod 2 ^ k)) 0); [nia | reflexivity].
  - destruct (Z.eqb_spec (1 + 2 * (Q mod 2 ^ k)) 0); [lia | ].
    destruct (Z.eqb_spec (R + B * (Q mod 2 ^ k)) 0); [nia | reflexivity].
  - destruct (Z.eqb_spec (1 + 2 * (Q mod 2 ^ k)) 0); [lia | ].
    destruct (Z.eqb_spec (R + B * (Q mod 2 ^ k)) 0); [nia | reflexivity].
Qed.

Lemma sticky_div_mono (A1 B1 A2 B2 : Z) :
  0 <= A1 -> 0 < B1 -> 0 <= A2 -> 0 < B2 ->
  A1 * B2 <= A2 * B1 ->
  sticky_div A1 B1 <= sticky_div A2 B2.
Proof.
  intros HA1 HB1 HA2 HB2 Hle. unfold sticky_div.
  pose proof (Z.div_mod A1 B1 ltac:(lia)) as E1.
  pose proof (Z.div_mod A2 B2 ltac:(lia)) as E2.
  pose proof (Z.mod_pos_bound A1 B1 HB1) as R1.
  pose proof (Z.mod_pos_bound A2 B2 HB2) as R2.
  set (Q1 := A1 / B1) in *. set (Q2 := A2 / B2) in *.
  set (r1 := A1 mod B1) in *. set (r2 := A2 mod B2) in *.
  assert (HQ : Q1 <= Q2).
  { destruct (Z_lt_le_dec Q2 Q1) as [Hlt | ]; [ | assumption]. exfalso.
    assert (B1 * B2 * (Q2 + 1) <= B1 * B2 * Q1) by (apply Z.mul_le_mono_nonneg_l; nia).
    assert (B1 * r2 < B1 * B2) by (apply Z.mul_lt_mono_pos_l; lia).
    assert (0 <= r1 * B2) by nia.
    rewrite E1, E2 in Hle. nia. }
  destruct (Z.eqb_spec r1 0), (Z.eqb_spec r2 0); try lia.
  destruct (Z.eq_dec Q1 Q2) as [EQ | ]; [ | lia]. exfalso.
  assert (0 < r1 * B2) by nia.
  rewrite E1, E2, EQ in Hle. subst r2. nia.
Qed.

Lemma sticky_div_bounds (A B : Z) :
  0 <= A -> 0 < B ->
  2 * (A / B) <= sticky_div A B <= 2 * (A / B) + 1 /\ 0 <= sticky_div A B.
Proof.
  intros HA HB. unfold sticky_div.
  assert (0 <= A / B) by (apply Z.div_pos; lia).
  destruct (A mod B =? 0); lia.
Qed.

Lemma sticky_div_1 (A : Z) : sticky_div A 1 = 2 * A.
Proof. unfold sticky_div. rewrite Z.div_1_r, Z.mod_1_r. cbn. lia. Qed.

Lemma sticky_div_2 (K : Z) : 0 <= K -> sticky_div K 2 = K.
Proof.
  intros HK. unfold sticky_div.
  pose proof (Z.div_mod K 2 ltac:(lia)). pose proof (Z.mod_pos_bound K 2 ltac:(lia)).
  destruct (Z.eqb_spec (K mod 2) 0); lia.
Qed.

(** *** Shift records as integers *)

Lemma fexp32_eq (g : Z) : fexp B32.prec B32.emax g = Z.max (g - 24) (-149).
Proof. reflexivity. Qed.

Lemma key_nonneg (mrs : shr_record) : 0 <= shr_m mrs -> 0 <= key mrs.
Proof. unfold key. destruct (shr_r mrs), (shr_s mrs); lia. Qed.

Lemma key_shr_m (mrs : shr_record) : shr_m mrs = key mrs / 4.
Proof.
  unfold key.
  apply (Z.div_unique _ 4 _ ((if shr_r mrs then 2 else 0) + (if shr_s mrs then 1 else 0)));
    destruct (shr_r mrs), (shr_s mrs); lia.
Qed.

(** One right shift divides the key by 4, keeping what falls off in the
    sticky bit; [k] shifts divide it by [2^(k+1)]. *)
Lemma key_shr_1 (mrs : shr_record) :
  0 <= shr_m mrs ->
  key (shr_1 mrs) = sticky_div (key mrs) 4 /\ 0 <= shr_m (shr_1 mrs).
Proof.
  destruct mrs as [m r s]. cbn [shr_m]. intros Hm.
  unfold sticky_div, key. cbn [shr_m shr_r shr_s shr_1].
  destruct m as [ | [p | p | ] | p]; try lia; cbn [shr_m shr_r shr_s];
    destruct r, s; cbn [orb]; split; try lia;
    match goal with
    | |- _ = 2 * (?K / 4) + (if ?K mod 4 =? 0 then 0 else 1) =>
        let q := fresh "q" in let c := fresh "c" in
        pose proof (Z.div_mod K 4 ltac:(lia));
        pose proof (Z.mod_pos_bound K 4 ltac:(lia));
        destruct (Z.eqb_spec (K mod 4) 0); lia
    end.
Qed.

Lemma key_iter_shr_1 (p : positive) :
  forall mrs : shr_record,
    0 <= shr_m mrs ->
    key (iter_pos shr_1 p mrs) = sticky_div (key mrs) (2 ^ (Zpos p + 1))
    /\ 0 <= shr_m (iter_pos shr_1 p mrs).
Proof.
  induction p as [p IH | p IH | ]; intros mrs Hm; cbn [iter_pos].
  - destruct (key_shr_1 mrs Hm) as [K1 M1].
    destruct (IH _ M1) as [K2 M2]. destruct (IH _ M2) as [K3 M3].
    split; [ | exact M3].
    rewrite K3, K2, K1.
    pose proof (key_nonneg mrs Hm) as HK. set (K := key mrs) in *.
    assert (HP : 0 < 2 ^ Zpos p) by (apply Z.pow_pos_nonneg; lia).
    change 4 with (2 ^ (1 + 1)).
    rewrite (sticky_div_compose K (2 ^ (1 + 1)) (Zpos p)) by lia.
    rewrite (sticky_div_compose K (2 ^ (1 + 1) * 2 ^ Zpos p) (Zpos p)) by lia.
    f_equal. rewrite <- !Z.pow_add_r by lia. f_equal. lia.
  - destruct (IH _ Hm) as [K2 M2]. destruct (IH _ M2) as [K3 M3].
    split; [ | exact M3].
    rewrite K3, K2.
    pose proof (key_nonneg mrs Hm) as HK. set (K := key mrs) in *.
    assert (HP : 0 < 2 ^ (Zpos p + 1)) by (apply Z.pow_pos_nonneg; lia).
    rewrite (sticky_div_compose K (2 ^ (Zpos p + 1)) (Zpos p)) by lia.
    f_equal. rewrite <- !Z.pow_add_r by lia. f_equal. lia.
  - apply (key_shr_1 mrs Hm).
Qed.

Lemma key_shr (mrs : shr_record) (e n : Z) :
  0 <= shr_m mrs -> 0 <= n ->
  key (fst (shr mrs e n)) = sticky_div (key mrs) (2 ^ (n + 1))
  /\ 0 <= shr_m (fst (shr mrs e n))
  /\ snd (shr mrs e n) = e + n.
Proof.
  intros Hm Hn. destruct n as [ | p | p]; try lia; cbn [shr fst snd].
  - change (2 ^ (0 + 1)) with 2. rewrite sticky_div_2 by now apply key_nonneg.
    repeat split; [exact Hm | lia].
  - destruct (key_iter_shr_1 p mrs Hm) as [K M]. repeat split; assumption.
Qed.

Lemma key_of_loc (m : Z) (l : location) :
  key (shr_record_of_loc m l) = 4 * m + loc_code l
  /\ shr_m (shr_record_of_loc m l) = m.
Proof.
  destruct l as [ | [ | | ]]; unfold key;
    cbn [shr_record_of_loc shr_m shr_r shr_s loc_code]; split; lia.
Qed.

Lemma loc_code_bounds (l : location) : 0 <= loc_code l <= 3.
Proof. destruct l as [ | [ | | ]]; cbn; lia. Qed.

(** [round_nearest_even] is [rne_key] of the key. *)
Lemma rne_key_spec (mrs : shr_record) :
  0 <= shr_m mrs ->
  round_nearest_even (shr_m mrs) (loc_of_shr_record mrs) = rne_key (key mrs).
Proof.
  intros Hm. unfold rne_key. rewrite <- key_shr_m.
  destruct mrs as [m r s]. cbn [shr_m] in *. unfold key. cbn [shr_m shr_r shr_s].
  pose proof (Z.mod_pos_bound m 2 ltac:(lia)) as Hb.
  destruct r, s; cbn [loc_of_shr_record round_nearest_even].
  - apply (Z.div_unique _ 4 _ (m mod 2)); lia.
  - destruct (Z.even m) eqn:Ev.
    + apply Z.even_spec in Ev. destruct Ev as [h ->].
      rewrite Z.mul_comm, Z.mod_mul by lia.
      apply (Z.div_unique _ 4 _ 3); lia.
    + assert (Od : Z.odd m = true) by (rewrite <- Z.negb_even, Ev; reflexivity).
      apply Z.odd_spec in Od. destruct Od as [h ->].
      replace ((2 * h + 1) mod 2) with 1
        by (apply (Z.mod_unique _ 2 h 1); lia).
      apply (Z.div_unique _ 4 _ 0); lia.
  - apply (Z.div_unique _ 4 _ (2 + m mod 2)); lia.
  - apply (Z.div_unique _ 4 _ (1 + m mod 2)); lia.
Qed.

Lemma rne_key_bounds (K : Z) :
  0 <= K -> K / 4 <= rne_key K <= K / 4 + 1
            /\ (K mod 4 = 0 -> rne_key K = K / 4).
Proof.
  intros HK. unfold rne_key.
  pose proof (Z.div_mod K 4 ltac:(lia)) as E.
  pose proof (Z.mod_pos_bound K 4 ltac:(lia)) as R.
  pose proof (Z.mod_pos_bound (K / 4) 2 ltac:(lia)) as B.
  set (q := K / 4) in *. set (c := K mod 4) in *. set (b := q mod 2) in *.
  assert (Hdiv : forall x y, 0 <= y < 4 -> (4 * x + y) / 4 = x).
  { intros x y Hy. symmetry. apply (Z.div_unique _ 4 _ y); lia. }
  split.
  - split.
    + apply Z.div_le_lower_bound; lia.
    + assert ((K + 1 + b) / 4 < q + 2) by (apply Z.div_lt_upper_bound; lia). lia.
  - intros Hc. rewrite E, Hc. replace (4 * q + 0 + 1 + b) with (4 * q + (1 + b)) by lia.
    apply Hdiv. lia.
Qed.

Lemma rne_key_mono (K1 K2 : Z) : 0 <= K1 <= K2 -> rne_key K1 <= rne_key K2.
Proof.
  intros [H0 Hle].
  destruct (Z.eq_dec (K1 / 4) (K2 / 4)) as [E | NE].
  - unfold rne_key. rewrite E. apply Z.div_le_mono; lia.
  - assert (K1 / 4 <= K2 / 4) by (apply Z.div_le_mono; lia).
    destruct (rne_key_bounds K1 H0) as [[_ Hu] _].
    destruct (rne_key_bounds K2 ltac:(lia)) as [[Hl _] _]. lia.
Qed.

(** *** [binary_round_aux] in closed form *)

(** The first shift leaves a mantissa of at most 24 bits, so rounding gives
    at most 2^24. *)
Lemma rne_after_shift_bound (m c k : Z) :
  0 <= m -> 0 <= c <= 3 -> 0 <= k -> Zdigits2 m - 24 <= k ->
  0 <= rne_key (sticky_div (4 * m + c) (2 ^ (k + 1))) <= 2 ^ 24.
Proof.
  intros Hm Hc Hk Hd.
  assert (HP : 0 < 2 ^ (k + 1)) by (apply Z.pow_pos_nonneg; lia).
  destruct (sticky_div_bounds (4 * m + c) (2 ^ (k + 1)) ltac:(lia) HP) as [[Hl Hu] H0].
  set (K := sticky_div (4 * m + c) (2 ^ (k + 1))) in *.
  destruct (rne_key_bounds K H0) as [[Rl Ru] _].
  assert (Hm' : m < 2 ^ (k + 24)).
  { destruct (Z.eq_dec m 0) as [-> | Hne]; [apply Z.pow_pos_nonneg; lia | ].
    destruct (Zdigits2_bounds m ltac:(lia)) as (Hp & _ & Hhi).
    assert (2 ^ Zdigits2 m <= 2 ^ (k + 24)) by (apply Z.pow_le_mono_r; lia). lia. }
  assert (Hq : (4 * m + c) / 2 ^ (k + 1) < 2 ^ 25).
  { apply Z.div_lt_upper_bound; [lia | ].
    rewrite <- Z.pow_add_r by lia.
    replace (k + 1 + 25) with ((k + 24) + 2) by lia.
    rewrite Z.pow_add_r by lia. change (2 ^ 2) with 4. lia. }
  assert (0 <= K / 4) by (apply Z.div_pos; lia).
  assert (K / 4 < 2 ^ 24).
  { apply Z.div_lt_upper_bound; [lia | ]. change (2 ^ 25) with 33554432 in Hq.
    change (2 ^ 24) with 16777216. lia. }
  lia.
Qed.

(** [binary_round_aux] in the regime: one shift by [k] bits, a rounding to
    nearest even, and the overflow test. *)
Lemma bra_spec (sx : bool) (m e : Z) (l : location) :
  0 <= m ->
  let k := fexp B32.prec B32.emax (Zdigits2 m + e) - e in
  0 <= k ->
  binary_round_aux B32.prec B32.emax sx m e l
  = finish sx (rne_key (sticky_div (4 * m + loc_code l) (2 ^ (k + 1)))) (e + k).
Proof.
  intros Hm k Hk.
  unfold binary_round_aux, shr_fexp. fold k.
  destruct (key_of_loc m l) as [HK0 HM0].
  assert (Hm0 : 0 <= shr_m (shr_record_of_loc m l)) by now rewrite HM0.
  destruct (key_shr (shr_record_of_loc m l) e k Hm0 Hk) as (HK1 & HM1 & HE1).
  destruct (shr (shr_record_of_loc m l) e k) as [mrs' e'].
  cbn [fst snd] in HK1, HM1, HE1. subst e'.
  rewrite (rne_key_spec mrs' HM1), HK1, HK0.
  assert (Hkd : Zdigits2 m - 24 <= k).
  { unfold k. rewrite fexp32_eq. lia. }
  pose proof (rne_after_shift_bound m (loc_code l) k Hm (loc_code_bounds l) Hk Hkd) as Hr.
  set (r := rne_key (sticky_div (4 * m + loc_code l) (2 ^ (k + 1)))) in *.
  assert (HE : -149 <= e + k).
  { unfold k. rewrite fexp32_eq. lia. }
  set (E := e + k) in *.
  destruct (Z.eq_dec r (2 ^ 24)) as [Hfull | Hnot].
  - (* the mantissa overflowed to 2^24: one more shift *)
    rewrite Hfull. change (Zdigits2 (2 ^ 24)) with 25.
    rewrite fexp32_eq.
    replace (Z.max (25 + E - 24) (-149) - E) with 1 by lia.
    cbn [shr_record_of_loc shr iter_pos shr_1 shr_m]. cbn. reflexivity.
  - assert (Hr' : r < 2 ^ 24) by lia.
    assert (Hd : Zdigits2 r <= 24) by (apply Zdigits2_lt_pow; lia).
    assert (Hn : fexp B32.prec B32.emax (Zdigits2 r + E) - E <= 0).
    { rewrite fexp32_eq. lia. }
    assert (Hshr : shr (shr_record_of_loc r loc_Exact) E
                     (fexp B32.prec B32.emax (Zdigits2 r + E) - E)
                   = (shr_record_of_loc r loc_Exact, E)).
    { destruct (fexp B32.prec B32.emax (Zdigits2 r + E) - E); try lia; reflexivity. }
    rewrite Hshr. cbn [shr_record_of_loc shr_m].
    unfold finish. destruct r as [ | p | p]; try lia; [reflexivity | ].
    destruct (Z.ltb_spec (Zpos p) (2 ^ 24)); [ | lia].
    reflexivity.
Qed.

(** *** [binary_round_aux] is monotone *)

Lemma located_floor (N D m : Z) (l : location) :
  located N D m l -> 0 <= m /\ m * D <= N < (m + 1) * D.
Proof.
  intros (HN & HD & HK). unfold sticky_div in HK.
  pose proof (loc_code_bounds l) as Hc.
  pose proof (Z.div_mod (2 * N) D ltac:(lia)) as E.
  pose proof (Z.mod_pos_bound (2 * N) D HD) as R.
  assert (0 <= 2 * N / D) by (apply Z.div_pos; lia).
  set (q := 2 * N / D) in *. set (r := (2 * N) mod D) in *.
  destruct (Z.eqb_spec r 0); nia.
Qed.

Lemma located_exact (m : Z) : 0 <= m -> located m 1 m loc_Exact.
Proof.
  intros Hm. unfold located. rewrite sticky_div_1. cbn [loc_code]. lia.
Qed.

Lemma SFleb_zero_finish (r E : Z) :
  0 <= r -> SFleb (S754_zero false) (finish false r E) = true.
Proof.
  intros Hr. unfold finish. destruct r as [ | p | p]; try lia; [reflexivity | ].
  destruct (Zpos p <? 2 ^ 24); [destruct (E <=? 104) | destruct (E + 1 <=? 104)];
    reflexivity.
Qed.

Lemma SFleb_finite_pos (m1 m2 : positive) (e1 e2 : Z) :
  e1 < e2 \/ (e1 = e2 /\ (m1 <= m2)%positive) ->
  SFleb (S754_finite false m1 e1) (S754_finite false m2 e2) = true.
Proof.
  unfold SFleb, SFcompare. intros [Hlt | [-> Hle]].
  - apply Z.compare_lt_iff in Hlt. now rewrite Hlt.
  - rewrite Z.compare_refl.
    change (Pos.compare_cont Eq m1 m2) with (Pos.compare m1 m2).
    destruct (Pos.compare_spec m1 m2); try reflexivity. lia.
Qed.

Lemma finish_le_same_E (r1 r2 E : Z) :
  0 <= r1 <= r2 -> r2 <= 2 ^ 24 ->
  SFleb (finish false r1 E) (finish false r2 E) = true.
Proof.
  intros [H0 Hle] Hu.
  destruct (Z.eq_dec r1 0) as [-> | Hne]; [apply SFleb_zero_finish; lia | ].
  unfold finish.
  destruct r1 as [ | p1 | p1]; try lia. destruct r2 as [ | p2 | p2]; try lia.
  destruct (Z.ltb_spec (Zpos p1) (2 ^ 24)), (Z.ltb_spec (Zpos p2) (2 ^ 24)); try lia.
  - destruct (Z.leb_spec E 104); [ | reflexivity].
    apply SFleb_finite_pos. right. split; [reflexivity | lia].
  - destruct (Z.leb_spec E 104), (Z.leb_spec (E + 1) 104); try lia; try reflexivity.
    apply SFleb_finite_pos. left. lia.
  - destruct (Z.leb_spec (E + 1) 104); [ | reflexivity].
    apply SFleb_finite_pos. right. split; [reflexivity | lia].
Qed.

Lemma finish_le_lower_E (r1 r2 E1 E2 : Z) :
  E1 < E2 -> 0 <= r1 <= 2 ^ 24 -> 2 ^ 23 <= r2 <= 2 ^ 24 ->
  SFleb (finish false r1 E1) (finish false r2 E2) = true.
Proof.
  intros HE [H0 H1] [L2 U2].
  destruct (Z.eq_dec r1 0) as [-> | Hne]; [apply SFleb_zero_finish; lia | ].
  change (2 ^ 23) with 8388608 in *. change (2 ^ 24) with 16777216 in *.
  unfold finish. change (2 ^ 24) with 16777216.
  destruct r1 as [ | p1 | p1]; try lia. destruct r2 as [ | p2 | p2]; try lia.
  destruct (Z.ltb_spec (Zpos p1) 16777216), (Z.ltb_spec (Zpos p2) 16777216);
    destruct (Z.leb_spec E1 104), (Z.leb_spec E2 104),
      (Z.leb_spec (E1 + 1) 104), (Z.leb_spec (E2 + 1) 104);
    try lia; try reflexivity;
    apply SFleb_finite_pos;
    solve [left; lia | right; split; lia | destruct (Z.eq_dec (E1 + 1) E2); [right; split; lia | left; lia]].
Qed.

Lemma shifted_mantissa_normal (m c k : Z) :
  0 <= m -> 0 <= c <= 3 -> 0 <= k -> Zdigits2 m = 24 + k ->
  2 ^ 23 <= rne_key (sticky_div (4 * m + c) (2 ^ (k + 1))).
Proof.
  intros Hm0 Hc Hk Hd.
  assert (Hm : 0 < m).
  { destruct m as [ | p | p]; cbn [Zdigits2] in Hd; lia. }
  destruct (Zdigits2_bounds m Hm) as (_ & Hlo & _).
  rewrite Hd in Hlo. replace (24 + k - 1) with (k + 23) in Hlo by lia.
  assert (HP : 0 < 2 ^ (k + 1)) by (apply Z.pow_pos_nonneg; lia).
  destruct (sticky_div_bounds (4 * m + c) (2 ^ (k + 1)) ltac:(lia) HP) as [[Hl Hu] H0].
  set (K := sticky_div (4 * m + c) (2 ^ (k + 1))) in *.
  destruct (rne_key_bounds K H0) as [[Rl Ru] _].
  assert (Hq : 2 ^ 24 <= (4 * m + c) / 2 ^ (k + 1)).
  { apply Z.div_le_lower_bound; [lia | ].
    rewrite <- Z.pow_add_r by lia.
    replace (k + 1 + 24) with ((k + 23) + 2) by lia.
    rewrite Z.pow_add_r by lia. change (2 ^ 2) with 4. lia. }
  assert (2 ^ 23 <= K / 4).
  { apply Z.div_le_lower_bound; [lia | ].
    change (2 ^ 24) with 16777216 in Hq. change (2 ^ 23) with 8388608. lia. }
  lia.
Qed.

(** Rounding is monotone: of two located values in the right order, the
    first does not round above the second. *)
Lemma bra_mono (N1 D1 m1 e1 N2 D2 m2 e2 c : Z) (l1 l2 : location) :
  located N1 D1 m1 l1 -> located N2 D2 m2 l2 ->
  regime m1 e1 -> regime m2 e2 ->
  c <= e1 -> c <= e2 ->
  N1 * 2 ^ (e1 - c) * D2 <= N2 * 2 ^ (e2 - c) * D1 ->
  SFleb (binary_round_aux B32.prec B32.emax false m1 e1 l1)
        (binary_round_aux B32.prec B32.emax false m2 e2 l2) = true.
Proof.
  intros L1 L2 R1 R2 Hc1 Hc2 Hval. unfold regime in R1, R2.
  destruct (located_floor _ _ _ _ L1) as (Hm1 & Hf1l & Hf1u).
  destruct (located_floor _ _ _ _ L2) as (Hm2 & Hf2l & Hf2u).
  rewrite (bra_spec false m1 e1 l1 Hm1 R1), (bra_spec false m2 e2 l2 Hm2 R2).
  destruct L1 as (HN1 & HD1 & HK1). destruct L2 as (HN2 & HD2 & HK2).
  set (k1 := fexp B32.prec B32.emax (Zdigits2 m1 + e1) - e1) in *.
  set (k2 := fexp B32.prec B32.emax (Zdigits2 m2 + e2) - e2) in *.
  assert (Hk1 : k1 = Z.max (Zdigits2 m1 + e1 - 24) (-149) - e1)
    by (unfold k1; now rewrite fexp32_eq).
  assert (Hk2 : k2 = Z.max (Zdigits2 m2 + e2 - 24) (-149) - e2)
    by (unfold k2; now rewrite fexp32_eq).
  pose proof (loc_code_bounds l1) as Hc1'. pose proof (loc_code_bounds l2) as Hc2'.
  pose proof (rne_after_shift_bound m1 (loc_code l1) k1 Hm1 Hc1' R1 ltac:(lia)) as B1.
  pose proof (rne_after_shift_bound m2 (loc_code l2) k2 Hm2 Hc2' R2 ltac:(lia)) as B2.
  set (a := e1 - c) in *. set (b := e2 - c) in *.
  assert (Ha : 0 <= a) by lia. assert (Hb : 0 <= b) by lia.
  assert (HPa : 0 < 2 ^ a) by (apply Z.pow_pos_nonneg; lia).
  assert (HPb : 0 < 2 ^ b) by (apply Z.pow_pos_nonneg; lia).
  destruct (Z.lt_trichotomy (e1 + k1) (e2 + k2)) as [Hlt | [Heq | Hgt]].
  - (* the first value lies in a lower binade *)
    apply finish_le_lower_E; [exact Hlt | exact B1 | ].
    split; [ | apply B2].
    apply shifted_mantissa_normal; lia.
  - (* same exponent: compare the keys *)
    rewrite Heq. apply finish_le_same_E; [ | apply B2].
    split; [apply B1 | ].
    apply rne_key_mono.
    assert (HP1 : 0 < 2 ^ k1) by (apply Z.pow_pos_nonneg; lia).
    assert (HP2 : 0 < 2 ^ k2) by (apply Z.pow_pos_nonneg; lia).
    rewrite HK1, HK2.
    rewrite (sticky_div_compose (2 * N1) D1 k1) by lia.
    rewrite (sticky_div_compose (2 * N2) D2 k2) by lia.
    split.
    + apply sticky_div_bounds; nia.
    + apply sticky_div_mono; try nia.
      assert (HT : 2 ^ a * 2 ^ k1 = 2 ^ b * 2 ^ k2).
      { rewrite <- !Z.pow_add_r by lia. f_equal. lia. }
      set (Pa := 2 ^ a) in *. set (Pb := 2 ^ b) in *.
      set (P1 := 2 ^ k1) in *. set (P2 := 2 ^ k2) in *.
      set (X := N1 * D2). set (Y := N2 * D1).
      assert (HXY : X * Pa <= Y * Pb) by (unfold X, Y; nia).
      assert (HX : 0 <= X) by (unfold X; nia).
      assert (HY : 0 <= Y) by (unfold Y; nia).
      assert (Hgoal : X * P2 <= Y * P1).
      { apply (Z.mul_le_mono_pos_r _ _ (Pa * P1)); [nia | ].
        replace (X * P2 * (Pa * P1)) with ((X * Pa) * (P1 * P2)) by ring.
        replace (Y * P1 * (Pa * P1)) with ((Y * Pb) * (P1 * P2))
          by (rewrite HT; ring).
        apply Z.mul_le_mono_nonneg_r; nia. }
      unfold X, Y in Hgoal. nia.
  - (* impossible: the first value would be the larger one *)
    exfalso.
    assert (Hm1' : 0 < m1).
    { destruct (Z.eq_dec m1 0) as [E0 | ]; [ | lia].
      rewrite E0 in Hk1. cbn [Zdigits2] in Hk1. lia. }
    destruct (Zdigits2_bounds m1 Hm1') as (Hd1 & Hlo1 & _).
    assert (Hhi2 : m2 + 1 <= 2 ^ Zdigits2 m2).
    { destruct (Z.eq_dec m2 0) as [-> | ]; [cbn; lia | ].
      destruct (Zdigits2_bounds m2 ltac:(lia)) as (_ & _ & ?). lia. }
    pose proof (Zdigits2_nonneg m2) as Hd2.
    assert (Hg : Zdigits2 m2 + e2 < Zdigits2 m1 + e1) by lia.
    assert (Hpow : 2 ^ (Zdigits2 m2 + b) <= 2 ^ (Zdigits2 m1 - 1 + a))
      by (apply Z.pow_le_mono_r; lia).
    rewrite !Z.pow_add_r in Hpow by lia.
    set (Pa := 2 ^ a) in *. set (Pb := 2 ^ b) in *.
    set (Q1 := 2 ^ (Zdigits2 m1 - 1)) in *. set (Q2 := 2 ^ Zdigits2 m2) in *.
    assert (0 < Q1) by (apply Z.pow_pos_nonneg; lia).
    assert (0 < Q2) by (apply Z.pow_pos_nonneg; lia).
    (* N1 >= Q1 D1 and N2 < Q2 D2 *)
    assert (HA : Q1 * D1 <= N1) by nia.
    assert (HB : N2 < Q2 * D2) by nia.
    assert (Q1 * D1 * Pa * D2 <= N1 * Pa * D2).
    { apply Z.mul_le_mono_nonneg_r; [lia | ].
      apply Z.mul_le_mono_nonneg_r; lia. }
    assert (N2 * Pb * D1 < Q2 * D2 * Pb * D1).
    { apply Z.mul_lt_mono_pos_r; [lia | ].
      apply Z.mul_lt_mono_pos_r; lia. }
    assert (Q2 * Pb * (D1 * D2) <= Q1 * Pa * (D1 * D2)).
    { apply Z.mul_le_mono_nonneg_r; nia. }
    nia.
Qed.

(** *** Shapes, validity and canonical numbers *)

Lemma finish_shape (sx : bool) (r E : Z) :
  0 <= r ->
  finish sx r E = S754_zero sx
  \/ (exists m e, finish sx r E = S754_finite sx m e)
  \/ finish sx r E = S754_infinity sx.
Proof.
  intros Hr. unfold finish. destruct r as [ | p | p]; try lia; [now left | ].
  destruct (Zpos p <? 2 ^ 24); [destruct (E <=? 104) | destruct (E + 1 <=? 104)];
    eauto.
Qed.

Lemma finish_opp (sx : bool) (r E : Z) :
  0 <= r -> finish (negb sx) r E = SFopp (finish sx r E).
Proof.
  intros Hr. unfold finish. destruct r as [ | p | p]; try lia; [reflexivity | ].
  destruct (Zpos p <? 2 ^ 24); [destruct (E <=? 104) | destruct (E + 1 <=? 104)];
    reflexivity.
Qed.

Lemma bra_opp (sx : bool) (m e : Z) (l : location) :
  0 <= m -> regime m e ->
  binary_round_aux B32.prec B32.emax (negb sx) m e l
  = SFopp (binary_round_aux B32.prec B32.emax sx m e l).
Proof.
  intros Hm Hr. rewrite !bra_spec by assumption.
  apply finish_opp.
  apply rne_after_shift_bound; try assumption; try apply loc_code_bounds.
  unfold regime in Hr. rewrite fexp32_eq in *. lia.
Qed.

Lemma bra_shape (sx : bool) (m e : Z) (l : location) :
  0 <= m -> regime m e ->
  let x := binary_round_aux B32.prec B32.emax sx m e l in
  x = S754_zero sx \/ (exists m' e', x = S754_finite sx m' e') \/ x = S754_infinity sx.
Proof.
  intros Hm Hr. cbv zeta. rewrite bra_spec by assumption.
  apply finish_shape.
  apply rne_after_shift_bound; try assumption; try apply loc_code_bounds.
  unfold regime in Hr. rewrite fexp32_eq in *. lia.
Qed.

Lemma bra_valid (sx : bool) (m e : Z) (l : location) :
  0 <= m -> regime m e ->
  valid32 (binary_round_aux B32.prec B32.emax sx m e l) = true.
Proof.
  intros Hm Hr. rewrite bra_spec by assumption.
  unfold regime in Hr.
  set (k := fexp B32.prec B32.emax (Zdigits2 m + e) - e) in *.
  assert (Hk : k = Z.max (Zdigits2 m + e - 24) (-149) - e)
    by (unfold k; now rewrite fexp32_eq).
  pose proof (loc_code_bounds l) as Hc.
  pose proof (rne_after_shift_bound m (loc_code l) k Hm Hc Hr ltac:(lia)) as B.
  set (r := rne_key _) in *.
  unfold finish. destruct r as [ | p | p] eqn:Er; try lia; [reflexivity | ].
  destruct (Z.ltb_spec (Zpos p) (2 ^ 24)) as [Hlt | Hge].
  - destruct (Z.leb_spec (e + k) 104) as [HE | HE]; [ | reflexivity].
    unfold valid32, valid_binary, bounded, canonical_mantissa.
    apply andb_true_intro. split; [ | apply Z.leb_le; exact HE].
    apply Z.eqb_eq. rewrite fexp32_eq.
    assert (Hd : Zdigits2 (Zpos p) <= 24) by (apply Zdigits2_lt_pow; lia).
    change (Zpos (digits2_pos p)) with (Zdigits2 (Zpos p)).
    destruct (Z_le_gt_dec (Zdigits2 m + e - 24) (-149)) as [Hsub | Hnorm]; [lia | ].
    assert (Hn : 2 ^ 23 <= rne_key (sticky_div (4 * m + loc_code l) (2 ^ (k + 1)))).
    { apply shifted_mantissa_normal; lia. }
    fold r in Hn. rewrite Er in Hn.
    pose proof (Zdigits2_ge_pow (Zpos p) 23 ltac:(lia) Hn). lia.
  - destruct (Z.leb_spec (e + k + 1) 104) as [HE | HE]; [ | reflexivity].
    unfold valid32, valid_binary, bounded, canonical_mantissa.
    apply andb_true_intro. split; [ | apply Z.leb_le; exact HE].
    apply Z.eqb_eq. rewrite fexp32_eq. cbn [digits2_pos Pos.succ]. lia.
Qed.

(** Rounding a canonical number gives it back. *)
Lemma bra_canonical (s : bool) (m : positive) (e : Z) :
  valid32 (S754_finite s m e) = true ->
  binary_round_aux B32.prec B32.emax s (Zpos m) e loc_Exact = S754_finite s m e
  /\ regime (Zpos m) e.
Proof.
  unfold valid32, valid_binary, bounded, canonical_mantissa. intros Hv.
  apply andb_prop in Hv. destruct Hv as [Hc Hb].
  apply Z.eqb_eq in Hc. apply Z.leb_le in Hb.
  change (B32.emax - B32.prec) with 104 in Hb.
  change (Zpos (digits2_pos m)) with (Zdigits2 (Zpos m)) in Hc.
  assert (Hr : regime (Zpos m) e) by (unfold regime; lia).
  split; [ | exact Hr].
  rewrite bra_spec by (try exact Hr; lia).
  rewrite Hc. replace (e - e) with 0 by lia. change (2 ^ (0 + 1)) with 2.
  cbn [loc_code]. rewrite sticky_div_2 by lia.
  destruct (rne_key_bounds (4 * Zpos m + 0) ltac:(lia)) as [_ Hex].
  rewrite Hex by (rewrite Z.add_0_r, Z.mul_comm; apply Z.mod_mul; lia).
  replace ((4 * Zpos m + 0) / 4) with (Zpos m)
    by (apply (Z.div_unique _ 4 _ 0); lia).
  replace (e + 0) with e by lia.
  unfold finish.
  rewrite fexp32_eq in Hc.
  assert (Hd : Zdigits2 (Zpos m) <= 24) by lia.
  destruct (Zdigits2_bounds (Zpos m) ltac:(lia)) as (_ & _ & Hhi).
  assert (2 ^ Zdigits2 (Zpos m) <= 2 ^ 24) by (apply Z.pow_le_mono_r; lia).
  destruct (Z.ltb_spec (Zpos m) (2 ^ 24)); [ | lia].
  destruct (Z.leb_spec e 104); [reflexivity | lia].
Qed.

Lemma pos_iter_xO (d : positive) (m : positive) :
  Zpos (Pos.iter xO m d) = Zpos m * 2 ^ Zpos d.
Proof.
  revert m. induction d as [ | d IH] using Pos.peano_ind; intros m.
  - cbn. lia.
  - rewrite Pos.iter_succ, Pos2Z.inj_succ, Z.pow_succ_r by lia.
    rewrite Pos2Z.inj_xO, IH. ring.
Qed.

Lemma Zdigits2_shift (m d : Z) :
  0 < m -> 0 <= d -> Zdigits2 (m * 2 ^ d) = Zdigits2 m + d.
Proof.
  intros Hm Hd. destruct (Zdigits2_bounds m Hm) as (Hp & Hlo & Hhi).
  assert (HP : 0 < 2 ^ d) by (apply Z.pow_pos_nonneg; lia).
  apply Zdigits2_unique; [ | lia].
  replace (Zdigits2 m + d - 1) with ((Zdigits2 m - 1) + d) by lia.
  rewrite !Z.pow_add_r by lia. split; nia.
Qed.

(** [binary_round] aligns its argument and rounds it in the regime. *)
Lemma binary_round_spec (sx : bool) (mx : positive) (ex : Z) :
  exists (mz ez : Z),
    binary_round B32.prec B32.emax sx mx ex
    = binary_round_aux B32.prec B32.emax sx mz ez loc_Exact
    /\ 0 < mz /\ regime mz ez /\ ez <= ex
    /\ mz = Zpos mx * 2 ^ (ex - ez).
Proof.
  unfold binary_round, shl_align.
  set (E := fexp B32.prec B32.emax (Zpos (digits2_pos mx) + ex)).
  destruct (E - ex) as [ | d | d] eqn:Hd.
  - exists (Zpos mx), ex. split; [reflexivity | ].
    split; [lia | ]. split; [ | split; [lia | ]].
    + unfold regime. change (Zdigits2 (Zpos mx)) with (Zpos (digits2_pos mx)).
      fold E. lia.
    + replace (ex - ex) with 0 by lia. cbn. lia.
  - exists (Zpos mx), ex. split; [reflexivity | ].
    split; [lia | ]. split; [ | split; [lia | ]].
    + unfold regime. change (Zdigits2 (Zpos mx)) with (Zpos (digits2_pos mx)).
      fold E. lia.
    + replace (ex - ex) with 0 by lia. cbn. lia.
  - exists (Zpos (Pos.iter xO mx d)), E. split; [reflexivity | ].
    assert (Hex : ex - E = Zpos d) by lia.
    rewrite pos_iter_xO, Hex.
    assert (HP : 0 < 2 ^ Zpos d) by (apply Z.pow_pos_nonneg; lia).
    split; [nia | ]. split; [ | split; [lia | reflexivity]].
    unfold regime. rewrite Zdigits2_shift by lia.
    change (Zdigits2 (Zpos mx)) with (Zpos (digits2_pos mx)).
    replace (Zpos (digits2_pos mx) + Zpos d + E) with (Zpos (digits2_pos mx) + ex) by lia.
    fold E. lia.
Qed.

(** *** Rounding of signed integers *)

Lemma SFcompare_opp (u v : spec_float) :
  SFcompare (SFopp u) (SFopp v) = SFcompare v u.
Proof.
  destruct u as [su | su | | su mu eu], v as [sv | sv | | sv mv ev]; cbn;
    try reflexivity;
    try (destruct su; reflexivity); try (destruct sv; reflexivity);
    try (destruct su, sv; reflexivity).
  destruct su, sv; cbn; try reflexivity;
    rewrite (Z.compare_antisym eu ev); destruct (eu ?= ev); cbn; try reflexivity;
    change (Pos.compare_cont Eq mu mv) with (Pos.compare mu mv);
    change (Pos.compare_cont Eq mv mu) with (Pos.compare mv mu);
    rewrite (Pos.compare_antisym mu mv); try rewrite CompOpp_involutive; reflexivity.
Qed.

Lemma SFleb_opp (u v : spec_float) : SFleb (SFopp u) (SFopp v) = SFleb v u.
Proof. unfold SFleb. now rewrite SFcompare_opp. Qed.

Lemma SFleb_nonpos_nonneg (x y : spec_float) :
  nonpos_shape x = true -> nonneg_shape y = true -> SFleb x y = true.
Proof.
  destruct x as [sx | sx | | sx mx ex], y as [sy | sy | | sy my ey]; cbn;
    intros Hx Hy; try discriminate; subst; try reflexivity;
    try (destruct sy; try discriminate; reflexivity);
    try (destruct sx; try discriminate; reflexivity);
    try (destruct sx, sy; try discriminate; reflexivity).
Qed.

Lemma bra_false_nonneg (m e : Z) (l : location) :
  0 <= m -> regime m e ->
  nonneg_shape (binary_round_aux B32.prec B32.emax false m e l) = true.
Proof.
  intros Hm Hr.
  destruct (bra_shape false m e l Hm Hr) as [E | [(m' & e' & E) | E]];
    rewrite E; reflexivity.
Qed.

Lemma bra_true_nonpos (m e : Z) (l : location) :
  0 <= m -> regime m e ->
  nonpos_shape (binary_round_aux B32.prec B32.emax true m e l) = true.
Proof.
  intros Hm Hr.
  destruct (bra_shape true m e l Hm Hr) as [E | [(m' & e' & E) | E]];
    rewrite E; reflexivity.
Qed.

(** Rounding of signed integers is monotone. *)
Lemma sbra_mono (M1 e1 M2 e2 c : Z) :
  (M1 <> 0 -> regime (Z.abs M1) e1 /\ c <= e1) ->
  (M2 <> 0 -> regime (Z.abs M2) e2 /\ c <= e2) ->
  M1 * 2 ^ (e1 - c) <= M2 * 2 ^ (e2 - c) ->
  SFleb (sbra M1 e1) (sbra M2 e2) = true.
Proof.
  intros H1 H2 Hval.
  destruct M1 as [ | p1 | p1], M2 as [ | p2 | p2]; cbn [sbra].
  - reflexivity.
  - destruct H2 as [R2 _]; [lia | ].
    apply SFleb_nonpos_nonneg; [reflexivity | ].
    apply bra_false_nonneg; [lia | exact R2].
  - exfalso. destruct H2 as [R2 C2]; [lia | ].
    assert (0 < 2 ^ (e2 - c)) by (apply Z.pow_pos_nonneg; lia). nia.
  - exfalso. destruct H1 as [R1 C1]; [lia | ].
    assert (0 < 2 ^ (e1 - c)) by (apply Z.pow_pos_nonneg; lia). nia.
  - destruct H1 as [R1 C1]; [lia | ]. destruct H2 as [R2 C2]; [lia | ].
    apply (bra_mono (Zpos p1) 1 (Zpos p1) e1 (Zpos p2) 1 (Zpos p2) e2 c);
      try assumption; try (apply located_exact; lia). lia.
  - exfalso. destruct H1 as [R1 C1]; [lia | ]. destruct H2 as [R2 C2]; [lia | ].
    assert (0 < 2 ^ (e1 - c)) by (apply Z.pow_pos_nonneg; lia).
    assert (0 < 2 ^ (e2 - c)) by (apply Z.pow_pos_nonneg; lia). nia.
  - destruct H1 as [R1 _]; [lia | ].
    apply SFleb_nonpos_nonneg; [ | reflexivity].
    apply bra_true_nonpos; [lia | exact R1].
  - destruct H1 as [R1 _]; [lia | ]. destruct H2 as [R2 _]; [lia | ].
    apply SFleb_nonpos_nonneg;
      [apply bra_true_nonpos | apply bra_false_nonneg]; (lia || assumption).
  - destruct H1 as [R1 C1]; [lia | ]. destruct H2 as [R2 C2]; [lia | ].
    cbn [Z.abs] in R1, R2.
    change true with (negb false).
    rewrite !bra_opp by (lia || assumption).
    rewrite SFleb_opp.
    apply (bra_mono (Zpos p2) 1 (Zpos p2) e2 (Zpos p1) 1 (Zpos p1) e1 c);
      try assumption; try (apply located_exact; lia). lia.
Qed.

Lemma binary_normalize_sbra (M e : Z) :
  exists M' e',
    binary_normalize B32.prec B32.emax M e false = sbra M' e'
    /\ (M' <> 0 -> regime (Z.abs M') e') /\ e' <= e
    /\ M' = M * 2 ^ (e - e').
Proof.
  destruct M as [ | p | p]; cbn [binary_normalize].
  - exists 0, e. split; [reflexivity | ]. split; [intros H; now elim H | ].
    split; lia.
  - destruct (binary_round_spec false p e) as (mz & ez & E & Hpos & Hr & Hle & Hv).
    exists mz, ez. rewrite E. destruct mz as [ | q | q]; try lia.
    split; [reflexivity | ]. split; [intros _; exact Hr | ].
    split; assumption.
  - destruct (binary_round_spec true p e) as (mz & ez & E & Hpos & Hr & Hle & Hv).
    exists (- mz), ez. rewrite E. destruct mz as [ | q | q]; try lia.
    cbn [Z.opp sbra]. split; [reflexivity | ]. split; [intros _; exact Hr | ].
    split; [assumption | ]. lia.
Qed.

Lemma binary_normalize_mono (M1 e1 M2 e2 c : Z) :
  c <= e1 -> c <= e2 ->
  M1 * 2 ^ (e1 - c) <= M2 * 2 ^ (e2 - c) ->
  SFleb (binary_normalize B32.prec B32.emax M1 e1 false)
        (binary_normalize B32.prec B32.emax M2 e2 false) = true.
Proof.
  intros C1 C2 Hval.
  destruct (binary_normalize_sbra M1 e1) as (M1' & e1' & E1 & R1 & L1 & V1).
  destruct (binary_normalize_sbra M2 e2) as (M2' & e2' & E2 & R2 & L2 & V2).
  rewrite E1, E2.
  set (c' := Z.min c (Z.min e1' e2')).
  apply (sbra_mono M1' e1' M2' e2' c').
  - intros H. split; [now apply R1 | unfold c'; lia].
  - intros H. split; [now apply R2 | unfold c'; lia].
  - rewrite V1, V2.
    rewrite <- !Z.mul_assoc, <- !Z.pow_add_r by (unfold c'; lia).
    replace (e1 - e1' + (e1' - c')) with ((e1 - c) + (c - c')) by lia.
    replace (e2 - e2' + (e2' - c')) with ((e2 - c) + (c - c')) by lia.
    rewrite !Z.pow_add_r by (unfold c'; lia).
    assert (0 < 2 ^ (c - c')) by (apply Z.pow_pos_nonneg; unfold c'; lia).
    nia.
Qed.

Lemma binary_normalize_valid (M e : Z) :
  valid32 (binary_normalize B32.prec B32.emax M e false) = true.
Proof.
  destruct (binary_normalize_sbra M e) as (M' & e' & E & R & _ & _).
  rewrite E. destruct M' as [ | p | p]; cbn [sbra]; [reflexivity | | ];
    apply bra_valid; try lia; apply R; lia.
Qed.

(** *** Comparison is comparison of values *)

(** What validity says of a finite value: the exponent is in range and the
    mantissa has 24 digits, or fewer at the smallest exponent. *)
Lemma valid_finite_inv (s : bool) (m : positive) (e : Z) :
  valid32 (S754_finite s m e) = true ->
  -149 <= e <= 104 /\ Zpos m < 2 ^ 24 /\ (e <> -149 -> 2 ^ 23 <= Zpos m)
  /\ (e = -149 \/ Zdigits2 (Zpos m) = 24).
Proof.
  unfold valid32, valid_binary, bounded, canonical_mantissa. intros Hv.
  apply andb_prop in Hv. destruct Hv as [Hc Hb].
  apply Z.eqb_eq in Hc. apply Z.leb_le in Hb.
  change (B32.emax - B32.prec) with 104 in Hb.
  change (Zpos (digits2_pos m)) with (Zdigits2 (Zpos m)) in Hc.
  rewrite fexp32_eq in Hc.
  destruct (Zdigits2_bounds (Zpos m) ltac:(lia)) as (Hp & Hlo & Hhi).
  assert (Hd : Zdigits2 (Zpos m) <= 24) by lia.
  assert (2 ^ Zdigits2 (Zpos m) <= 2 ^ 24) by (apply Z.pow_le_mono_r; lia).
  split; [lia | ]. split; [lia | ]. split; [ | lia].
  intros Hne. assert (Hd' : Zdigits2 (Zpos m) = 24) by lia.
  rewrite Hd' in Hlo. exact Hlo.
Qed.

Lemma ulps_finite (s : bool) (m : positive) (e : Z) :
  ulps (S754_finite s m e) = cond_Zopp s (Zpos m * 2 ^ (e + 149)).
Proof. unfold ulps, sval. now replace (e - -149) with (e + 149) by lia. Qed.

Lemma ulps_smant (x : spec_float) :
  ulps x = smant x * 2 ^ (sexp x + 149).
Proof.
  destruct x as [s | s | | s m e]; try reflexivity.
  rewrite ulps_finite. cbn [smant sexp]. destruct s; cbn [cond_Zopp]; lia.
Qed.

(** A valid number is the rounding of its own mantissa. *)
Lemma valid_as_sbra (s : bool) (m : positive) (e : Z) :
  valid32 (S754_finite s m e) = true ->
  S754_finite s m e = sbra (cond_Zopp s (Zpos m)) e /\ regime (Zpos m) e.
Proof.
  intros Hv. destruct (bra_canonical s m e Hv) as [E R].
  split; [ | exact R]. destruct s; cbn [cond_Zopp Z.opp sbra]; now rewrite E.
Qed.

Lemma SFleb_zero_zero (s1 s2 : bool) : SFleb (S754_zero s1) (S754_zero s2) = true.
Proof. reflexivity. Qed.

Lemma SFcompare_finite_pos (m1 m2 : positive) (e1 e2 : Z) :
  SFcompare (S754_finite false m1 e1) (S754_finite false m2 e2)
  = Some (match e1 ?= e2 with Lt => Lt | Gt => Gt | Eq => Pos.compare m1 m2 end).
Proof.
  cbn. destruct (e1 ?= e2); reflexivity.
Qed.

Lemma SFcompare_finite_neg (m1 m2 : positive) (e1 e2 : Z) :
  SFcompare (S754_finite true m1 e1) (S754_finite true m2 e2)
  = Some (match e1 ?= e2 with Lt => Gt | Gt => Lt | Eq => CompOpp (Pos.compare m1 m2) end).
Proof.
  cbn. destruct (e1 ?= e2); reflexivity.
Qed.

(** Comparison of valid positive numbers is comparison of values. *)
Lemma SFcompare_pos_value (m1 m2 : positive) (e1 e2 : Z) :
  valid32 (S754_finite false m1 e1) = true ->
  valid32 (S754_finite false m2 e2) = true ->
  SFcompare (S754_finite false m1 e1) (S754_finite false m2 e2)
  = Some (Zpos m1 * 2 ^ (e1 + 149) ?= Zpos m2 * 2 ^ (e2 + 149)).
Proof.
  intros V1 V2. rewrite SFcompare_finite_pos. f_equal.
  destruct (valid_finite_inv _ _ _ V1) as (E1 & U1 & L1 & _).
  destruct (valid_finite_inv _ _ _ V2) as (E2 & U2 & L2 & _).
  destruct (Z.compare_spec e1 e2) as [He | He | He].
  - subst e2. assert (0 < 2 ^ (e1 + 149)) by (apply Z.pow_pos_nonneg; lia).
    change (Pos.compare m1 m2) with (Zpos m1 ?= Zpos m2).
    destruct (Z.compare_spec (Zpos m1) (Zpos m2)) as [Hm | Hm | Hm];
      symmetry; [apply Z.compare_eq_iff | apply Z.compare_lt_iff
                 | apply Z.compare_gt_iff]; nia.
  - symmetry. apply Z.compare_lt_iff.
    replace (e2 + 149) with ((e1 + 149) + (e2 - e1)) by lia.
    rewrite (Z.pow_add_r 2 (e1 + 149) (e2 - e1)) by lia.
    assert (0 < 2 ^ (e1 + 149)) by (apply Z.pow_pos_nonneg; lia).
    assert (2 ^ 1 <= 2 ^ (e2 - e1)) by (apply Z.pow_le_mono_r; lia).
    assert (2 ^ 23 <= Zpos m2) by (apply L2; lia).
    change (2 ^ 1) with 2 in *. change (2 ^ 23) with 8388608 in *.
    change (2 ^ 24) with 16777216 in *.
    assert (Zpos m1 * 2 ^ (e1 + 149) < 16777216 * 2 ^ (e1 + 149)) by nia.
    assert (16777216 * 2 ^ (e1 + 149) <= Zpos m2 * 2 * 2 ^ (e1 + 149)) by nia.
    assert (Zpos m2 * 2 * 2 ^ (e1 + 149)
            <= Zpos m2 * (2 ^ (e1 + 149) * 2 ^ (e2 - e1))) by nia.
    lia.
  - symmetry. apply Z.compare_gt_iff.
    replace (e1 + 149) with ((e2 + 149) + (e1 - e2)) by lia.
    rewrite (Z.pow_add_r 2 (e2 + 149) (e1 - e2)) by lia.
    assert (0 < 2 ^ (e2 + 149)) by (apply Z.pow_pos_nonneg; lia).
    assert (2 ^ 1 <= 2 ^ (e1 - e2)) by (apply Z.pow_le_mono_r; lia).
    assert (2 ^ 23 <= Zpos m1) by (apply L1; lia).
    change (2 ^ 1) with 2 in *. change (2 ^ 23) with 8388608 in *.
    change (2 ^ 24) with 16777216 in *.
    assert (Zpos m2 * 2 ^ (e2 + 149) < 16777216 * 2 ^ (e2 + 149)) by nia.
    assert (16777216 * 2 ^ (e2 + 149) <= Zpos m1 * 2 * 2 ^ (e2 + 149)) by nia.
    assert (Zpos m1 * 2 * 2 ^ (e2 + 149)
            <= Zpos m1 * (2 ^ (e2 + 149) * 2 ^ (e1 - e2))) by nia.
    lia.
Qed.

Lemma valid_opp (x : spec_float) : valid32 (SFopp x) = valid32 x.
Proof. destruct x; reflexivity. Qed.

Lemma ulps_opp (x : spec_float) : ulps (SFopp x) = - ulps x.
Proof.
  destruct x as [s | s | | s m e]; try reflexivity.
  cbn [SFopp]. rewrite !ulps_finite. destruct s; cbn [negb cond_Zopp]; lia.
Qed.

(** Comparison of valid numbers is comparison of their values. *)
Lemma SFcompare_ulps (x y : spec_float) :
  valid32 x = true -> valid32 y = true ->
  B32.isfinite x = true -> B32.isfinite y = true ->
  SFcompare x y = Some (ulps x ?= ulps y).
Proof.
  intros Vx Vy Nx Ny.
  destruct x as [sx | sx | | sx mx ex]; try discriminate;
    destruct y as [sy | sy | | sy my ey]; try discriminate.
  - reflexivity.
  - rewrite ulps_finite. change (ulps (S754_zero sx)) with 0.
    destruct (valid_finite_inv _ _ _ Vy) as (Ey & _).
    assert (0 < 2 ^ (ey + 149)) by (apply Z.pow_pos_nonneg; lia).
    destruct sy; cbn [SFcompare cond_Zopp]; f_equal; symmetry;
      [apply Z.compare_gt_iff | apply Z.compare_lt_iff]; nia.
  - rewrite ulps_finite. change (ulps (S754_zero sy)) with 0.
    destruct (valid_finite_inv _ _ _ Vx) as (Ex & _).
    assert (0 < 2 ^ (ex + 149)) by (apply Z.pow_pos_nonneg; lia).
    destruct sx; cbn [SFcompare cond_Zopp]; f_equal; symmetry;
      [apply Z.compare_lt_iff | apply Z.compare_gt_iff]; nia.
  - destruct (valid_finite_inv _ _ _ Vx) as (Ex & _).
    destruct (valid_finite_inv _ _ _ Vy) as (Ey & _).
    assert (0 < 2 ^ (ex + 149)) by (apply Z.pow_pos_nonneg; lia).
    assert (0 < 2 ^ (ey + 149)) by (apply Z.pow_pos_nonneg; lia).
    destruct sx, sy.
    + rewrite <- (SFcompare_opp (S754_finite true my ey) (S754_finite true mx ex)).
      cbn [SFopp negb]. rewrite SFcompare_pos_value by assumption.
      rewrite !ulps_finite. cbn [cond_Zopp]. f_equal.
      rewrite <- Z.compare_opp. reflexivity.
    + rewrite !ulps_finite. cbn [SFcompare cond_Zopp]. f_equal. symmetry.
      apply Z.compare_lt_iff. nia.
    + rewrite !ulps_finite. cbn [SFcompare cond_Zopp]. f_equal. symmetry.
      apply Z.compare_gt_iff. nia.
    + rewrite SFcompare_pos_value by assumption.
      rewrite !ulps_finite. reflexivity.
Qed.

Lemma SFleb_ulps (x y : spec_float) :
  valid32 x = true -> valid32 y = true ->
  B32.isfinite x = true -> B32.isfinite y = true ->
  SFleb x y = true <-> ulps x <= ulps y.
Proof.
  intros Vx Vy Nx Ny. unfold SFleb. rewrite SFcompare_ulps by assumption.
  destruct (Z.compare_spec (ulps x) (ulps y)); split; intros; try lia;
    try reflexivity; try discriminate.
Qed.

Lemma SFltb_ulps (x y : spec_float) :
  valid32 x = true -> valid32 y = true ->
  B32.isfinite x = true -> B32.isfinite y = true ->
  SFltb x y = true <-> ulps x < ulps y.
Proof.
  intros Vx Vy Nx Ny. unfold SFltb. rewrite SFcompare_ulps by assumption.
  destruct (Z.compare_spec (ulps x) (ulps y)); split; intros; try lia;
    try reflexivity; try discriminate.
Qed.

(** *** The order of binary32 *)

Lemma SFleb_finite_iff (s1 s2 : bool) (m1 m2 : positive) (e1 e2 : Z) :
  SFleb (S754_finite s1 m1 e1) (S754_finite s2 m2 e2) = true <->
  match s1, s2 with
  | true, false => True
  | false, true => False
  | false, false => e1 < e2 \/ (e1 = e2 /\ (m1 <= m2)%positive)
  | true, true => e2 < e1 \/ (e1 = e2 /\ (m2 <= m1)%positive)
  end.
Proof.
  unfold SFleb. destruct s1, s2.
  - rewrite SFcompare_finite_neg.
    destruct (Z.compare_spec e1 e2); [ | split; intros; (lia || discriminate) | split; intros; (lia || reflexivity)].
    destruct (Pos.compare_spec m1 m2); cbn; split; intros; try reflexivity;
      try discriminate; try lia.
  - cbn. tauto.
  - cbn. split; [discriminate | tauto].
  - rewrite SFcompare_finite_pos.
    destruct (Z.compare_spec e1 e2); [ | split; intros; (lia || reflexivity) | split; intros; (lia || discriminate) ].
    destruct (Pos.compare_spec m1 m2); cbn; split; intros; try reflexivity;
      try discriminate; try lia.
Qed.

(** [<=] on binary32 values is transitive. *)
Lemma SFleb_trans (x y z : spec_float) :
  SFleb x y = true -> SFleb y z = true -> SFleb x z = true.
Proof.
  destruct x as [sx | sx | | sx mx ex];
    destruct y as [sy | sy | | sy my ey];
    destruct z as [sz | sz | | sz mz ez];
    try (intros; reflexivity); try (intros; discriminate);
    try (destruct sx; intros; (reflexivity || discriminate));
    try (destruct sy; intros; (reflexivity || discriminate));
    try (destruct sz; intros; (reflexivity || discriminate));
    try (destruct sx, sy; intros; (reflexivity || discriminate));
    try (destruct sx, sz; intros; (reflexivity || discriminate));
    try (destruct sy, sz; intros; (reflexivity || discriminate));
    try (destruct sx, sy, sz; intros; (reflexivity || discriminate)).
  rewrite !SFleb_finite_iff. destruct sx, sy, sz; try tauto; lia.
Qed.

Lemma SFleb_refl (x : spec_float) : x <> S754_nan -> SFleb x x = true.
Proof.
  destruct x as [s | s | | s m e]; intros H.
  - reflexivity.
  - destruct s; reflexivity.
  - now elim H.
  - apply SFleb_finite_iff. destruct s; right; split; lia.
Qed.

Lemma SFleb_pinf (x : spec_float) : x <> S754_nan -> SFleb x (S754_infinity false) = true.
Proof.
  destruct x as [s | s | | s m e]; intros H.
  - reflexivity.
  - destruct s; reflexivity.
  - now elim H.
  - destruct s; reflexivity.
Qed.

Lemma SFleb_ninf (x : spec_float) : x <> S754_nan -> SFleb (S754_infinity true) x = true.
Proof.
  destruct x as [s | s | | s m e]; intros H.
  - reflexivity.
  - destruct s; reflexivity.
  - now elim H.
  - destruct s; reflexivity.
Qed.

(** Ordered values are not NaN. *)
Lemma SFleb_not_nan (x y : spec_float) :
  SFleb x y = true -> x <> S754_nan /\ y <> S754_nan.
Proof.
  destruct x, y; cbn; intros H; split; congruence.
Qed.

(** *** The rounding of an exact value *)

Lemma pow_rebase (N e V c c0 c1 : Z) :
  c0 <= e -> c0 <= c -> c1 <= c0 ->
  N * 2 ^ (e - c0) = V * 2 ^ (c - c0) ->
  N * 2 ^ (e - c1) = V * 2 ^ (c - c1).
Proof.
  intros He Hc Hc1 E.
  replace (e - c1) with ((e - c0) + (c0 - c1)) by lia.
  replace (c - c1) with ((c - c0) + (c0 - c1)) by lia.
  rewrite !Z.pow_add_r by lia. rewrite !Z.mul_assoc, E. reflexivity.
Qed.

(** A rounding is a valid value, not NaN, with the sign of the exact
    value. *)
Lemma rounding_shape (V D c : Z) (z : spec_float) :
  rounding_of V D c z ->
  z <> S754_nan
  /\ (0 <= V -> nonneg_shape z = true)
  /\ (V <= 0 -> nonpos_shape z = true)
  /\ valid32 z = true.
Proof.
  intros (HD & H0 & H1).
  destruct (Z.eq_dec V 0) as [E | E].
  - destruct (H0 E) as [s ->]. repeat split; congruence.
  - destruct (H1 E) as (N & m & e & l & c0 & -> & HL & HR & _).
    destruct (located_floor _ _ _ _ HL) as [Hm _].
    split; [ | split; [ | split]].
    + destruct (bra_shape (V <? 0) m e l Hm HR) as [Z | [(m' & e' & Z) | Z]];
        rewrite Z; discriminate.
    + intros Hp. destruct (Z.ltb_spec V 0); [lia | ].
      now apply bra_false_nonneg.
    + intros Hp. destruct (Z.ltb_spec V 0); [ | lia].
      now apply bra_true_nonpos.
    + now apply bra_valid.
Qed.

(** Rounding is monotone in the exact value. *)
Lemma rounding_mono (V1 D1 c1 V2 D2 c2 c : Z) (z1 z2 : spec_float) :
  rounding_of V1 D1 c1 z1 -> rounding_of V2 D2 c2 z2 ->
  c <= c1 -> c <= c2 ->
  V1 * 2 ^ (c1 - c) * D2 <= V2 * 2 ^ (c2 - c) * D1 ->
  SFleb z1 z2 = true.
Proof.
  intros R1 R2 C1 C2 Hle.
  assert (P1 : 0 < 2 ^ (c1 - c)) by (apply Z.pow_pos_nonneg; lia).
  assert (P2 : 0 < 2 ^ (c2 - c)) by (apply Z.pow_pos_nonneg; lia).
  pose proof (rounding_shape _ _ _ _ R1) as (_ & Sp1 & Sn1 & _).
  pose proof (rounding_shape _ _ _ _ R2) as (_ & Sp2 & Sn2 & _).
  destruct R1 as (HD1 & _ & H1). destruct R2 as (HD2 & _ & H2).
  destruct (Z_le_gt_dec V1 0) as [N1 | N1].
  - destruct (Z_le_gt_dec 0 V2) as [N2 | N2].
    + apply SFleb_nonpos_nonneg; auto.
    + (* both negative *)
      assert (V1 < 0) by nia.
      destruct (H1 ltac:(lia)) as (n1 & m1 & e1 & l1 & a1 & -> & L1 & G1 & A1 & B1 & E1).
      destruct (H2 ltac:(lia)) as (n2 & m2 & e2 & l2 & a2 & -> & L2 & G2 & A2 & B2 & E2).
      destruct (located_floor _ _ _ _ L1) as [Hm1 _].
      destruct (located_floor _ _ _ _ L2) as [Hm2 _].
      destruct (Z.ltb_spec V1 0); [ | lia]. destruct (Z.ltb_spec V2 0); [ | lia].
      change true with (negb false).
      rewrite !bra_opp by assumption. rewrite SFleb_opp.
      set (c' := Z.min c (Z.min a1 a2)).
      apply (bra_mono n2 D2 m2 e2 n1 D1 m1 e1 c'); try assumption;
        try (unfold c'; lia).
      rewrite (pow_rebase n1 e1 (Z.abs V1) c1 a1 c') by (assumption || unfold c'; lia).
      rewrite (pow_rebase n2 e2 (Z.abs V2) c2 a2 c') by (assumption || unfold c'; lia).
      replace (c1 - c') with ((c1 - c) + (c - c')) by lia.
      replace (c2 - c') with ((c2 - c) + (c - c')) by lia.
      rewrite !Z.pow_add_r by (unfold c'; lia).
      assert (0 < 2 ^ (c - c')) by (apply Z.pow_pos_nonneg; unfold c'; lia).
      nia.
  - assert (0 < V2) by nia.
    destruct (H1 ltac:(lia)) as (n1 & m1 & e1 & l1 & a1 & -> & L1 & G1 & A1 & B1 & E1).
    destruct (H2 ltac:(lia)) as (n2 & m2 & e2 & l2 & a2 & -> & L2 & G2 & A2 & B2 & E2).
    destruct (Z.ltb_spec V1 0); [lia | ]. destruct (Z.ltb_spec V2 0); [lia | ].
    set (c' := Z.min c (Z.min a1 a2)).
    apply (bra_mono n1 D1 m1 e1 n2 D2 m2 e2 c'); try assumption;
      try (unfold c'; lia).
    rewrite (pow_rebase n1 e1 (Z.abs V1) c1 a1 c') by (assumption || unfold c'; lia).
    rewrite (pow_rebase n2 e2 (Z.abs V2) c2 a2 c') by (assumption || unfold c'; lia).
    replace (c1 - c') with ((c1 - c) + (c - c')) by lia.
    replace (c2 - c') with ((c2 - c) + (c - c')) by lia.
    rewrite !Z.pow_add_r by (unfold c'; lia).
    assert (0 < 2 ^ (c - c')) by (apply Z.pow_pos_nonneg; unfold c'; lia).
    nia.
Qed.

(** The rounding of a signed integer at an exponent. *)
Lemma sbra_rounding (M e : Z) :
  (M <> 0 -> regime (Z.abs M) e) ->
  rounding_of M 1 e (sbra M e).
Proof.
  intros HR. split; [lia | ]. split.
  - intros ->. now exists false.
  - intros Hne. exists (Z.abs M), (Z.abs M), e, loc_Exact, e.
    split; [ | split; [apply located_exact; lia | ]].
    + destruct M as [ | p | p]; [lia | reflexivity | reflexivity].
    + split; [now apply HR | ]. split; [lia | ]. split; [lia | reflexivity].
Qed.

(** The same exact value, on a finer unit. *)
Lemma rounding_rebase (V D c c' : Z) (z : spec_float) :
  rounding_of V D c z -> c' <= c -> rounding_of (V * 2 ^ (c - c')) D c' z.
Proof.
  intros (HD & H0 & H1) Hc.
  assert (P : 0 < 2 ^ (c - c')) by (apply Z.pow_pos_nonneg; lia).
  split; [exact HD | ]. split.
  - intros E. apply H0. nia.
  - intros E. assert (V <> 0) by nia.
    destruct (H1 ltac:(assumption)) as (N & m & e & l & c0 & -> & L & G & A & B & Ev).
    exists N, m, e, l, (Z.min c0 c').
    replace (V * 2 ^ (c - c') <? 0) with (V <? 0)
      by (destruct (Z.ltb_spec V 0), (Z.ltb_spec (V * 2 ^ (c - c')) 0); try reflexivity; nia).
    split; [reflexivity | ]. split; [exact L | ]. split; [exact G | ].
    split; [lia | ]. split; [lia | ].
    rewrite (pow_rebase N e (Z.abs V) c c0 (Z.min c0 c')) by (assumption || lia).
    rewrite Z.abs_mul, (Z.abs_eq (2 ^ (c - c'))) by lia.
    rewrite <- Z.mul_assoc, <- Z.pow_add_r by lia.
    f_equal. f_equal. lia.
Qed.

Lemma rounding_zero (s : bool) (D c : Z) : 0 < D -> rounding_of 0 D c (S754_zero s).
Proof.
  intros HD. split; [exact HD | ]. split; [now exists s | ]. intros H; now elim H.
Qed.

(** A valid number is the rounding of its own value. *)
Lemma number_rounding (x : spec_float) :
  valid32 x = true -> B32.isfinite x = true -> rounding_of (ulps x) 1 (-149) x.
Proof.
  intros V N. destruct x as [s | s | | s m e]; try discriminate.
  - apply rounding_zero. lia.
  - destruct (valid_as_sbra s m e V) as [E R].
    destruct (valid_finite_inv s m e V) as (He & _).
    rewrite ulps_smant. cbn [smant sexp].
    replace (e + 149) with (e - -149) by lia.
    apply rounding_rebase; [ | lia].
    rewrite E. apply sbra_rounding. intros _.
    destruct s; exact R.
Qed.

Lemma binary_normalize_rounding (M e : Z) (s : bool) :
  rounding_of M 1 e (binary_normalize B32.prec B32.emax M e s).
Proof.
  destruct M as [ | p | p]; cbn [binary_normalize].
  - apply rounding_zero. lia.
  - destruct (binary_round_spec false p e) as (mz & ez & E & Hpos & Hr & Hle & Hv).
    rewrite E. split; [lia | ]. split; [discriminate | ]. intros _.
    exists mz, mz, ez, loc_Exact, ez.
    split; [reflexivity | ]. split; [apply located_exact; lia | ].
    split; [exact Hr | ]. split; [lia | ]. split; [lia | ].
    rewrite Z.sub_diag, Z.mul_1_r. exact Hv.
  - destruct (binary_round_spec true p e) as (mz & ez & E & Hpos & Hr & Hle & Hv).
    rewrite E. split; [lia | ]. split; [discriminate | ]. intros _.
    exists mz, mz, ez, loc_Exact, ez.
    split; [reflexivity | ]. split; [apply located_exact; lia | ].
    split; [exact Hr | ]. split; [lia | ]. split; [lia | ].
    rewrite Z.sub_diag, Z.mul_1_r. exact Hv.
Qed.

(** *** Subtraction and multiplication round the exact result *)

Lemma rounding_of_eq (V V' D c : Z) (z : spec_float) :
  V = V' -> rounding_of V D c z -> rounding_of V' D c z.
Proof. now intros ->. Qed.

Lemma shl_align_fst (mx : positive) (ex ez : Z) :
  ez <= ex -> Zpos (fst (shl_align mx ex ez)) = Zpos mx * 2 ^ (ex - ez).
Proof.
  intros Hle. unfold shl_align.
  destruct (ez - ex) as [ | d | d] eqn:Hd; cbn [fst].
  - replace (ex - ez) with 0 by lia. cbn. lia.
  - lia.
  - rewrite pos_iter_xO. f_equal. f_equal. lia.
Qed.

(** Subtraction of numbers rounds the exact difference. *)
Lemma SFsub_rounding (x y : spec_float) :
  valid32 x = true -> valid32 y = true ->
  B32.isfinite x = true -> B32.isfinite y = true ->
  rounding_of (ulps x - ulps y) 1 (-149) (SFsub B32.prec B32.emax x y).
Proof.
  intros Vx Vy Nx Ny.
  destruct x as [sx | sx | | sx mx ex]; try discriminate;
    destruct y as [sy | sy | | sy my ey]; try discriminate.
  - cbn [SFsub]. change (ulps (S754_zero sx) - ulps (S754_zero sy)) with 0.
    destruct sx, sy; apply rounding_zero; lia.
  - cbn [SFsub]. apply (rounding_of_eq (ulps (S754_finite (negb sy) my ey))).
    + change (S754_finite (negb sy) my ey) with (SFopp (S754_finite sy my ey)).
      rewrite ulps_opp. change (ulps (S754_zero sx)) with 0. lia.
    + apply number_rounding; [ | reflexivity].
      change (S754_finite (negb sy) my ey) with (SFopp (S754_finite sy my ey)).
      now rewrite valid_opp.
  - cbn [SFsub]. apply (rounding_of_eq (ulps (S754_finite sx mx ex))).
    + change (ulps (S754_zero sy)) with 0. lia.
    + now apply number_rounding.
  - cbn [SFsub]. cbv zeta.
    destruct (valid_finite_inv _ _ _ Vx) as (Ex & _).
    destruct (valid_finite_inv _ _ _ Vy) as (Ey & _).
    change (IntDef.Z.min ex ey) with (Z.min ex ey).
    set (ez := Z.min ex ey).
    rewrite !shl_align_fst by (unfold ez; lia).
    match goal with
    | |- rounding_of _ _ _ (binary_normalize _ _ ?M _ _) =>
        apply (rounding_of_eq (M * 2 ^ (ez - -149)));
          [ | apply (rounding_rebase M 1 ez (-149));
              [apply binary_normalize_rounding | unfold ez; lia]]
    end.
    rewrite !ulps_finite.
    replace (ez - -149) with (ez + 149) by lia.
    replace (ex + 149) with ((ex - ez) + (ez + 149)) by (unfold ez; lia).
    replace (ey + 149) with ((ey - ez) + (ez + 149)) by (unfold ez; lia).
    rewrite (Z.pow_add_r 2 (ex - ez) (ez + 149)) by (unfold ez; lia).
    rewrite (Z.pow_add_r 2 (ey - ez) (ez + 149)) by (unfold ez; lia).
    destruct sx, sy; cbn [cond_Zopp]; ring.
Qed.

Lemma mul_regime (mx my : positive) (ex ey : Z) (sx sy : bool) :
  valid32 (S754_finite sx mx ex) = true ->
  valid32 (S754_finite sy my ey) = true ->
  regime (Zpos (mx * my)) (ex + ey).
Proof.
  intros Vx Vy.
  destruct (valid_finite_inv _ _ _ Vx) as (Ex & Ux & Lx & Dx).
  destruct (valid_finite_inv _ _ _ Vy) as (Ey & Uy & Ly & Dy).
  unfold regime. rewrite fexp32_eq. rewrite Pos2Z.inj_mul.
  assert (Hx : Zdigits2 (Zpos my) <= Zdigits2 (Zpos mx * Zpos my))
    by (apply Zdigits2_mono; nia).
  assert (Hy : Zdigits2 (Zpos mx) <= Zdigits2 (Zpos mx * Zpos my))
    by (apply Zdigits2_mono; nia).
  destruct (Z.eq_dec ex (-149)) as [Ax | Ax], (Z.eq_dec ey (-149)) as [Ay | Ay].
  - lia.
  - destruct Dy as [Dy | Dy]; lia.
  - destruct Dx as [Dx | Dx]; lia.
  - assert (2 ^ 46 <= Zpos mx * Zpos my).
    { specialize (Lx Ax). specialize (Ly Ay).
      change (2 ^ 46) with (2 ^ 23 * 2 ^ 23). nia. }
    pose proof (Zdigits2_ge_pow (Zpos mx * Zpos my) 46 ltac:(lia) ltac:(assumption)).
    lia.
Qed.

(** Multiplication of numbers rounds the exact product. *)
Lemma SFmul_rounding (x y : spec_float) :
  valid32 x = true -> valid32 y = true ->
  B32.isfinite x = true -> B32.isfinite y = true ->
  rounding_of (ulps x * ulps y) 1 (-298) (SFmul B32.prec B32.emax x y).
Proof.
  intros Vx Vy Nx Ny.
  destruct x as [sx | sx | | sx mx ex]; try discriminate;
    destruct y as [sy | sy | | sy my ey]; try discriminate;
    try (cbn [SFmul]; apply (rounding_of_eq 0);
         [change (ulps (S754_zero sx)) with 0; change (ulps (S754_zero sy)) with 0; lia
         | apply rounding_zero; lia]).
  cbn [SFmul].
  destruct (valid_finite_inv _ _ _ Vx) as (Ex & _).
  destruct (valid_finite_inv _ _ _ Vy) as (Ey & _).
  assert (Px : 0 < 2 ^ (ex + 149)) by (apply Z.pow_pos_nonneg; lia).
  assert (Py : 0 < 2 ^ (ey + 149)) by (apply Z.pow_pos_nonneg; lia).
  rewrite !ulps_finite.
  split; [lia | ]. split.
  - intros E. exfalso. destruct sx, sy; cbn [cond_Zopp] in E; nia.
  - intros _.
    exists (Zpos (mx * my)), (Zpos (mx * my)), (ex + ey), loc_Exact, (-298).
    split.
    { f_equal. destruct sx, sy; cbn [cond_Zopp xorb]; symmetry;
        [apply Z.ltb_ge | apply Z.ltb_lt | apply Z.ltb_lt | apply Z.ltb_ge]; nia. }
    split; [apply located_exact; lia | ].
    split; [apply (mul_regime mx my ex ey sx sy Vx Vy) | ].
    split; [lia | ]. split; [lia | ].
    replace (-298 - -298) with 0 by lia. rewrite Z.mul_1_r.
    replace (ex + ey - -298) with ((ex + 149) + (ey + 149)) by lia.
    rewrite Z.pow_add_r by lia. rewrite Pos2Z.inj_mul.
    destruct sx, sy; cbn [cond_Zopp]; nia.
Qed.

(** *** Division rounds the exact quotient *)

Lemma new_location_located (N D : Z) :
  0 <= N -> 0 < D -> located N D (N / D) (new_location D (N mod D)).
Proof.
  intros HN HD. unfold located. split; [exact HN | ]. split; [exact HD | ].
  pose proof (Z.div_mod N D ltac:(lia)) as E.
  pose proof (Z.mod_pos_bound N D HD) as R.
  set (q := N / D) in *. set (r := N mod D) in *. clearbody q r.
  unfold sticky_div.
  assert (Hcase : (2 * r < D /\ (2 * N) / D = 2 * q /\ (2 * N) mod D = 2 * r)
                  \/ (D <= 2 * r /\ (2 * N) / D = 2 * q + 1
                      /\ (2 * N) mod D = 2 * r - D)).
  { destruct (Z_lt_le_dec (2 * r) D) as [Hlt | Hge]; [left | right];
      (split; [assumption | ]).
    - split; [symmetry; apply (Z.div_unique _ _ _ (2 * r)); lia
             | symmetry; apply (Z.mod_unique _ _ (2 * q)); lia].
    - split; [symmetry; apply (Z.div_unique _ _ _ (2 * r - D)); lia
             | symmetry; apply (Z.mod_unique _ _ (2 * q + 1)); lia]. }
  unfold new_location, new_location_even, new_location_odd.
  destruct (Z.even D) eqn:Hev.
  - destruct (Z.eqb_spec r 0) as [Hr | Hr].
    + destruct Hcase as [(_ & -> & ->) | (? & _)]; [ | lia].
      cbn [loc_code]. destruct (Z.eqb_spec (2 * r) 0); lia.
    + destruct (Z.compare_spec (2 * r) D) as [Hc | Hc | Hc];
        destruct Hcase as [(? & -> & ->) | (? & -> & ->)]; try lia;
        cbn [loc_code];
        match goal with
        | |- context [?a =? 0] => destruct (Z.eqb_spec a 0); lia
        end.
  - assert (Hodd : D <> 2 * r).
    { intros HE. rewrite HE, Z.even_mul in Hev. discriminate. }
    destruct (Z.eqb_spec r 0) as [Hr | Hr].
    + destruct Hcase as [(_ & -> & ->) | (? & _)]; [ | lia].
      cbn [loc_code]. destruct (Z.eqb_spec (2 * r) 0); lia.
    + destruct (Z.compare_spec (2 * r + 1) D) as [Hc | Hc | Hc];
        destruct Hcase as [(? & -> & ->) | (? & -> & ->)]; try lia;
        cbn [loc_code];
        match goal with
        | |- context [?a =? 0] => destruct (Z.eqb_spec a 0); lia
        end.
Qed.

Lemma located_scale (N D m k : Z) (l : location) :
  located N D m l -> 0 < k -> located (N * k) (D * k) m l.
Proof.
  intros (HN & HD & E) Hk. split; [nia | ]. split; [nia | ].
  rewrite E. unfold sticky_div.
  replace (2 * (N * k)) with ((2 * N) * k) by ring.
  rewrite Z.div_mul_cancel_r by lia.
  rewrite Z.mul_mod_distr_r by lia.
  destruct (Z.eqb_spec ((2 * N) mod D) 0) as [H0 | H0].
  - rewrite H0. reflexivity.
  - destruct (Z.eqb_spec ((2 * N) mod D * k) 0); [nia | reflexivity].
Qed.

(** The quotient and location computed by [SFdiv_core_binary]. *)
Lemma SFdiv_core_spec (m1 m2 : positive) (e1 e2 : Z) :
  exists (q e' s : Z) (l : location),
    SFdiv_core_binary B32.prec B32.emax (Zpos m1) e1 (Zpos m2) e2 = (q, e', l)
    /\ 0 <= s /\ s + e' = e1 - e2
    /\ located (Zpos m1 * 2 ^ s) (Zpos m2) q l
    /\ regime q e'.
Proof.
  unfold SFdiv_core_binary.
  set (d1 := Zdigits2 (Zpos m1)). set (d2 := Zdigits2 (Zpos m2)).
  set (g := d1 + e1 - (d2 + e2)).
  change (IntDef.Z.min (fexp B32.prec B32.emax g) (e1 - e2))
    with (Z.min (fexp B32.prec B32.emax g) (e1 - e2)).
  set (e' := Z.min (fexp B32.prec B32.emax g) (e1 - e2)).
  set (s := e1 - e2 - e').
  assert (Hs : 0 <= s) by (unfold s, e'; lia).
  set (m' := match s with
             | 0 => Zpos m1
             | Zpos _ => IntDef.Z.shiftl (Zpos m1) s
             | Zneg _ => 0
             end).
  assert (Hm' : m' = Zpos m1 * 2 ^ s).
  { unfold m'. destruct s as [ | p | p] eqn:Es; try lia.
    change (IntDef.Z.shiftl (Zpos m1) (Zpos p)) with (Z.shiftl (Zpos m1) (Zpos p)).
    now rewrite Z.shiftl_mul_pow2 by lia. }
  assert (Ps : 0 < 2 ^ s) by (apply Z.pow_pos_nonneg; lia).
  change (IntDef.Z.div_eucl m' (Zpos m2)) with (Z.div_eucl m' (Zpos m2)).
  destruct (Z.div_eucl m' (Zpos m2)) as [q r] eqn:Ediv.
  assert (Hq : q = m' / Zpos m2) by (unfold Z.div; now rewrite Ediv).
  assert (Hr : r = m' mod Zpos m2) by (unfold Z.modulo; now rewrite Ediv).
  exists q, e', s, (new_location (Zpos m2) r).
  split; [reflexivity | ]. split; [exact Hs | ]. split; [unfold s; lia | ].
  split.
  - rewrite Hq, Hr, Hm'. apply new_location_located; nia.
  - unfold regime. rewrite fexp32_eq.
    destruct (Z_le_gt_dec e' (-149)) as [Hlow | Hhigh]; [lia | ].
    assert (He' : e' <= g - 24).
    { unfold e' in *. rewrite fexp32_eq in *. lia. }
    assert (Hgs : 24 <= d1 - d2 + s) by (unfold s, g in *; lia).
    destruct (Zdigits2_bounds (Zpos m1) ltac:(lia)) as (P1 & L1 & U1).
    destruct (Zdigits2_bounds (Zpos m2) ltac:(lia)) as (P2 & L2 & U2).
    fold d1 in P1, L1, U1. fold d2 in P2, L2, U2.
    assert (Hlow : 2 ^ (d1 - 1 + s - d2) <= q).
    { rewrite Hq, Hm'. apply Z.div_le_lower_bound; [lia | ].
      assert (0 < 2 ^ (d1 - 1 + s - d2)) by (apply Z.pow_pos_nonneg; lia).
      assert (2 ^ (d1 - 1 + s - d2) * 2 ^ d2 = 2 ^ (d1 - 1) * 2 ^ s).
      { rewrite <- !Z.pow_add_r by lia. f_equal. lia. }
      nia. }
    pose proof (Zdigits2_ge_pow q (d1 - 1 + s - d2) ltac:(lia) Hlow).
    lia.
Qed.

(** Division of a number by a non-zero number rounds the exact quotient. *)
Lemma SFdiv_rounding (x : spec_float) (sy : bool) (my : positive) (ey : Z) :
  valid32 x = true -> valid32 (S754_finite sy my ey) = true ->
  B32.isfinite x = true ->
  rounding_of (cond_Zopp sy (ulps x)) (Zpos my * 2 ^ (ey + 149)) 0
              (SFdiv B32.prec B32.emax x (S754_finite sy my ey)).
Proof.
  intros Vx Vy Nx.
  destruct (valid_finite_inv _ _ _ Vy) as (Ey & _).
  assert (Py : 0 < 2 ^ (ey + 149)) by (apply Z.pow_pos_nonneg; lia).
  destruct x as [sx | sx | | sx mx ex]; try discriminate.
  - cbn [SFdiv]. apply (rounding_of_eq 0).
    + change (ulps (S754_zero sx)) with 0. destruct sy; reflexivity.
    + apply rounding_zero. nia.
  - destruct (valid_finite_inv _ _ _ Vx) as (Ex & _).
    assert (Px : 0 < 2 ^ (ex + 149)) by (apply Z.pow_pos_nonneg; lia).
    cbn [SFdiv].
    destruct (SFdiv_core_spec mx my ex ey) as (q & e' & s & l & -> & Hs & Hse & HL & HR).
    rewrite ulps_finite.
    split; [nia | ]. split.
    + intros E. exfalso. destruct sx, sy; cbn [cond_Zopp] in E; nia.
    + intros _.
      exists (Zpos mx * 2 ^ s * 2 ^ (ey + 149)), q, e', l, (Z.min e' 0).
      split.
      { f_equal. destruct sx, sy; cbn [cond_Zopp xorb]; symmetry;
          [apply Z.ltb_ge | apply Z.ltb_lt | apply Z.ltb_lt | apply Z.ltb_ge]; nia. }
      split; [apply located_scale; [exact HL | exact Py] | ].
      split; [exact HR | ]. split; [lia | ]. split; [lia | ].
      replace (Z.abs (cond_Zopp sy (cond_Zopp sx (Zpos mx * 2 ^ (ex + 149)))))
        with (Zpos mx * 2 ^ (ex + 149))
        by (destruct sx, sy; cbn [cond_Zopp]; nia).
      rewrite <- !Z.mul_assoc, <- !Z.pow_add_r by lia.
      f_equal. f_equal. lia.
Qed.

(** *** The order, infinities included *)

Lemma SFltb_negb_SFleb (x y : spec_float) :
  x <> S754_nan -> y <> S754_nan -> SFltb x y = negb (SFleb y x).
Proof.
  intros Hx Hy. unfold SFltb, SFleb. rewrite (SFcompare_antisym x y).
  destruct (SFcompare x y) as [[ | | ] | ] eqn:E; try reflexivity.
  destruct (SFcompare_None _ _ E) as [N | N];
    [destruct x | destruct y]; try discriminate N; congruence.
Qed.

Lemma SFltb_neither_nan (x y : spec_float) :
  SFltb x y = true -> x <> S754_nan /\ y <> S754_nan.
Proof.
  destruct x, y; cbn; intros H; split; congruence.
Qed.

Lemma SFltb_leb_trans (x y z : spec_float) :
  SFltb x y = true -> SFleb y z = true -> SFltb x z = true.
Proof.
  intros Hxy Hyz.
  destruct (SFltb_neither_nan _ _ Hxy) as [Nx Ny].
  destruct (SFleb_not_nan _ _ Hyz) as [_ Nz].
  rewrite SFltb_negb_SFleb by assumption.
  destruct (SFleb z x) eqn:E; [ | reflexivity].
  pose proof (SFleb_trans _ _ _ Hyz E) as Hyx.
  rewrite SFltb_negb_SFleb in Hxy by assumption. now rewrite Hyx in Hxy.
Qed.

Lemma SFleb_ltb_trans (x y z : spec_float) :
  SFleb x y = true -> SFltb y z = true -> SFltb x z = true.
Proof.
  intros Hxy Hyz.
  destruct (SFltb_neither_nan _ _ Hyz) as [Ny Nz].
  destruct (SFleb_not_nan _ _ Hxy) as [Nx _].
  rewrite SFltb_negb_SFleb by assumption.
  destruct (SFleb z x) eqn:E; [ | reflexivity].
  pose proof (SFleb_trans _ _ _ E Hxy) as Hzy.
  rewrite SFltb_negb_SFleb in Hyz by assumption. now rewrite Hzy in Hyz.
Qed.

Lemma SFleb_total (x y : spec_float) :
  x <> S754_nan -> y <> S754_nan -> SFleb x y = true \/ SFltb y x = true.
Proof.
  intros Hx Hy. rewrite (SFltb_negb_SFleb y x) by assumption.
  destruct (SFleb x y); auto.
Qed.

(** Of two ordered values, the lower is [-inf], the upper is [+inf], or
    both are numbers. *)
Lemma SFleb_cases (x y : spec_float) :
  SFleb x y = true ->
  x = S754_infinity true \/ y = S754_infinity false
  \/ (B32.isfinite x = true /\ B32.isfinite y = true).
Proof.
  destruct x as [sx | [ | ] | | sx mx ex], y as [sy | [ | ] | | sy my ey]; cbn;
    intros H; try discriminate H; auto;
    try (destruct sx; discriminate H); try (destruct sy; discriminate H).
Qed.

Lemma nonneg_shape_ulps (x : spec_float) : nonneg_shape x = true -> 0 <= ulps x.
Proof.
  destruct x as [s | s | | s m e]; cbn [nonneg_shape]; intros H;
    try (cbn; lia).
  rewrite ulps_finite. destruct s; try discriminate.
  cbn [cond_Zopp]. apply Z.mul_nonneg_nonneg; [lia | apply Z.pow_nonneg; lia].
Qed.

Lemma ulps_pos (m : positive) (e : Z) :
  -149 <= e -> 0 < ulps (S754_finite false m e).
Proof.
  intros He. rewrite ulps_finite. cbn [cond_Zopp].
  assert (0 < 2 ^ (e + 149)) by (apply Z.pow_pos_nonneg; lia). nia.
Qed.

Lemma ulps_neg (m : positive) (e : Z) :
  -149 <= e -> ulps (S754_finite true m e) < 0.
Proof.
  intros He. rewrite ulps_finite. cbn [cond_Zopp].
  assert (0 < 2 ^ (e + 149)) by (apply Z.pow_pos_nonneg; lia). nia.
Qed.

(** *** The operations are monotone *)

Lemma ordered_number (x : spec_float) :
  valid32 x = true -> B32.isfinite x = true -> ordered x.
Proof. intros V N. split; [exact V | ]. destruct x; (discriminate || congruence). Qed.

Lemma rounding_ordered (V D c : Z) (z : spec_float) :
  rounding_of V D c z -> ordered z.
Proof. intros R. destruct (rounding_shape _ _ _ _ R) as (N & _ & _ & Hv). now split. Qed.

Lemma ordered_cases (x : spec_float) :
  ordered x ->
  x = S754_infinity true \/ x = S754_infinity false
  \/ (valid32 x = true /\ B32.isfinite x = true).
Proof.
  intros [V N]. destruct x as [s | [ | ] | | s m e]; auto. now elim N.
Qed.

(** Subtraction. *)

Lemma SFsub_ordered_r (c q : spec_float) :
  valid32 c = true -> B32.isfinite c = true -> ordered q ->
  ordered (SFsub B32.prec B32.emax c q).
Proof.
  intros Vc Nc Oq.
  destruct (ordered_cases q Oq) as [-> | [-> | [Vq Nq]]].
  - destruct c; try discriminate; split; (reflexivity || discriminate).
  - destruct c; try discriminate; split; (reflexivity || discriminate).
  - exact (rounding_ordered _ _ _ _ (SFsub_rounding c q Vc Vq Nc Nq)).
Qed.

Lemma SFsub_ordered_l (x y : spec_float) :
  ordered x -> valid32 y = true -> B32.isfinite y = true ->
  ordered (SFsub B32.prec B32.emax x y).
Proof.
  intros Ox Vy Ny.
  destruct (ordered_cases x Ox) as [-> | [-> | [Vx Nx]]].
  - destruct y; try discriminate; split; (reflexivity || discriminate).
  - destruct y; try discriminate; split; (reflexivity || discriminate).
  - exact (rounding_ordered _ _ _ _ (SFsub_rounding x y Vx Vy Nx Ny)).
Qed.

(** [c - q] does not increase when [q] grows. *)
Lemma SFsub_anti_r (c q q' : spec_float) :
  valid32 c = true -> B32.isfinite c = true ->
  ordered q -> ordered q' -> SFleb q q' = true ->
  SFleb (SFsub B32.prec B32.emax c q') (SFsub B32.prec B32.emax c q) = true.
Proof.
  intros Vc Nc Oq Oq' Hle.
  pose proof (SFsub_ordered_r c q Vc Nc Oq) as [_ N1].
  pose proof (SFsub_ordered_r c q' Vc Nc Oq') as [_ N2].
  destruct (SFleb_cases _ _ Hle) as [-> | [-> | [Nq Nq']]].
  - replace (SFsub B32.prec B32.emax c (S754_infinity true))
      with (S754_infinity false) by (destruct c; try discriminate; reflexivity).
    now apply SFleb_pinf.
  - replace (SFsub B32.prec B32.emax c (S754_infinity false))
      with (S754_infinity true) by (destruct c; try discriminate; reflexivity).
    now apply SFleb_ninf.
  - destruct Oq as [Vq _], Oq' as [Vq' _].
    apply (rounding_mono _ _ _ _ _ _ (-149) _ _
             (SFsub_rounding c q' Vc Vq' Nc Nq') (SFsub_rounding c q Vc Vq Nc Nq));
      try lia.
    apply (SFleb_ulps q q' Vq Vq' Nq Nq') in Hle.
    replace (-149 - -149) with 0 by lia. cbn. lia.
Qed.

(** [x - y] grows with [x]. *)
Lemma SFsub_mono_l (x x' y : spec_float) :
  ordered x -> ordered x' -> valid32 y = true -> B32.isfinite y = true ->
  SFleb x x' = true ->
  SFleb (SFsub B32.prec B32.emax x y) (SFsub B32.prec B32.emax x' y) = true.
Proof.
  intros Ox Ox' Vy Ny Hle.
  pose proof (SFsub_ordered_l x y Ox Vy Ny) as [_ N1].
  pose proof (SFsub_ordered_l x' y Ox' Vy Ny) as [_ N2].
  destruct (SFleb_cases _ _ Hle) as [-> | [-> | [Nx Nx']]].
  - replace (SFsub B32.prec B32.emax (S754_infinity true) y)
      with (S754_infinity true) by (destruct y; try discriminate; reflexivity).
    now apply SFleb_ninf.
  - replace (SFsub B32.prec B32.emax (S754_infinity false) y)
      with (S754_infinity false) by (destruct y; try discriminate; reflexivity).
    now apply SFleb_pinf.
  - destruct Ox as [Vx _], Ox' as [Vx' _].
    apply (rounding_mono _ _ _ _ _ _ (-149) _ _
             (SFsub_rounding x y Vx Vy Nx Ny) (SFsub_rounding x' y Vx' Vy Nx' Ny));
      try lia.
    apply (SFleb_ulps x x' Vx Vx' Nx Nx') in Hle.
    replace (-149 - -149) with 0 by lia. cbn. lia.
Qed.

(** Multiplication by a finite non-zero factor. *)

Lemma SFmul_ordered (sr : bool) (mr : positive) (er : Z) (s : spec_float) :
  valid32 (S754_finite sr mr er) = true -> ordered s ->
  ordered (SFmul B32.prec B32.emax (S754_finite sr mr er) s).
Proof.
  intros Vr Os.
  destruct (ordered_cases s Os) as [-> | [-> | [Vs Ns]]].
  - split; (reflexivity || discriminate).
  - split; (reflexivity || discriminate).
  - exact (rounding_ordered _ _ _ _ (SFmul_rounding _ s Vr Vs eq_refl Ns)).
Qed.

Lemma SFmul_mono_pos (mr : positive) (er : Z) (s s' : spec_float) :
  valid32 (S754_finite false mr er) = true ->
  ordered s -> ordered s' -> SFleb s s' = true ->
  SFleb (SFmul B32.prec B32.emax (S754_finite false mr er) s)
        (SFmul B32.prec B32.emax (S754_finite false mr er) s') = true.
Proof.
  intros Vr Os Os' Hle.
  pose proof (SFmul_ordered false mr er s Vr Os) as [_ N1].
  pose proof (SFmul_ordered false mr er s' Vr Os') as [_ N2].
  destruct (SFleb_cases _ _ Hle) as [-> | [-> | [Ns Ns']]].
  - now apply SFleb_ninf.
  - now apply SFleb_pinf.
  - destruct Os as [Vs _], Os' as [Vs' _].
    apply (rounding_mono _ _ _ _ _ _ (-298) _ _
             (SFmul_rounding _ s Vr Vs eq_refl Ns)
             (SFmul_rounding _ s' Vr Vs' eq_refl Ns'));
      try lia.
    apply (SFleb_ulps s s' Vs Vs' Ns Ns') in Hle.
    destruct (valid_finite_inv _ _ _ Vr) as (Er & _).
    pose proof (ulps_pos mr er ltac:(lia)).
    replace (-298 - -298) with 0 by lia. cbn [Z.pow]. nia.
Qed.

Lemma SFmul_anti_neg (mr : positive) (er : Z) (s s' : spec_float) :
  valid32 (S754_finite true mr er) = true ->
  ordered s -> ordered s' -> SFleb s s' = true ->
  SFleb (SFmul B32.prec B32.emax (S754_finite true mr er) s')
        (SFmul B32.prec B32.emax (S754_finite true mr er) s) = true.
Proof.
  intros Vr Os Os' Hle.
  pose proof (SFmul_ordered true mr er s Vr Os) as [_ N1].
  pose proof (SFmul_ordered true mr er s' Vr Os') as [_ N2].
  destruct (SFleb_cases _ _ Hle) as [-> | [-> | [Ns Ns']]].
  - now apply SFleb_pinf.
  - now apply SFleb_ninf.
  - destruct Os as [Vs _], Os' as [Vs' _].
    apply (rounding_mono _ _ _ _ _ _ (-298) _ _
             (SFmul_rounding _ s' Vr Vs' eq_refl Ns')
             (SFmul_rounding _ s Vr Vs eq_refl Ns));
      try lia.
    apply (SFleb_ulps s s' Vs Vs' Ns Ns') in Hle.
    destruct (valid_finite_inv _ _ _ Vr) as (Er & _).
    pose proof (ulps_neg mr er ltac:(lia)).
    replace (-298 - -298) with 0 by lia. cbn [Z.pow]. nia.
Qed.

(** Division by a finite non-zero divisor. *)

Lemma SFdiv_ordered (sd : bool) (md : positive) (ed : Z) (p : spec_float) :
  valid32 (S754_finite sd md ed) = true -> ordered p ->
  ordered (SFdiv B32.prec B32.emax p (S754_finite sd md ed)).
Proof.
  intros Vd Op.
  destruct (ordered_cases p Op) as [-> | [-> | [Vp Np]]].
  - split; (reflexivity || discriminate).
  - split; (reflexivity || discriminate).
  - exact (rounding_ordered _ _ _ _ (SFdiv_rounding p sd md ed Vp Vd Np)).
Qed.

Lemma SFdiv_mono_pos (md : positive) (ed : Z) (p p' : spec_float) :
  valid32 (S754_finite false md ed) = true ->
  ordered p -> ordered p' -> SFleb p p' = true ->
  SFleb (SFdiv B32.prec B32.emax p (S754_finite false md ed))
        (SFdiv B32.prec B32.emax p' (S754_finite false md ed)) = true.
Proof.
  intros Vd Op Op' Hle.
  pose proof (SFdiv_ordered false md ed p Vd Op) as [_ N1].
  pose proof (SFdiv_ordered false md ed p' Vd Op') as [_ N2].
  destruct (SFleb_cases _ _ Hle) as [-> | [-> | [Np Np']]].
  - now apply SFleb_ninf.
  - now apply SFleb_pinf.
  - destruct Op as [Vp _], Op' as [Vp' _].
    apply (rounding_mono _ _ _ _ _ _ 0 _ _
             (SFdiv_rounding p false md ed Vp Vd Np)
             (SFdiv_rounding p' false md ed Vp' Vd Np'));
      try lia.
    apply (SFleb_ulps p p' Vp Vp' Np Np') in Hle.
    destruct (valid_finite_inv _ _ _ Vd) as (Ed & _).
    assert (0 < 2 ^ (ed + 149)) by (apply Z.pow_pos_nonneg; lia).
    assert (HD : 0 < Zpos md * 2 ^ (ed + 149)) by nia.
    set (D := Zpos md * 2 ^ (ed + 149)) in *.
    cbn [cond_Zopp]. replace (0 - 0) with 0 by lia. change (2 ^ 0) with 1.
    nia.
Qed.

Lemma SFdiv_anti_neg (md : positive) (ed : Z) (p p' : spec_float) :
  valid32 (S754_finite true md ed) = true ->
  ordered p -> ordered p' -> SFleb p p' = true ->
  SFleb (SFdiv B32.prec B32.emax p' (S754_finite true md ed))
        (SFdiv B32.prec B32.emax p (S754_finite true md ed)) = true.
Proof.
  intros Vd Op Op' Hle.
  pose proof (SFdiv_ordered true md ed p Vd Op) as [_ N1].
  pose proof (SFdiv_ordered true md ed p' Vd Op') as [_ N2].
  destruct (SFleb_cases _ _ Hle) as [-> | [-> | [Np Np']]].
  - now apply SFleb_pinf.
  - now apply SFleb_ninf.
  - destruct Op as [Vp _], Op' as [Vp' _].
    apply (rounding_mono _ _ _ _ _ _ 0 _ _
             (SFdiv_rounding p' true md ed Vp' Vd Np')
             (SFdiv_rounding p true md ed Vp Vd Np));
      try lia.
    apply (SFleb_ulps p p' Vp Vp' Np Np') in Hle.
    destruct (valid_finite_inv _ _ _ Vd) as (Ed & _).
    assert (0 < 2 ^ (ed + 149)) by (apply Z.pow_pos_nonneg; lia).
    assert (HD : 0 < Zpos md * 2 ^ (ed + 149)) by nia.
    set (D := Zpos md * 2 ^ (ed + 149)) in *.
    cbn [cond_Zopp]. replace (0 - 0) with 0 by lia. change (2 ^ 0) with 1.
    nia.
Qed.

(** *** Sums are never [-0] *)

Lemma finish_not_zero (sx s' : bool) (r E : Z) :
  0 < r -> finish sx r E <> S754_zero s'.
Proof.
  intros Hr. unfold finish. destruct r as [ | p | p]; try lia.
  destruct (Zpos p <? 2 ^ 24); [destruct (E <=? 104) | destruct (E + 1 <=? 104)];
    discriminate.
Qed.

(** From the smallest exponent up, a positive mantissa does not round to
    zero. *)
Lemma bra_not_zero (sx s' : bool) (m e : Z) :
  0 < m -> regime m e -> -149 <= e ->
  binary_round_aux B32.prec B32.emax sx m e loc_Exact <> S754_zero s'.
Proof.
  intros Hm Hr He. rewrite bra_spec by (assumption || lia).
  apply finish_not_zero.
  unfold regime in Hr. rewrite fexp32_eq in *.
  set (k := Z.max (Zdigits2 m + e - 24) (-149) - e) in *.
  cbn [loc_code].
  destruct (Z.eq_dec k 0) as [K0 | K0].
  - rewrite K0. change (2 ^ (0 + 1)) with 2. rewrite sticky_div_2 by lia.
    destruct (rne_key_bounds (4 * m + 0) ltac:(lia)) as [[Hl _] _].
    assert (m <= (4 * m + 0) / 4) by (apply Z.div_le_lower_bound; lia). lia.
  - assert (Hd : Zdigits2 m = 24 + k) by (unfold k in *; lia).
    pose proof (shifted_mantissa_normal m 0 k ltac:(lia) ltac:(lia) ltac:(lia) Hd) as H.
    change (2 ^ 23) with 8388608 in H. lia.
Qed.

Lemma binary_round_not_zero (sx s' : bool) (mx : positive) (ex : Z) :
  -149 <= ex -> binary_round B32.prec B32.emax sx mx ex <> S754_zero s'.
Proof.
  intros He. unfold binary_round, shl_align.
  set (E := fexp B32.prec B32.emax (Zpos (digits2_pos mx) + ex)).
  assert (HE : -149 <= E) by (unfold E; rewrite fexp32_eq; lia).
  destruct (E - ex) as [ | d | d] eqn:Hd.
  - apply bra_not_zero; [lia | | exact He].
    unfold regime. change (Zdigits2 (Zpos mx)) with (Zpos (digits2_pos mx)).
    fold E. lia.
  - apply bra_not_zero; [lia | | exact He].
    unfold regime. change (Zdigits2 (Zpos mx)) with (Zpos (digits2_pos mx)).
    fold E. lia.
  - assert (Hex : ex - E = Zpos d) by lia.
    assert (HP : 0 < 2 ^ Zpos d) by (apply Z.pow_pos_nonneg; lia).
    apply bra_not_zero; [rewrite pos_iter_xO; nia | | exact HE].
    unfold regime. rewrite pos_iter_xO, Zdigits2_shift by lia.
    change (Zdigits2 (Zpos mx)) with (Zpos (digits2_pos mx)).
    replace (Zpos (digits2_pos mx) + Zpos d + E) with (Zpos (digits2_pos mx) + ex) by lia.
    fold E. lia.
Qed.

Lemma binary_normalize_not_mzero (M e : Z) :
  -149 <= e -> binary_normalize B32.prec B32.emax M e false <> S754_zero true.
Proof.
  intros He. destruct M as [ | p | p]; cbn [binary_normalize].
  - discriminate.
  - now apply binary_round_not_zero.
  - now apply binary_round_not_zero.
Qed.

(** A sum whose first term is not [-0] is not [-0]. *)
Lemma SFadd_not_mzero (y p : spec_float) :
  valid32 y = true -> valid32 p = true -> y <> S754_zero true ->
  SFadd B32.prec B32.emax y p <> S754_zero true.
Proof.
  intros Vy Vp Hy.
  destruct y as [sy | sy | | sy my ey], p as [sp | sp | | sp mp ep]; cbn [SFadd];
    try discriminate;
    try (destruct sy, sp; discriminate).
  - destruct sy; [now elim Hy | destruct sp; discriminate].
  - destruct (valid_finite_inv _ _ _ Vy) as (Ey & _).
    destruct (valid_finite_inv _ _ _ Vp) as (Ep & _).
    apply binary_normalize_not_mzero.
    change (IntDef.Z.min ey ep) with (Z.min ey ep). lia.
Qed.

Lemma SFadd_valid (y p : spec_float) :
  valid32 y = true -> valid32 p = true ->
  valid32 (SFadd B32.prec B32.emax y p) = true.
Proof.
  intros Vy Vp.
  destruct y as [sy | sy | | sy my ey], p as [sp | sp | | sp mp ep]; cbn [SFadd];
    try reflexivity; try assumption;
    try (destruct sy, sp; reflexivity).
  apply binary_normalize_valid.
Qed.

Lemma SFmul_valid (x y : spec_float) :
  valid32 x = true -> valid32 y = true ->
  valid32 (SFmul B32.prec B32.emax x y) = true.
Proof.
  intros Vx Vy.
  destruct x as [sx | sx | | sx mx ex], y as [sy | sy | | sy my ey]; cbn [SFmul];
    try reflexivity.
  apply bra_valid; [lia | ]. apply (mul_regime mx my ex ey sx sy Vx Vy).
Qed.

(** Adding a zero to a value that is not [-0] changes nothing. *)
Lemma SFadd_zero_r (y : spec_float) (s : bool) :
  y <> S754_zero true -> SFadd B32.prec B32.emax y (S754_zero s) = y.
Proof.
  intros Hy. destruct y as [sy | sy | | sy my ey]; cbn [SFadd]; try reflexivity.
  destruct sy; [now elim Hy | destruct s; reflexivity].
Qed.

(** A term with a zero gain and a finite measurement does not count. *)
Lemma dot_step_zero (y x : spec_float) :
  y <> S754_zero true -> B32.isfinite x = true ->
  SFadd B32.prec B32.emax y (SFmul B32.prec B32.emax (S754_zero false) x) = y.
Proof.
  intros Hy Fx. destruct x as [sx | sx | | sx mx ex]; try discriminate Fx;
    cbn [SFmul]; now apply SFadd_zero_r.
Qed.

Lemma dot_step (y k x : spec_float) :
  valid32 y = true -> y <> S754_zero true ->
  valid32 k = true -> valid32 x = true ->
  valid32 (SFadd B32.prec B32.emax y (SFmul B32.prec B32.emax k x)) = true
  /\ SFadd B32.prec B32.emax y (SFmul B32.prec B32.emax k x) <> S754_zero true.
Proof.
  intros Vy Hy Vk Vx. pose proof (SFmul_valid k x Vk Vx) as Vp.
  split; [now apply SFadd_valid | now apply SFadd_not_mzero].
Qed.

End Rounding.

(** ** Landing gear *)

Section LandingGearProperties.

Import LandingGear.

(** One evaluation that starts uninitialised and does not see the switch in
    the off position returns gear down and stays uninitialised. *)
Lemma gear_step_not_off (i : gear_in) (init : bool) :
  (landed i = true \/ init = false) ->
  is_off (gear_switch i) = false ->
  get_landing_gear_state i init = (GEAR_DOWN, false).
Proof.
  intros Hinit Hoff. unfold get_landing_gear_state.
  assert (Hf : (if landed i then false else init) = false).
  { destruct Hinit as [-> | ->]; [reflexivity | now destruct (landed i)]. }
  rewrite Hf, andb_false_r, Hoff. reflexivity.
Qed.

Lemma gear_run_not_off (ins : list gear_in) :
  Forall (fun i => is_off (gear_switch i) = false) ins ->
  gear_run ins false = (repeat GEAR_DOWN (length ins), false).
Proof.
  induction 1 as [ | i rest Hi _ IH]; simpl; [reflexivity | ].
  rewrite (gear_step_not_off i false) by auto. now rewrite IH.
Qed.

(** The gear goes up only in an evaluation that finds the switch on and the
    state initialised. *)
Lemma gear_up_inv (i : gear_in) (init : bool) :
  fst (get_landing_gear_state i init) = GEAR_UP ->
  gear_switch i = SWITCH_POS_ON /\ landed i = false /\ init = true.
Proof.
  unfold get_landing_gear_state.
  destruct (gear_switch i), (landed i), init; simpl; intros E;
    try discriminate E; auto.
Qed.

(** C9: over any run of evaluations that begins with the vehicle landed and
    sees the gear switch in the on position at every evaluation, every
    returned landing-gear state is gear down: it never becomes up while the
    switch has not been through off. *)
Theorem landing_gear_stays_down_while_switch_on
    (first : gear_in) (rest : list gear_in) (init : bool) :
  landed first = true ->
  Forall (fun i => gear_switch i = SWITCH_POS_ON) (first :: rest) ->
  Forall (fun g => g = GEAR_DOWN) (fst (gear_run (first :: rest) init)).
Proof.
  intros Hland Hon.
  assert (Hoff : Forall (fun i => is_off (gear_switch i) = false) (first :: rest)).
  { eapply Forall_impl; [ | exact Hon]. intros i E. simpl in E. now rewrite E. }
  inversion Hoff as [ | ? ? Hfirst Hrest]; subst.
  cbn [gear_run].
  rewrite (gear_step_not_off first init) by auto.
  rewrite (gear_run_not_off rest Hrest). cbn [fst].
  constructor; [reflexivity | ].
  apply Forall_forall. intros g Hg. now apply repeat_spec in Hg.
Qed.

Lemma landing_gear_stays_down_witness :
  Forall (fun g => g = GEAR_DOWN) (fst (gear_run gear_held_on true)).
Proof.
  apply (@landing_gear_stays_down_while_switch_on
           {| landed := true; gear_switch := SWITCH_POS_ON |}
           (tl gear_held_on) true).
  - reflexivity.
  - repeat constructor.
Defined.

(** The switch does retract the gear once it has been through off in the
    air. *)
Example gear_up_after_off :
  fst (gear_run
         [ {| landed := true; gear_switch := SWITCH_POS_ON |};
           {| landed := false; gear_switch := SWITCH_POS_OFF |};
           {| landed := false; gear_switch := SWITCH_POS_ON |} ] false)
  = [GEAR_DOWN; GEAR_DOWN; GEAR_UP].
Proof. reflexivity. Qed.

End LandingGearProperties.

(** ** Throttle PID attenuation *)

Section PidAttenuationProperties.

Local Open Scope Z_scope.

Lemma fmaxf_fminf_bounds (lo hi x : B32.float32) :
  B32.isnan lo = false -> B32.isnan hi = false ->
  SFleb lo lo = true -> SFleb hi hi = true -> SFleb lo hi = true ->
  let r := fmaxf lo (fminf hi x) in
  SFleb lo r = true /\ SFleb r hi = true /\ B32.isnan r = false.
Proof.
  intros Hlo Hhi Hll Hhh Hlh. cbv zeta. unfold fmaxf, fminf.
  cbn [flt fisnan b32_ops]. rewrite Hlo, Hhi.
  destruct (B32.isnan x) eqn:Hx.
  - (* the minimum drops the NaN *)
    rewrite Hhi. destruct (SFltb lo hi); repeat split; assumption.
  - destruct (SFltb x hi) eqn:Exh.
    + rewrite Hx. destruct (SFltb lo x) eqn:Elx.
      * repeat split; [now apply SFltb_SFleb | now apply SFltb_SFleb | exact Hx].
      * repeat split; assumption.
    + rewrite Hhi. destruct (SFltb lo hi); repeat split; assumption.
Qed.

(** Every number lies between the largest binary32 number and its
    opposite. *)
Lemma number_bounds (x : spec_float) :
  valid32 x = true -> B32.isfinite x = true ->
  SFleb (SFopp max_float) x = true /\ SFleb x max_float = true.
Proof.
  intros V N.
  assert (B : - ulps max_float <= ulps x <= ulps max_float).
  { destruct x as [s | s | | s m e]; try discriminate.
    - cbn. lia.
    - destruct (valid_finite_inv _ _ _ V) as (He & Hm & _).
      unfold max_float. rewrite !ulps_finite. cbn [cond_Zopp].
      assert (0 < 2 ^ (e + 149)) by (apply Z.pow_pos_nonneg; lia).
      assert (2 ^ (e + 149) <= 2 ^ (104 + 149)) by (apply Z.pow_le_mono_r; lia).
      change (2 ^ 24) with 16777216 in Hm.
      destruct s; cbn [cond_Zopp]; nia. }
  split.
  - apply SFleb_ulps; try reflexivity; try assumption. rewrite ulps_opp. lia.
  - apply SFleb_ulps; try reflexivity; try assumption. lia.
Qed.

(** What is at most a number is a number or [-inf]; what is at least a
    number is a number or [+inf]. *)
Lemma SFleb_number_r (x y : spec_float) :
  ordered x -> SFleb x y = true -> B32.isfinite y = true ->
  x = S754_infinity true \/ B32.isfinite x = true.
Proof.
  intros [_ N] H Ny.
  destruct x as [sx | [ | ] | | sx mx ex]; auto.
  destruct y as [sy | sy | | sy my ey]; try discriminate Ny; discriminate H.
Qed.

Lemma SFleb_number_l (x y : spec_float) :
  ordered y -> SFleb x y = true -> B32.isfinite x = true ->
  y = S754_infinity false \/ B32.isfinite y = true.
Proof.
  intros [_ N] H Nx.
  destruct y as [sy | [ | ] | | sy my ey]; auto.
  destruct x as [sx | sx | | sx mx ex]; try discriminate Nx; try discriminate H;
    destruct sx; discriminate H.
Qed.

(** [1 - bp] is a number for every number [bp]. *)
Lemma one_minus_number (bp : spec_float) :
  valid32 bp = true -> B32.isfinite bp = true ->
  valid32 (SFsub B32.prec B32.emax (B32.dec 1 0) bp) = true
  /\ B32.isfinite (SFsub B32.prec B32.emax (B32.dec 1 0) bp) = true.
Proof.
  intros V N.
  destruct (number_bounds bp V N) as [Hlo Hhi].
  assert (V1 : valid32 (B32.dec 1 0) = true) by reflexivity.
  assert (N1 : B32.isfinite (B32.dec 1 0) = true) by reflexivity.
  pose proof (ordered_number bp V N) as Ob.
  pose proof (SFsub_ordered_r _ bp V1 N1 Ob) as Od.
  split; [apply Od | ].
  assert (Omax : ordered max_float) by (split; [reflexivity | discriminate]).
  assert (Omin : ordered (SFopp max_float)) by (split; [reflexivity | discriminate]).
  pose proof (SFsub_anti_r _ _ _ V1 N1 Omin Ob Hlo) as Hup.
  pose proof (SFsub_anti_r _ _ _ V1 N1 Ob Omax Hhi) as Hdown.
  assert (E1 : SFsub B32.prec B32.emax (B32.dec 1 0) (SFopp max_float) = max_float)
    by (vm_compute; reflexivity).
  assert (E2 : SFsub B32.prec B32.emax (B32.dec 1 0) max_float = SFopp max_float)
    by (vm_compute; reflexivity).
  rewrite E1 in Hup. rewrite E2 in Hdown.
  destruct (SFleb_number_r _ _ Od Hup eq_refl) as [E | E]; [ | exact E].
  rewrite E in Hdown. discriminate Hdown.
Qed.

Lemma SFabs_valid (x : spec_float) : valid32 (SFabs x) = valid32 x.
Proof. destruct x; reflexivity. Qed.

Lemma SFabs_nonneg (x : spec_float) : SFabs x <> S754_nan -> nonneg_shape (SFabs x) = true.
Proof. destruct x; cbn; intros H; try reflexivity. now elim H. Qed.

(** *** The clamp [fmaxf(lo, fminf(1, x))] *)

(** [fminf] drops a NaN, so the clamp of NaN is 1. *)
Lemma tpa_clamp_nan :
  fmaxf (fdec 5 2) (fminf fone (S754_nan : B32.float32)) = (fone : B32.float32).
Proof. vm_compute. reflexivity. Qed.

Lemma tpa_clamp_le_one (x : B32.float32) :
  SFleb (fmaxf (fdec 5 2) (fminf fone x)) (fone : B32.float32) = true
  /\ fmaxf (fdec 5 2) (fminf fone x) <> (S754_nan : B32.float32).
Proof.
  destruct (fmaxf_fminf_bounds (fdec 5 2) fone x) as (H1 & H2 & H3);
    try reflexivity.
  split; [exact H2 | ]. intros E. rewrite E in H3. discriminate H3.
Qed.

(** From 1 up, the clamp is 1. *)
Lemma tpa_clamp_top (x : B32.float32) :
  SFleb (fone : B32.float32) x = true ->
  fmaxf (fdec 5 2) (fminf fone x) = (fone : B32.float32).
Proof.
  intros H. destruct (SFleb_not_nan _ _ H) as [_ Nx].
  unfold fminf. cbn [fisnan flt b32_ops].
  change (B32.isnan fone) with false.
  replace (B32.isnan x) with false by (destruct x; try reflexivity; now elim Nx).
  rewrite (SFltb_of_SFleb _ _ H). vm_compute. reflexivity.
Qed.

(** A value that compares equal to a finite non-zero one is that one. *)
Lemma SFcompare_Eq_finite (x : spec_float) (s : bool) (m : positive) (e : Z) :
  SFcompare x (S754_finite s m e) = Some Eq -> x = S754_finite s m e.
Proof.
  destruct x as [sx | sx | | sx mx ex]; cbn.
  - destruct s; discriminate.
  - destruct sx; discriminate.
  - discriminate.
  - destruct sx, s; try discriminate;
      destruct (Z.compare_spec ex e) as [He | He | He]; try discriminate;
      change (Pos.compare_cont Eq mx m) with (Pos.compare mx m);
      destruct (Pos.compare_spec mx m) as [Hm | Hm | Hm]; cbn; try discriminate;
      intros _; now subst.
Qed.

(** On every value but NaN the code's clamp is the spec's. *)
Lemma tpa_clamp_spec (x : B32.float32) :
  x <> S754_nan ->
  fmaxf (fdec 5 2) (fminf fone x) = clamp x (fdec 5 2) fone.
Proof.
  intros Nx. unfold fmaxf, fminf, clamp. cbn [fisnan flt b32_ops].
  set (lo := @fdec B32.float32 b32_ops 5 2).
  set (one := @fone B32.float32 b32_ops).
  change (B32.isnan one) with false. change (B32.isnan lo) with false.
  replace (B32.isnan x) with false by (destruct x; try reflexivity; now elim Nx).
  assert (Hlo1 : SFltb lo one = true) by reflexivity.
  assert (Nlo : lo <> S754_nan) by discriminate.
  assert (N1 : one <> S754_nan) by discriminate.
  destruct (SFltb x lo) eqn:Exlo.
  - (* below the lower limit *)
    rewrite (SFltb_leb_trans _ _ _ Exlo (SFltb_SFleb _ _ Hlo1)).
    replace (B32.isnan x) with false by (destruct x; try reflexivity; now elim Nx).
    rewrite (SFltb_of_SFleb _ _ (SFltb_SFleb _ _ Exlo)). reflexivity.
  - destruct (SFltb one x) eqn:E1x.
    + (* above 1 *)
      rewrite (SFltb_of_SFleb _ _ (SFltb_SFleb _ _ E1x)).
      change (B32.isnan one) with false. rewrite Hlo1. reflexivity.
    + destruct (SFltb x one) eqn:Ex1.
      * replace (B32.isnan x) with false by (destruct x; try reflexivity; now elim Nx).
        destruct (SFltb lo x) eqn:Elox; [reflexivity | ].
        (* neither below nor above the lower limit: it is the lower limit *)
        symmetry. apply (SFcompare_Eq_finite x false 13421773 (-28)).
        change (S754_finite false 13421773 (-28)) with lo.
        unfold SFltb in Exlo, Elox. rewrite (SFcompare_antisym x lo) in Elox.
        destruct (SFcompare x lo) as [[ | | ] | ] eqn:E; try discriminate;
          try reflexivity.
        destruct (SFcompare_None _ _ E) as [K | K]; [ | discriminate K].
        destruct x; try discriminate K. now elim Nx.
      * change (B32.isnan one) with false. rewrite Hlo1.
        symmetry. apply (SFcompare_Eq_finite x false 8388608 (-23)).
        change (S754_finite false 8388608 (-23)) with one.
        unfold SFltb in E1x, Ex1. rewrite (SFcompare_antisym x one) in E1x.
        destruct (SFcompare x one) as [[ | | ] | ] eqn:E; try discriminate;
          try reflexivity.
        destruct (SFcompare_None _ _ E) as [K | K]; [ | discriminate K].
        destruct x; try discriminate K. now elim Nx.
Qed.

(** The clamp is monotone. *)
Lemma tpa_clamp_mono (x x' : B32.float32) :
  SFleb x x' = true ->
  SFleb (fmaxf (fdec 5 2) (fminf fone x)) (fmaxf (fdec 5 2) (fminf fone x')) = true.
Proof.
  intros Hle. destruct (SFleb_not_nan _ _ Hle) as [Nx Nx'].
  rewrite !tpa_clamp_spec by assumption. unfold clamp. cbn [flt b32_ops].
  set (lo := @fdec B32.float32 b32_ops 5 2).
  set (one := @fone B32.float32 b32_ops).
  assert (Hlo1 : SFleb lo one = true) by reflexivity.
  assert (Nlo : lo <> S754_nan) by discriminate.
  assert (N1 : one <> S754_nan) by discriminate.
  destruct (SFltb x lo) eqn:E1.
  - destruct (SFltb x' lo) eqn:E2; [reflexivity | ].
    destruct (SFltb one x') eqn:E3; [exact Hlo1 | ].
    rewrite SFltb_negb_SFleb in E2 by assumption.
    now destruct (SFleb lo x').
  - assert (E2 : SFltb x' lo = false).
    { destruct (SFltb x' lo) eqn:E; [ | reflexivity].
      now rewrite (SFleb_ltb_trans _ _ _ Hle E) in E1. }
    rewrite E2.
    destruct (SFltb one x) eqn:E3.
    + rewrite (SFltb_leb_trans _ _ _ E3 Hle). reflexivity.
    + destruct (SFltb one x') eqn:E4; [ | exact Hle].
      rewrite SFltb_negb_SFleb in E3 by assumption.
      now destruct (SFleb x one).
Qed.

Lemma tpa_factor_unclamped (t bp rate : B32.float32) :
  tpa_factor t bp rate = fmaxf (fdec 5 2) (fminf fone (tpa_unclamped t bp rate)).
Proof. reflexivity. Qed.

(** The factor 1 is the largest there is: where the smaller thrust gives
    NaN or at least 1 under the clamp, nothing is left to prove. *)
Lemma tpa_le_of_top (x x' : B32.float32) :
  x = S754_nan \/ SFleb (fone : B32.float32) x = true ->
  SFleb (fmaxf (fdec 5 2) (fminf fone x')) (fmaxf (fdec 5 2) (fminf fone x)) = true.
Proof.
  intros [-> | H].
  - rewrite tpa_clamp_nan. apply tpa_clamp_le_one.
  - rewrite (tpa_clamp_top x H). apply tpa_clamp_le_one.
Qed.

Lemma tpa_le_of_eq (x x' : B32.float32) :
  x' = x ->
  SFleb (fmaxf (fdec 5 2) (fminf fone x')) (fmaxf (fdec 5 2) (fminf fone x)) = true.
Proof.
  intros ->. apply SFleb_refl. apply tpa_clamp_le_one.
Qed.

(** The sign of a product with a finite factor. *)
Lemma SFmul_shape (sr : bool) (mr : positive) (er : Z) (s : spec_float) :
  valid32 (S754_finite sr mr er) = true -> ordered s -> nonneg_shape s = true ->
  if sr then nonpos_shape (SFmul B32.prec B32.emax (S754_finite sr mr er) s) = true
  else nonneg_shape (SFmul B32.prec B32.emax (S754_finite sr mr er) s) = true.
Proof.
  intros Vr Os Ps.
  destruct (valid_finite_inv _ _ _ Vr) as (Er & _).
  destruct (ordered_cases s Os) as [-> | [-> | [Vs Ns]]].
  - discriminate Ps.
  - destruct sr; reflexivity.
  - pose proof (nonneg_shape_ulps s Ps) as H0.
    destruct (rounding_shape _ _ _ _ (SFmul_rounding _ s Vr Vs eq_refl Ns))
      as (_ & Hp & Hn & _).
    destruct sr.
    + apply Hn. pose proof (ulps_neg mr er ltac:(lia)). nia.
    + apply Hp. pose proof (ulps_pos mr er ltac:(lia)). nia.
Qed.

(** Above the breakpoint the difference is not negative. *)
Lemma SFsub_nonneg (a bp : spec_float) :
  ordered a -> valid32 bp = true -> B32.isfinite bp = true ->
  SFleb bp a = true -> nonneg_shape (SFsub B32.prec B32.emax a bp) = true.
Proof.
  intros Oa Vb Nb Hle.
  destruct (SFleb_number_l _ _ Oa Hle Nb) as [-> | Na].
  - destruct bp; try discriminate; reflexivity.
  - destruct Oa as [Va _].
    destruct (rounding_shape _ _ _ _ (SFsub_rounding a bp Va Vb Na Nb))
      as (_ & Hp & _).
    apply Hp. apply (SFleb_ulps bp a Vb Va Nb Na) in Hle. lia.
Qed.

(** Above a non-zero value of its sign there are only non-zero values of
    that sign. *)
Lemma above_positive (p p' : spec_float) :
  nonneg_shape p = true -> nonneg_shape p' = true -> SFleb p p' = true ->
  (forall s, p <> S754_zero s) ->
  (exists m e, p' = S754_finite false m e) \/ p' = S754_infinity false.
Proof.
  intros Pp Pp' Hle Hnz.
  destruct p' as [s' | [ | ] | | [ | ] m' e']; try discriminate Pp'; eauto.
  exfalso.
  destruct p as [s | [ | ] | | [ | ] m e]; try discriminate Pp;
    try discriminate Hle. now elim (Hnz s).
Qed.

Lemma below_negative (p p' : spec_float) :
  nonpos_shape p = true -> nonpos_shape p' = true -> SFleb p' p = true ->
  (forall s, p <> S754_zero s) ->
  (exists m e, p' = S754_finite true m e) \/ p' = S754_infinity true.
Proof.
  intros Pp Pp' Hle Hnz.
  destruct p' as [s' | [ | ] | | [ | ] m' e']; try discriminate Pp'; eauto.
  exfalso.
  destruct p as [s | [ | ] | | [ | ] m e]; try discriminate Pp;
    try discriminate Hle; try (destruct s'; discriminate Hle). now elim (Hnz s).
Qed.

(** The attenuation does not increase when [|thrust_sp|] grows above the
    breakpoint: on numbers each operation is monotone, and where the
    larger thrust gives NaN or an infinity the smaller one already gives
    the factor 1 or the same value. *)
Lemma tpa_chain (bp rate a a' : B32.float32) :
  valid32 bp = true -> valid32 rate = true ->
  valid32 a = true -> valid32 a' = true ->
  nonneg_shape a = true -> nonneg_shape a' = true ->
  SFleb bp a = true -> SFleb a a' = true ->
  SFleb (tpa_of_abs bp rate a') (tpa_of_abs bp rate a) = true.
Proof.
  intros Vb Vr Va Va' Pa Pa' Hba Haa'.
  unfold tpa_of_abs. cbn [fsub fmul fdiv b32_ops].
  set (one := @fone B32.float32 b32_ops).
  assert (Oa : ordered a) by (split; [exact Va | apply (SFleb_not_nan _ _ Haa')]).
  assert (Oa' : ordered a') by (split; [exact Va' | apply (SFleb_not_nan _ _ Haa')]).
  assert (Hba' : SFleb bp a' = true) by (apply (SFleb_trans _ _ _ Hba Haa')).
  destruct (B32.isfinite bp) eqn:Nb.
  2:{ (* an infinite breakpoint: both thrusts give the same value *)
      apply tpa_le_of_eq.
      destruct bp as [sb | [ | ] | | sb mb eb]; try discriminate Nb.
      - destruct a as [sa | [ | ] | | [ | ] ma ea]; try discriminate Pa;
          destruct a' as [sa' | [ | ] | | [ | ] ma' ea']; try discriminate Pa';
          reflexivity.
      - destruct a as [sa | [ | ] | | [ | ] ma ea]; try discriminate Pa;
          try discriminate Hba; try (destruct sa; discriminate Hba).
        destruct a' as [sa' | [ | ] | | [ | ] ma' ea']; try discriminate Pa';
          try discriminate Haa'. reflexivity.
      - discriminate Hba. }
  (* the breakpoint is a number *)
  assert (V1 : valid32 one = true) by reflexivity.
  assert (N1 : B32.isfinite one = true) by reflexivity.
  pose proof (SFsub_ordered_l a bp Oa Vb Nb) as Os.
  pose proof (SFsub_ordered_l a' bp Oa' Vb Nb) as Os'.
  pose proof (SFsub_mono_l a a' bp Oa Oa' Vb Nb Haa') as Hss'.
  pose proof (SFsub_nonneg a bp Oa Vb Nb Hba) as Ps.
  pose proof (SFsub_nonneg a' bp Oa' Vb Nb Hba') as Ps'.
  destruct (one_minus_number bp Vb Nb) as [Vd Nd].
  change (B32.dec 1 0) with one in Vd, Nd.
  set (s := SFsub B32.prec B32.emax a bp) in *.
  set (s' := SFsub B32.prec B32.emax a' bp) in *.
  set (d := SFsub B32.prec B32.emax one bp) in *.
  clearbody s s' d.
  assert (Oz : forall z, ordered (S754_zero z)) by (intros z; split; [reflexivity | discriminate]).
  assert (Hzs : SFleb (S754_zero false) s = true)
    by (apply SFleb_nonpos_nonneg; [reflexivity | exact Ps]).
  destruct rate as [sr | sr | | sr mr er].
  - (* a zero rate: the factor is 1 *)
    apply tpa_le_of_top.
    destruct s as [ss | [ | ] | | [ | ] ms es]; try discriminate Ps;
      try (left; reflexivity);
      destruct d as [sd | sd | | sd md ed]; try discriminate Nd;
      try (left; reflexivity); right; reflexivity.
  - (* an infinite rate *)
    destruct s as [ss | [ | ] | | [ | ] ms es]; try discriminate Ps.
    + apply tpa_le_of_top. left. reflexivity.
    + apply tpa_le_of_eq.
      destruct (above_positive _ _ Ps Ps' Hss') as [(m' & e' & ->) | ->];
        [discriminate | reflexivity | reflexivity].
    + apply tpa_le_of_eq.
      destruct (above_positive _ _ Ps Ps' Hss') as [(m' & e' & ->) | ->];
        [discriminate | reflexivity | reflexivity].
  - (* a rate of NaN *)
    apply tpa_le_of_top. left. reflexivity.
  - (* a finite rate *)
    pose proof (SFmul_ordered sr mr er s Vr Os) as Op.
    pose proof (SFmul_ordered sr mr er s' Vr Os') as Op'.
    pose proof (SFmul_shape sr mr er s Vr Os Ps) as Sp.
    pose proof (SFmul_shape sr mr er s' Vr Os' Ps') as Sp'.
    destruct d as [sd | sd | | sd md ed]; try discriminate Nd.
    + (* breakpoint 1: the divisor is zero *)
      destruct sr.
      * pose proof (SFmul_anti_neg mr er s s' Vr Os Os' Hss') as Hpp'.
        set (p := SFmul B32.prec B32.emax (S754_finite true mr er) s) in *.
        set (p' := SFmul B32.prec B32.emax (S754_finite true mr er) s') in *.
        clearbody p p'.
        destruct p as [sp | [ | ] | | [ | ] mp ep]; try discriminate Sp.
        -- apply tpa_le_of_top. left. reflexivity.
        -- apply tpa_le_of_eq.
           destruct (below_negative _ _ Sp Sp' Hpp') as [(m' & e' & ->) | ->];
             [discriminate | reflexivity | reflexivity].
        -- apply tpa_le_of_eq.
           destruct (below_negative _ _ Sp Sp' Hpp') as [(m' & e' & ->) | ->];
             [discriminate | reflexivity | reflexivity].
      * pose proof (SFmul_mono_pos mr er s s' Vr Os Os' Hss') as Hpp'.
        set (p := SFmul B32.prec B32.emax (S754_finite false mr er) s) in *.
        set (p' := SFmul B32.prec B32.emax (S754_finite false mr er) s') in *.
        clearbody p p'.
        destruct p as [sp | [ | ] | | [ | ] mp ep]; try discriminate Sp.
        -- apply tpa_le_of_top. left. reflexivity.
        -- apply tpa_le_of_eq.
           destruct (above_positive _ _ Sp Sp' Hpp') as [(m' & e' & ->) | ->];
             [discriminate | reflexivity | reflexivity].
        -- apply tpa_le_of_eq.
           destruct (above_positive _ _ Sp Sp' Hpp') as [(m' & e' & ->) | ->];
             [discriminate | reflexivity | reflexivity].
    + (* the divisor is a non-zero number *)
      pose proof (SFdiv_ordered sd md ed _ Vd Op) as Oq.
      pose proof (SFdiv_ordered sd md ed _ Vd Op') as Oq'.
      destruct sr, sd.
      * (* rate < 0, divisor < 0 *)
        pose proof (SFmul_anti_neg mr er s s' Vr Os Os' Hss') as Hpp'.
        pose proof (SFdiv_anti_neg md ed _ _ Vd Op' Op Hpp') as Hqq'.
        apply tpa_clamp_mono.
        apply (SFsub_anti_r one _ _ V1 N1 Oq Oq' Hqq').
      * (* rate < 0, divisor > 0: the quotient is not above zero *)
        apply tpa_le_of_top. right.
        pose proof (SFmul_anti_neg mr er _ s Vr (Oz false) Os Hzs) as Hp0.
        pose proof (SFdiv_mono_pos md ed _ _ Vd Op (SFmul_ordered true mr er _ Vr (Oz false)) Hp0) as Hq0.
        pose proof (SFsub_anti_r one _ _ V1 N1 Oq
                      (SFdiv_ordered false md ed _ Vd (SFmul_ordered true mr er _ Vr (Oz false)))
                      Hq0) as Hx.
        exact Hx.
      * (* rate > 0, divisor < 0 *)
        apply tpa_le_of_top. right.
        pose proof (SFmul_mono_pos mr er _ s Vr (Oz false) Os Hzs) as Hp0.
        pose proof (SFdiv_anti_neg md ed _ _ Vd (SFmul_ordered false mr er _ Vr (Oz false)) Op Hp0) as Hq0.
        pose proof (SFsub_anti_r one _ _ V1 N1 Oq
                      (SFdiv_ordered true md ed _ Vd (SFmul_ordered false mr er _ Vr (Oz false)))
                      Hq0) as Hx.
        exact Hx.
      * (* rate > 0, divisor > 0 *)
        pose proof (SFmul_mono_pos mr er s s' Vr Os Os' Hss') as Hpp'.
        pose proof (SFdiv_mono_pos md ed _ _ Vd Op Op' Hpp') as Hqq'.
        apply tpa_clamp_mono.
        apply (SFsub_anti_r one _ _ V1 N1 Oq Oq' Hqq').
Qed.

(** C7, as the code has it: in binary32, for every thrust setpoint,
    breakpoint and rate, the roll and pitch entries of [pid_attenuations]
    equal clamp(1 - rate (|thrust_sp| - breakpoint) / (1 - breakpoint),
    0.05, 1) whenever that expression is not NaN, and are 1 when it is NaN;
    they lie in [0.05, 1]; they do not increase when |thrust_sp| grows
    above the breakpoint; and the yaw entry is exactly 1.  Every operation
    is that of binary32, rounding, the infinities and NaN included;
    [valid32] holds of every binary32 value. *)
Theorem pid_attenuations_tpa (thrust_sp bp rate : B32.float32) :
  valid32 thrust_sp = true -> valid32 bp = true -> valid32 rate = true ->
  let a := pid_attenuations thrust_sp bp rate in
  let x := tpa_unclamped thrust_sp bp rate in
  (fisnan x = false -> vget a AXIS_INDEX_ROLL = spec_tpa thrust_sp bp rate)
  /\ (fisnan x = true -> vget a AXIS_INDEX_ROLL = fone)
  /\ vget a AXIS_INDEX_PITCH = vget a AXIS_INDEX_ROLL
  /\ (fdec 5 2 <=? vget a AXIS_INDEX_ROLL)%fl = true
  /\ (vget a AXIS_INDEX_ROLL <=? fone)%fl = true
  /\ vget a AXIS_INDEX_YAW = fone
  /\ (forall thrust_sp' : B32.float32,
        valid32 thrust_sp' = true ->
        (bp <=? fabsf thrust_sp)%fl = true ->
        (fabsf thrust_sp <=? fabsf thrust_sp')%fl = true ->
        (vget (pid_attenuations thrust_sp' bp rate) AXIS_INDEX_ROLL
         <=? vget a AXIS_INDEX_ROLL)%fl = true).
Proof.
  intros Vt Vb Vr. cbv zeta.
  change (vget (pid_attenuations thrust_sp bp rate) AXIS_INDEX_ROLL)
    with (tpa_factor thrust_sp bp rate).
  change (vget (pid_attenuations thrust_sp bp rate) AXIS_INDEX_PITCH)
    with (tpa_factor thrust_sp bp rate).
  change (vget (pid_attenuations thrust_sp bp rate) AXIS_INDEX_YAW)
    with (fone : B32.float32).
  rewrite tpa_factor_unclamped.
  set (x := tpa_unclamped thrust_sp bp rate).
  destruct (fmaxf_fminf_bounds (fdec 5 2) fone x) as (H1 & H2 & H3);
    try reflexivity.
  split; [ | split; [ | split; [reflexivity | split; [exact H1 | split; [exact H2 | split; [reflexivity | ]]]]]].
  - intros Hx. unfold spec_tpa.
    change (fmaxf (fdec 5 2) (fminf fone x) = clamp x (fdec 5 2) fone).
    apply tpa_clamp_spec. intros E. rewrite E in Hx. discriminate Hx.
  - intros Hx. destruct x; try discriminate Hx. apply tpa_clamp_nan.
  - intros t' Vt' Hb Hle.
    change (vget (pid_attenuations t' bp rate) AXIS_INDEX_ROLL)
      with (tpa_factor t' bp rate).
    rewrite tpa_factor_unclamped.
    cbn [fle fabsf b32_ops] in Hb, Hle.
    destruct (SFleb_not_nan _ _ Hle) as [Na Na'].
    apply (tpa_chain bp rate (SFabs thrust_sp) (SFabs t')); try assumption.
    + now rewrite SFabs_valid.
    + now rewrite SFabs_valid.
    + now apply SFabs_nonneg.
    + now apply SFabs_nonneg.
Qed.

End PidAttenuationProperties.

Lemma pid_attenuations_tpa_witness :
  (vget (pid_attenuations (Scenario.f32 9 1) (Scenario.f32 5 1) (Scenario.f32 5 1))
        AXIS_INDEX_ROLL
   <=? vget (pid_attenuations (Scenario.f32 7 1) (Scenario.f32 5 1) (Scenario.f32 5 1))
         AXIS_INDEX_ROLL)%fl = true.
Proof.
  refine (proj2 (proj2 (proj2 (proj2 (proj2 (proj2
    (pid_attenuations_tpa (Scenario.f32 7 1) (Scenario.f32 5 1) (Scenario.f32 5 1)
       _ _ _))))))
    (Scenario.f32 9 1) _ _ _); vm_compute; reflexivity.
Defined.

(** C7, the claim as stated fails: with a thrust setpoint of 0.5, a
    breakpoint of 1 and a rate of 0 the expression under the clamp is
    -0/0, NaN in binary32; the clamp of the spec keeps the NaN, and the
    code returns 1 because [fminf] drops it. *)
Lemma tpa_of_nan_is_one :
  tpa_unclamped (Scenario.f32 5 1) (Scenario.f32 1 0) (Scenario.f32 0 0) = B32.nan
  /\ spec_tpa (Scenario.f32 5 1) (Scenario.f32 1 0) (Scenario.f32 0 0) = B32.nan
  /\ vget (pid_attenuations (Scenario.f32 5 1) (Scenario.f32 1 0) (Scenario.f32 0 0))
          AXIS_INDEX_ROLL = Scenario.f32 1 0
  /\ vget (pid_attenuations (Scenario.f32 5 1) (Scenario.f32 1 0) (Scenario.f32 0 0))
          AXIS_INDEX_ROLL
     <> spec_tpa (Scenario.f32 5 1) (Scenario.f32 1 0) (Scenario.f32 0 0).
Proof. vm_compute. repeat split; discriminate. Qed.

(** ** Sensor correction pipeline *)

Section SensorCorrectionProperties.

Context {F : Type} `{FloatOps F}.

Lemma poll_gyro_count (msg : option (sensor_correction_s F)) (s : gyro_selection F) :
  _gyro_count (sensor_correction_poll msg s) = _gyro_count s.
Proof. reflexivity. Qed.

Lemma poll_all_gyro_count (msgs : list (option (sensor_correction_s F))) :
  forall s : gyro_selection F, _gyro_count (poll_all msgs s) = _gyro_count s.
Proof.
  unfold poll_all. induction msgs as [ | m msgs IH]; intros s; simpl.
  - reflexivity.
  - now rewrite IH.
Qed.

(** The selected instance always has a subscription. *)
Lemma poll_selected_in_range (msg : option (sensor_correction_s F)) (s : gyro_selection F) :
  (_selected_gyro s < _gyro_count s)%N ->
  (_selected_gyro (sensor_correction_poll msg s) < _gyro_count s)%N.
Proof.
  intros Hs. unfold sensor_correction_poll. cbn [_selected_gyro].
  destruct (N.ltb_spec
              (selected_gyro_instance
                 match msg with Some m => m | None => _sensor_correction s end)
              (_gyro_count s)); assumption.
Qed.

Lemma poll_all_selected_in_range (msgs : list (option (sensor_correction_s F))) :
  forall s : gyro_selection F, (_selected_gyro s < _gyro_count s)%N ->
            (_selected_gyro (poll_all msgs s) < _gyro_count s)%N.
Proof.
  unfold poll_all. induction msgs as [ | m msgs IH]; intros s Hs; simpl.
  - exact Hs.
  - rewrite <- (poll_gyro_count m s). apply IH. rewrite poll_gyro_count.
    now apply poll_selected_in_range.
Qed.

Lemma init_selected_in_range (group_count : N) :
  (_selected_gyro (gyro_selection_init (F := F) group_count)
   < _gyro_count (gyro_selection_init group_count))%N
  /\ (_gyro_count (gyro_selection_init group_count) <= MAX_GYRO_COUNT)%N.
Proof.
  unfold gyro_selection_init, MAX_GYRO_COUNT. cbn.
  destruct (N.eqb_spec (N.min group_count 3) 0); lia.
Qed.

Lemma corrected_rates_spec (sel : N) (g : sensor_gyro_s F) sc R b :
  (sel < MAX_GYRO_COUNT)%N ->
  corrected_rates sel g sc R b = spec_corrected_rates sel g sc R b.
Proof.
  unfold MAX_GYRO_COUNT. intros Hsel.
  assert (Hcases : sel = 0%N \/ sel = 1%N \/ sel = 2%N) by lia.
  destruct Hcases as [-> | [-> | ->]]; reflexivity.
Qed.

Lemma poll_all_no_valid_report (n : N) (msgs : list (option (sensor_correction_s F))) :
  Forall (no_valid_report n) msgs ->
  forall s : gyro_selection F,
    _gyro_count s = n ->
    _selected_gyro s = 0%N ->
    (selected_gyro_instance (_sensor_correction s) = 0%N
     \/ (n <= selected_gyro_instance (_sensor_correction s))%N) ->
    _selected_gyro (poll_all msgs s) = 0%N.
Proof.
  unfold poll_all. induction 1 as [ | m msgs Hm _ IH]; intros s Hn H0 Hsc; simpl.
  - exact H0.
  - apply IH.
    + rewrite poll_gyro_count. exact Hn.
    + unfold sensor_correction_poll. cbn [_selected_gyro]. rewrite Hn.
      destruct m as [c | ]; simpl in Hm.
      * destruct (N.ltb_spec (selected_gyro_instance c) n); [lia | exact H0].
      * destruct (N.ltb_spec (selected_gyro_instance (_sensor_correction s)) n);
          [ | exact H0].
        destruct Hsc; [assumption | lia].
    + unfold sensor_correction_poll. cbn [_sensor_correction].
      destruct m as [c | ]; simpl in Hm; [right; exact Hm | exact Hsc].
Qed.

(** C6, as the code has it: for every gyro sample, whatever messages the
    poll has seen since start-up, the corrected body rate is the board
    rotation applied to (raw - offset[selected]) * scale[selected] per axis,
    minus the in-run bias; a poll that finds a valid reported instance
    selects it, and a poll that finds an invalid one (not less than the
    instance count) keeps the instance selected before, which is instance 0
    only while no valid selection has arrived. *)
Theorem gyro_pipeline_keeps_last_valid_selection
    (group_count : N) (msgs : list (option (sensor_correction_s F)))
    (g : sensor_gyro_s F) (R : mat F) (b : sensor_bias_s F) :
  let s := poll_all msgs (gyro_selection_init group_count) in
  corrected_rates (_selected_gyro s) g (_sensor_correction s) R b
  = spec_corrected_rates (_selected_gyro s) g (_sensor_correction s) R b
  /\ (forall msg : option (sensor_correction_s F),
        let s' := sensor_correction_poll msg s in
        let reported := selected_gyro_instance (_sensor_correction s') in
        ((reported < _gyro_count s)%N -> _selected_gyro s' = reported)
        /\ ((_gyro_count s <= reported)%N -> _selected_gyro s' = _selected_gyro s))
  /\ (Forall (no_valid_report (_gyro_count s)) msgs -> _selected_gyro s = 0%N).
Proof.
  cbv zeta.
  destruct (init_selected_in_range group_count) as [Hsel Hmax].
  split; [ | split].
  - apply corrected_rates_spec.
    pose proof (poll_all_selected_in_range msgs _ Hsel). lia.
  - intros msg. unfold sensor_correction_poll. cbn [_selected_gyro _sensor_correction].
    set (sc := match msg with Some m => m | None => _ end).
    destruct (N.ltb_spec (selected_gyro_instance sc)
                (_gyro_count (poll_all msgs (gyro_selection_init group_count))));
      split; intros; (reflexivity || lia).
  - rewrite poll_all_gyro_count. intros Hall.
    apply (poll_all_no_valid_report _ msgs Hall); auto.
Qed.

(** C6, the claim as stated fails: with two gyros, once instance 1 has been
    selected, a message that reports the invalid instance 7 leaves the
    pipeline on instance 1; it does not fall back to instance 0. *)
Lemma invalid_selection_does_not_fall_back_to_0 :
  let s := poll_all Scenario.two_gyros_then_invalid (gyro_selection_init 2) in
  (selected_gyro_instance (_sensor_correction s) <? _gyro_count s)%N = false
  /\ _selected_gyro s = 1%N
  /\ (_selected_gyro s =? 0)%N = false.
Proof. repeat split. Qed.

End SensorCorrectionProperties.

(** ** Attitude controller *)

Section AttitudeControlProperties.

Import AttitudeControl.

Context {F : Type} `{FloatOps F}.

(** C8, as the code has it: [control_attitude] refreshes the attitude
    setpoint message and nothing else; whatever the current and the desired
    attitude, equal or not, the rate setpoint and the thrust setpoint come
    out as they went in (the quaternion error law is commented out). *)
Theorem control_attitude_leaves_rates_sp
    (msg : option (vehicle_attitude_setpoint_s F)) (s : attitude_state F) :
  _rates_sp (control_attitude msg s) = _rates_sp s
  /\ _thrust_sp (control_attitude msg s) = _thrust_sp s
  /\ _v_att_q (control_attitude msg s) = _v_att_q s
  /\ _v_att_sp (control_attitude msg s)
     = match msg with Some m => m | None => _v_att_sp s end.
Proof. destruct msg; repeat split. Qed.

End AttitudeControlProperties.

(** C8, the claim as stated fails: the vehicle is level, the desired
    attitude equals the current one, and the rate setpoint left by the ACRO
    branch is a roll rate of 1 rad/s; after [control_attitude] it is still
    that, not the zero vector. *)
Lemma equal_attitudes_nonzero_rates_sp :
  let s := AttitudeControl.control_attitude None Scenario.level_after_acro in
  AttitudeControl._v_att_q s = AttitudeControl.q_d (AttitudeControl._v_att_sp s)
  /\ AttitudeControl._rates_sp s = [Scenario.f32 1 0; Scenario.f32 0 0; Scenario.f32 0 0]
  /\ SFeqb (vget (AttitudeControl._rates_sp s) 0) fzero = false.
Proof. vm_compute. repeat split. Qed.

(** ** Output publisher, in binary32 *)

Section PublisherProperties.

Import Publisher.

Lemma vget_vset_same {F : Type} `{FloatOps F} (v : vec F) (i : nat) (a : F) :
  (i < length v)%nat -> vget (vset v i a) i = a.
Proof.
  revert i. induction v as [ | h t IH]; intros [ | i] Hi; simpl in *;
    try lia; [reflexivity | ]. apply IH. lia.
Qed.

Lemma vget_vset_other {F : Type} `{FloatOps F} (v : vec F) (i j : nat) (a : F) :
  i <> j -> vget (vset v i a) j = vget v j.
Proof.
  revert i j. induction v as [ | h t IH]; intros [ | i] [ | j] Hij; simpl;
    try reflexivity; try congruence. apply IH. congruence.
Qed.

Lemma vset_length {F : Type} (v : list F) (i : nat) (a : F) :
  length (vset v i a) = length v.
Proof.
  revert i. induction v as [ | h t IH]; intros [ | i]; simpl; try reflexivity.
  now rewrite IH.
Qed.

(** Scaling positive zero by a positive finite factor leaves positive
    zero. *)
Lemma zero_times_positive_scale (scale : B32.float32) :
  scale <> B32.pinf ->
  (scale >? fzero)%fl = true ->
  (B32.pzero * scale)%fl = B32.pzero.
Proof.
  intros Hinf Hpos. destruct scale as [s | s | | s m e]; cbn in *;
    try discriminate Hpos.
  - destruct s; [discriminate Hpos | now elim Hinf].
  - destruct s; [discriminate Hpos | reflexivity].
Qed.

Lemma finite_or_zero_nonfinite (x : B32.float32) :
  fisfinite x = false -> finite_or_zero x = B32.pzero.
Proof. unfold finite_or_zero. now intros ->. Qed.

Lemma scale_all_primary (scale : B32.float32) (c : vec B32.float32) (k : nat) :
  length c = 8%nat -> (k < 4)%nat ->
  vget (fold_left (scale_control scale) [0; 1; 2; 3]%nat c) k
  = (vget c k * scale)%fl.
Proof.
  intros Hlen Hk. destruct c as [ | c0 [ | c1 [ | c2 [ | c3 rest]]]];
    try discriminate Hlen.
  destruct k as [ | [ | [ | [ | k]]]]; try lia; reflexivity.
Qed.

Lemma sanitized_primary (s : publisher B32.float32) (c : vec B32.float32) (k : nat) :
  length c = 8%nat -> (k < 4)%nat ->
  vget (vset (vset (vset (vset (vset c
          0 (finite_or_zero (vget (_att_control s) 0)))
          1 (finite_or_zero (vget (_att_control s) 1)))
          2 (finite_or_zero (vget (_att_control s) 2)))
          3 (finite_or_zero (_thrust_sp s)))
          7 (_landing_gear s)) k
  = finite_or_zero (primary_channel s k).
Proof.
  intros Hlen Hk. destruct c as [ | c0 [ | c1 [ | c2 [ | c3 rest]]]];
    try discriminate Hlen.
  destruct k as [ | [ | [ | [ | k]]]]; try lia; reflexivity.
Qed.

(** C3, as the code has it: every non-finite value among the four primary
    channels is replaced by 0.0 before the battery scaling, so the emitted
    channel is exactly 0.0 whenever battery compensation is off or its
    scale factor is not +infinity; and with the circuit breaker engaged
    nothing is published. *)
Theorem publish_zeroes_nonfinite_channels
    (now gyro_timestamp : Z) (s : publisher B32.float32) :
  length (control (_actuators s)) = 8%nat ->
  _bat_scale_en s = false \/ _battery_status_scale s <> B32.pinf ->
  let a := fst (publish_actuator_controls now gyro_timestamp s) in
  let published := snd (publish_actuator_controls now gyro_timestamp s) in
  (forall k : nat, (k < 4)%nat ->
     fisfinite (primary_channel s k) = false ->
     vget (control a) k = B32.pzero)
  /\ (_actuators_0_circuit_breaker_enabled s = true -> published = None)
  /\ (_actuators_0_circuit_breaker_enabled s = false -> published = Some a).
Proof.
  intros Hlen Hscale. cbv zeta. unfold publish_actuator_controls. cbn [fst snd control].
  split; [ | split].
  - intros k Hk Hnf.
    set (c := vset _ 7%nat _).
    assert (Hc : vget c k = B32.pzero).
    { subst c. rewrite sanitized_primary by assumption.
      now apply finite_or_zero_nonfinite. }
    assert (Hclen : length c = 8%nat).
    { subst c. now rewrite !vset_length. }
    destruct (_bat_scale_en s && (_battery_status_scale s >? fzero)%fl) eqn:Hen.
    + apply andb_prop in Hen. destruct Hen as [Hen Hpos].
      destruct Hscale as [Hoff | Hinf]; [congruence | ].
      rewrite scale_all_primary by assumption. rewrite Hc.
      now apply zero_times_positive_scale.
    + exact Hc.
  - now intros ->.
  - now intros ->.
Qed.

End PublisherProperties.

Lemma publish_zeroes_nonfinite_channels_witness :
  let s := PublisherScenario.nan_roll_scale_1_1 in
  let a := fst (Publisher.publish_actuator_controls 1000 990 s) in
  vget (Publisher.control a) 0 = B32.pzero
  /\ vget (Publisher.control a) 3 = B32.pzero.
Proof.
  assert (Hscale : Publisher._bat_scale_en PublisherScenario.nan_roll_scale_1_1 = false
                   \/ Publisher._battery_status_scale PublisherScenario.nan_roll_scale_1_1
                      <> B32.pinf).
  { right. vm_compute. discriminate. }
  pose proof (publish_zeroes_nonfinite_channels 1000 990
                PublisherScenario.nan_roll_scale_1_1 eq_refl Hscale) as P.
  cbv zeta in P. destruct P as [P _].
  split.
  - apply (P 0%nat); [lia | reflexivity].
  - apply (P 3%nat); [lia | reflexivity].
Defined.

(** C3, the claim as stated fails: the roll channel is NaN and is replaced
    by 0.0, but battery compensation then multiplies it by an infinite scale
    factor, and the published roll channel is NaN. *)
Lemma infinite_battery_scale_publishes_nan :
  let s := PublisherScenario.nan_roll_infinite_scale in
  fisfinite (vget (Publisher._att_control s) 0) = false
  /\ option_map (fun m => vget (Publisher.control m) 0)
       (snd (Publisher.publish_actuator_controls 1000 990 s))
     = Some B32.nan.
Proof. vm_compute. split; reflexivity. Qed.

(** ** The modern-control block, stage by stage *)

Section StageFrames.

Import ModernControl.

Context {F : Type} `{FloatOps F}.

(** A guarded statement preserves what its body preserves. *)
Lemma when_frame {V : Type} (view : state F -> V)
    (c : state F -> bool) (body : state F -> state F) :
  (forall s, view (body s) = view s) ->
  forall s, view (when c body s) = view s.
Proof. intros Hbody s. unfold when. destruct (c s); [apply Hbody | reflexivity]. Qed.

(** What the set-up and feedback stages leave to the sequencer. *)
Lemma ss_init_sequencer (cfg : config F) (s : state F) :
  sequencer (ss_init cfg s) = sequencer s.
Proof. apply when_frame. reflexivity. Qed.

Lemma update_r_sequencer (s : state F) : sequencer (update_r s) = sequencer s.
Proof. apply when_frame. reflexivity. Qed.

Lemma main_feedback_sequencer (i : cycle_in F) (Z rate_Z : F) (s : state F) :
  sequencer (main_feedback i Z rate_Z s) = sequencer s.
Proof. apply when_frame. reflexivity. Qed.

Lemma give_output_sequencer (cfg : config F) (s : state F) :
  sequencer (give_output cfg s) = sequencer s.
Proof.
  unfold give_output.
  destruct (give_output_able s), (cywmc_angle_control cfg); reflexivity.
Qed.

(** What the sequencer stages leave to the state-space model. *)
Lemma get_current_state_model (i : cycle_in F) (s : state F) :
  ss_seted (get_current_state i s) = ss_seted s
  /\ ss_x (get_current_state i s) = ss_x s
  /\ ss_u_scale (get_current_state i s) = ss_u_scale s
  /\ cywmc_able (get_current_state i s) = cywmc_able s.
Proof.
  unfold get_current_state, poll_position, update_run_t.
  destruct (pos_update i), (flag_armed i && flag_control_rates_enabled i);
    try (repeat split; reflexivity);
    cbv beta zeta; unfold when; destruct (arm_t0 s <? fone)%fl;
    repeat split; reflexivity.
Qed.

Lemma update_r_model (s : state F) : model (update_r s) = model s.
Proof. apply when_frame. reflexivity. Qed.

(** The mission logic leaves the block's guard and the model alone. *)
Lemma mission_1_guard (s : state F) :
  (cywmc_able (mission_1 s), model (mission_1 s)) = (cywmc_able s, model s).
Proof.
  unfold mission_1.
  transitivity (cywmc_able (mission_1_time_plan s), model (mission_1_time_plan s)).
  - generalize (mission_1_time_plan s). intros p. unfold mission_1_content.
    repeat match goal with
           | |- context [if ?b then _ else _] => destruct b
           end; reflexivity.
  - apply (when_frame (fun s => (cywmc_able s, model s))). reflexivity.
Qed.

Lemma mission_2_guard (cfg : config F) (s : state F) :
  (cywmc_able (mission_2 cfg s), model (mission_2 cfg s)) = (cywmc_able s, model s).
Proof.
  unfold mission_2.
  transitivity (cywmc_able (mission_2_time_plan cfg s),
                model (mission_2_time_plan cfg s)).
  - generalize (mission_2_time_plan cfg s). intros p. unfold mission_2_content.
    repeat match goal with
           | |- context [if ?b then _ else _] => destruct b
           end; reflexivity.
  - apply (when_frame (fun s => (cywmc_able s, model s))). reflexivity.
Qed.

Lemma mission_guard (cfg : config F) (s : state F) :
  (cywmc_able (mission cfg s), model (mission cfg s)) = (cywmc_able s, model s).
Proof.
  unfold mission. destruct (modern_control_mission_able cfg); [ | reflexivity].
  cbv zeta.
  rewrite (when_frame (fun s => (cywmc_able s, model s)) _ _ (mission_2_guard cfg)).
  rewrite (when_frame (fun s => (cywmc_able s, model s)) _ _ mission_1_guard).
  reflexivity.
Qed.

Lemma mission_model (cfg : config F) (s : state F) :
  model (mission cfg s) = model s.
Proof. exact (f_equal snd (mission_guard cfg s)). Qed.

Lemma safety_check_model (cfg : config F) (s : state F) :
  model (safety_check cfg s) = model s.
Proof. apply when_frame. reflexivity. Qed.

Lemma return_back_guard (cfg : config F) (Z : F) (s : state F) :
  (cywmc_able (return_back cfg Z s), model (return_back cfg Z s))
  = (cywmc_able s, model s).
Proof.
  apply (when_frame (fun s => (cywmc_able s, model s))). intros p. cbv zeta.
  rewrite !(when_frame (fun s => (cywmc_able s, model s))); reflexivity.
Qed.

Lemma return_back_model (cfg : config F) (Z : F) (s : state F) :
  model (return_back cfg Z s) = model s.
Proof. exact (f_equal snd (return_back_guard cfg Z s)). Qed.

(** What the stages around the return block leave to the commanded
    altitude. *)
Lemma get_current_state_altitude (i : cycle_in F) (s : state F) :
  altitude_view (get_current_state i s) = altitude_view s.
Proof.
  unfold get_current_state, poll_position, update_run_t.
  destruct (pos_update i), (flag_armed i && flag_control_rates_enabled i);
    try reflexivity;
    cbv beta zeta; unfold when; destruct (arm_t0 s <? fone)%fl; reflexivity.
Qed.

Lemma safety_check_altitude (cfg : config F) (s : state F) :
  altitude_view (safety_check cfg s) = altitude_view s.
Proof. apply when_frame. reflexivity. Qed.

Lemma mission_altitude_deselected (cfg : config F) (s : state F) :
  modern_control_mission_select s = 0%Z ->
  altitude_view (mission cfg s) = altitude_view s.
Proof.
  intros Hsel. unfold mission.
  destruct (modern_control_mission_able cfg); [ | reflexivity].
  cbv zeta. unfold when.
  change (modern_control_mission_select
            (set_give_output_able true (set_mordern_control_able true s)))
    with (modern_control_mission_select s).
  rewrite Hsel. cbn [Z.eqb].
  change (modern_control_mission_select
            (set_give_output_able true (set_mordern_control_able true s)))
    with (modern_control_mission_select s).
  rewrite Hsel. reflexivity.
Qed.

End StageFrames.

(** ** State-space feedback law *)

Section FeedbackProperties.

Import ModernControl.

Context {F : Type} `{FloatLaws F}.

Lemma vadd_comm (a b : vec F) : vadd a b = vadd b a.
Proof.
  unfold vadd. revert b.
  induction a as [ | x a IH]; intros [ | y b]; simpl; try reflexivity.
  now rewrite fadd_comm, IH.
Qed.

(** The feedback law on a state whose [ss_x] has its eight entries. *)
Lemma main_feedback_active (i : cycle_in F) (Z rate_Z : F) (s : state F) :
  mordern_control_able s = true ->
  length (ss_x s) = 8%nat ->
  let x := [ (- Z)%fl; agl_roll i; agl_pitch i; agl_yaw i;
             (- rate_Z)%fl; vget (rates i) 0; vget (rates i) 1; vget (rates i) 2 ] in
  let u := vsub (ss_r s) (mat_vec (ss_k s) x) in
  let x_dot := vadd (mat_vec (ss_B s) u) (mat_vec (ss_A s) x) in
  let x' := vadd x (vscale x_dot (dt i)) in
  main_feedback i Z rate_Z s
  = set_ss_y (mat_vec (ss_C s) x')
      (set_ss_x x' (set_ss_x_dot x_dot (set_ss_u_actual u s))).
Proof.
  intros Hable Hlen. unfold main_feedback, when. rewrite Hable.
  destruct s as [? ? ? ? ? ? x ? ? ? ? ? ? ? ? ? ? ? ? ? ? ? ? ? ? ? ? ? ? ? ? ?].
  cbn [ModernControl.ss_x] in Hlen.
  destruct x as [ | ? [ | ? [ | ? [ | ? [ | ? [ | ? [ | ? [ | ? [ | ? ?]]]]]]]]];
    try discriminate Hlen.
  reflexivity.
Qed.

(** The normalisation on a state whose [ss_u_scale] has its four entries. *)
Lemma give_output_enabled (cfg : config F) (s : state F) :
  give_output_able s = true ->
  length (ss_u_scale s) = 4%nat ->
  let u := ss_u_actual s in
  ss_u_scale (give_output cfg s)
  = [ ((vget u 0 + ss_m cfg * g cfg) / T_max cfg)%fl;
      (vget u 1 / Mx_max cfg)%fl;
      (vget u 2 / My_max cfg)%fl;
      (vget u 3 / Mz_max cfg)%fl ]
  /\ _thrust_sp (give_output cfg s) = vget (ss_u_scale (give_output cfg s)) 0.
Proof.
  intros Hable Hlen. unfold give_output. rewrite Hable.
  destruct s as [? ? ? ? ? ? ? ? ? w ? ? ? ? ? ? ? ? ? ? ? ? ? ? ? ? ? ? ? ? ? ?].
  cbn [ModernControl.ss_u_scale] in Hlen.
  destruct w as [ | ? [ | ? [ | ? [ | ? [ | ? ?]]]]]; try discriminate Hlen.
  destruct (cywmc_angle_control cfg); split; reflexivity.
Qed.

Lemma give_output_suppressed (cfg : config F) (s : state F) :
  give_output_able s = false ->
  ss_u_scale (give_output cfg s) = ss_u_scale s
  /\ _thrust_sp (give_output cfg s) = fzero.
Proof.
  intros Hable. unfold give_output. rewrite Hable.
  destruct (cywmc_angle_control cfg); split; reflexivity.
Qed.

(** The output stage leaves the model's vectors alone. *)
Lemma give_output_model (cfg : config F) (s : state F) :
  ss_u_actual (give_output cfg s) = ss_u_actual s
  /\ ss_x (give_output cfg s) = ss_x s
  /\ ss_y (give_output cfg s) = ss_y s.
Proof.
  unfold give_output.
  destruct (give_output_able s), (cywmc_angle_control cfg); repeat split.
Qed.

Lemma reset_integral_frame (i : cycle_in F) (s : state F) :
  model (reset_integral i s) = model s
  /\ sequencer (reset_integral i s) = sequencer s.
Proof.
  unfold reset_integral, when.
  destruct (negb (flag_armed i) || negb (is_rotary_wing i)); split; reflexivity.
Qed.

(** The sequencer stages of one cycle hand the feedback law the model that
    the set-up stage left. *)
Lemma before_feedback_model (cfg : config F) (i : cycle_in F) (s : state F) :
  model (before_feedback cfg i s) = model (ss_init cfg (get_current_state i s)).
Proof.
  unfold before_feedback, sequencing. cbv zeta.
  now rewrite return_back_model, safety_check_model, mission_model, update_r_model.
Qed.

Lemma before_feedback_dims (cfg : config F) (i : cycle_in F) (s : state F) :
  ss_seted s = 0%Z \/ dims_ok s ->
  dims_ok (before_feedback cfg i s).
Proof.
  intros Hs. unfold dims_ok.
  change (length (mv_ss_x (model (before_feedback cfg i s))) = 8%nat
          /\ length (mv_ss_u_scale (model (before_feedback cfg i s))) = 4%nat).
  rewrite before_feedback_model. cbn [mv_ss_x mv_ss_u_scale model].
  destruct (get_current_state_model i s) as (Hseted & Hx & Hu & _).
  unfold ss_init, when.
  destruct (Z.eqb_spec (ss_seted (get_current_state i s)) 0) as [E | E].
  - split; reflexivity.
  - rewrite Hx, Hu. destruct Hs as [Hs | Hs]; [congruence | exact Hs].
Qed.

(** C1, as the code has it: on every cycle in which the block runs and the
    feedback law is active, the state vector is built as
    x = [-altitude, roll, pitch, yaw, -vertical_rate, roll_rate, pitch_rate,
    yaw_rate], the control demand is u = r - K x, and the state is advanced
    by the forward-Euler step x <- x + (A x + B u) dt.  On those of these
    cycles in which output is enabled, the normalised demands are
    u_scale[0] = (u[0] + mass g) / T_max and
    u_scale[i] = u[i] / M_max[i] for i = 1, 2, 3; on the others (stand
    still, grounded) u_scale keeps its old value and the thrust command is
    zero. *)
Theorem state_space_feedback_cycle
    (cfg : config F) (i : cycle_in F) (s : state F) :
  cywmc_able s = true ->
  ss_seted s = 0%Z \/ dims_ok s ->
  let p := before_feedback cfg i (reset_integral i s) in
  let s' := control_attitude_rates cfg i s in
  mordern_control_able p = true ->
  let x := measured_x i (pos_current p) in
  let u := vsub (ss_r p) (mat_vec (ss_k p) x) in
  ss_u_actual s' = u
  /\ ss_x s'
     = vadd x (vscale (vadd (mat_vec (ss_A p) x) (mat_vec (ss_B p) u)) (dt i))
  /\ ss_y s' = mat_vec (ss_C p) (ss_x s')
  /\ (give_output_able p = true ->
      ss_u_scale s'
      = [ ((vget u 0 + ss_m cfg * g cfg) / T_max cfg)%fl;
          (vget u 1 / Mx_max cfg)%fl;
          (vget u 2 / My_max cfg)%fl;
          (vget u 3 / Mz_max cfg)%fl ]
      /\ _thrust_sp s' = vget (ss_u_scale s') 0)
  /\ (give_output_able p = false ->
      ss_u_scale s' = ss_u_scale p /\ _thrust_sp s' = fzero).
Proof.
  intros Hcy Hdims. cbv zeta.
  set (s0 := reset_integral i s). set (p := before_feedback cfg i s0).
  intros Hact.
  destruct (reset_integral_frame i s) as [Hm Hq]. fold s0 in Hm, Hq.
  assert (Hcy0 : cywmc_able s0 = true).
  { rewrite <- Hcy. exact (f_equal sq_cywmc_able Hq). }
  assert (Hdims0 : ss_seted s0 = 0%Z \/ dims_ok s0).
  { unfold dims_ok.
    rewrite (f_equal mv_ss_seted Hm : ss_seted s0 = ss_seted s).
    rewrite (f_equal mv_ss_x Hm : ss_x s0 = ss_x s).
    rewrite (f_equal mv_ss_u_scale Hm : ss_u_scale s0 = ss_u_scale s).
    exact Hdims. }
  destruct (before_feedback_dims cfg i s0 Hdims0) as [Hx Hu]. fold p in Hx, Hu.
  assert (Hpos : pos_current (get_current_state i s0) = pos_current p).
  { unfold p.
    rewrite (f_equal mv_pos_current (before_feedback_model cfg i s0)
             : pos_current (before_feedback cfg i s0) = _).
    symmetry.
    exact (f_equal sq_pos_current (ss_init_sequencer cfg (get_current_state i s0))). }
  assert (Hs' : control_attitude_rates cfg i s
                = give_output cfg
                    (main_feedback i (z (pos_current p)) (vz (pos_current p)) p)).
  { unfold control_attitude_rates, modern_control, when. cbv zeta. fold s0.
    rewrite Hcy0.
    change (give_output cfg
              (main_feedback i (z (pos_current (get_current_state i s0)))
                 (vz (pos_current (get_current_state i s0))) p)
            = give_output cfg
                (main_feedback i (z (pos_current p)) (vz (pos_current p)) p)).
    now rewrite Hpos. }
  rewrite Hs'. clear Hs'.
  rewrite (main_feedback_active i _ _ p Hact Hx). cbv zeta.
  fold (measured_x i (pos_current p)).
  set (x := measured_x i (pos_current p)).
  set (u := vsub (ss_r p) (mat_vec (ss_k p) x)).
  rewrite (vadd_comm (mat_vec (ss_B p) u) (mat_vec (ss_A p) x)).
  set (x' := vadd x _).
  set (m := set_ss_y _ _).
  destruct (give_output_model cfg m) as (Eu & Ex & Ey).
  rewrite Eu, Ex, Ey.
  repeat split; try reflexivity.
  - apply (give_output_enabled cfg m); assumption.
  - apply (give_output_enabled cfg m); assumption.
  - apply (give_output_suppressed cfg m); assumption.
  - apply (give_output_suppressed cfg m); assumption.
Qed.

End FeedbackProperties.

Lemma state_space_feedback_cycle_witness :
  let i := Flight.at_run_t 12 (Scenario.f32 1 0) in
  let s := Flight.start_up 1 (Scenario.f32 100 0) in
  let p := ModernControl.before_feedback Flight.cfg i (ModernControl.reset_integral i s) in
  let s' := ModernControl.control_attitude_rates Flight.cfg i s in
  ModernControl.ss_u_actual s'
  = vsub (ModernControl.ss_r p)
      (mat_vec (ModernControl.ss_k p)
         (ModernControl.measured_x i (ModernControl.pos_current p))).
Proof.
  cbv zeta.
  refine (proj1 (state_space_feedback_cycle Flight.cfg
           (Flight.at_run_t 12 (Scenario.f32 1 0))
           (Flight.start_up 1 (Scenario.f32 100 0)) _ _ _)).
  - reflexivity.
  - left. reflexivity.
  - vm_compute. reflexivity.
Defined.

(** C1, the claim as stated fails: in the first armed cycle of mission 1 the
    block runs and the feedback law is active, but the sequencer stands
    still and suppresses the output, so the normalised thrust demand keeps
    its old value 0 while (u[0] + mass g) / T_max is 0.49. *)
Lemma stand_still_cycle_skips_normalisation :
  let i := Flight.at_run_t 0 (Scenario.f32 0 0) in
  let s := Flight.start_up 1 (Scenario.f32 100 0) in
  let p := ModernControl.before_feedback Flight.cfg i (ModernControl.reset_integral i s) in
  let s' := ModernControl.control_attitude_rates Flight.cfg i s in
  let u := ModernControl.ss_u_actual s' in
  ModernControl.cywmc_able s = true
  /\ ModernControl.mordern_control_able p = true
  /\ u = vsub (ModernControl.ss_r p)
           (mat_vec (ModernControl.ss_k p)
              (ModernControl.measured_x i (ModernControl.pos_current p)))
  /\ vget (ModernControl.ss_u_scale s') 0 = B32.pzero
  /\ ((vget u 0 + ModernControl.ss_m Flight.cfg * ModernControl.g Flight.cfg)
      / ModernControl.T_max Flight.cfg)%fl
     = S754_finite false 16441673 (-25).
Proof. vm_compute. repeat split. Qed.

(** ** Mission sequencer *)

Section MissionProperties.

Import ModernControl.

Context {F : Type} `{FloatLaws F}.

(** The two flags [mission] sets first do not reach the time plan. *)
Lemma mission_1_time_plan_flags (s : state F) :
  let s1 := set_give_output_able true (set_mordern_control_able true s) in
  ms1_t (mission_1_time_plan s1) = ms1_t (mission_1_time_plan s)
  /\ run_t (mission_1_time_plan s1) = run_t s
  /\ modern_control_mission_select (mission_1_time_plan s1)
     = modern_control_mission_select s.
Proof.
  cbv zeta. unfold mission_1_time_plan, when.
  change (is_msl_t_set (set_give_output_able true (set_mordern_control_able true s)))
    with (is_msl_t_set s).
  destruct (negb (is_msl_t_set s)); repeat split.
Qed.

Lemma mission_2_time_plan_flags (cfg : config F) (s : state F) :
  let s1 := set_give_output_able true (set_mordern_control_able true s) in
  ms1_t (mission_2_time_plan cfg s1) = ms1_t (mission_2_time_plan cfg s)
  /\ run_t (mission_2_time_plan cfg s1) = run_t s
  /\ modern_control_mission_select (mission_2_time_plan cfg s1)
     = modern_control_mission_select s.
Proof.
  cbv zeta. unfold mission_2_time_plan, when.
  change (is_msl_t_set (set_give_output_able true (set_mordern_control_able true s)))
    with (is_msl_t_set s).
  destruct (negb (is_msl_t_set s)); repeat split.
Qed.

(** With [run_t] on the first threshold, every test of the chain fails. *)
Lemma mission_1_content_at_threshold (s : state F) :
  run_t s = vget (ms1_t s) 0 -> mission_1_content s = start_return s.
Proof.
  intros E. unfold mission_1_content. cbv zeta. rewrite <- E.
  rewrite flt_irrefl. reflexivity.
Qed.

Lemma mission_2_content_at_threshold (cfg : config F) (s : state F) :
  run_t s = vget (ms1_t s) 0 -> mission_2_content cfg s = start_return s.
Proof.
  intros E. unfold mission_2_content. cbv zeta. rewrite <- E.
  rewrite flt_irrefl. reflexivity.
Qed.

(** C10: in every cycle of mission 1 or mission 2 in which [run_t] equals
    the first phase threshold [ms1_t[0]], neither the stand-still branch nor
    a hold branch applies: the mission logic takes its final [else], which
    starts the return to 0 m and deselects the mission, with the commanded
    altitude, the reference-update request and the commands left as they
    were and the output left enabled. *)
Theorem mission_at_first_threshold_starts_return
    (cfg : config F) (s : state F) :
  modern_control_mission_able cfg = true ->
  (modern_control_mission_select s = 1%Z
   /\ run_t s = vget (ms1_t (mission_1_time_plan s)) 0)
  \/ (modern_control_mission_select s = 2%Z
      /\ run_t s = vget (ms1_t (mission_2_time_plan cfg s)) 0) ->
  let s' := mission cfg s in
  (exists p : state F, s' = start_return p)
  /\ return_back_to_0m_able s' = true
  /\ modern_control_mission_select s' = 0%Z
  /\ start_return_back_runt s' = run_t s
  /\ setout_Z s' = setout_Z s
  /\ need_update_r s' = need_update_r s
  /\ give_output_able s' = true
  /\ _att_control s' = _att_control s
  /\ _thrust_sp s' = _thrust_sp s.
Proof.
  intros Hable Hsel. cbv zeta. unfold mission. rewrite Hable. cbv zeta.
  set (s1 := set_give_output_able true (set_mordern_control_able true s)).
  destruct Hsel as [[Hsel Ht] | [Hsel Ht]].
  - destruct (mission_1_time_plan_flags s) as (Hms & Hrun & Hs). fold s1 in Hms, Hrun, Hs.
    assert (E1 : when (fun s => (modern_control_mission_select s =? 1)%Z) mission_1 s1
                 = start_return (mission_1_time_plan s1)).
    { unfold when.
      change (modern_control_mission_select s1) with (modern_control_mission_select s).
      rewrite Hsel. cbn [Z.eqb Pos.eqb]. unfold mission_1.
      apply mission_1_content_at_threshold. now rewrite Hrun, Hms. }
    rewrite E1. unfold when at 1. cbn [modern_control_mission_select start_return
      assign set_start_return_back_runt set_modern_control_mission_select Z.eqb].
    split; [eexists; reflexivity | ].
    unfold mission_1_time_plan, when.
    destruct (negb (is_msl_t_set s1)); repeat split; exact Hrun || reflexivity.
  - destruct (mission_2_time_plan_flags cfg s) as (Hms & Hrun & Hs).
    fold s1 in Hms, Hrun, Hs.
    assert (E1 : when (fun s => (modern_control_mission_select s =? 1)%Z) mission_1 s1
                 = s1).
    { unfold when.
      change (modern_control_mission_select s1) with (modern_control_mission_select s).
      rewrite Hsel. reflexivity. }
    rewrite E1.
    assert (E2 : when (fun s => (modern_control_mission_select s =? 2)%Z)
                   (mission_2 cfg) s1
                 = start_return (mission_2_time_plan cfg s1)).
    { unfold when.
      change (modern_control_mission_select s1) with (modern_control_mission_select s).
      rewrite Hsel. cbn [Z.eqb Pos.eqb]. unfold mission_2.
      apply mission_2_content_at_threshold. now rewrite Hrun, Hms. }
    rewrite E2.
    split; [eexists; reflexivity | ].
    unfold mission_2_time_plan, when.
    destruct (negb (is_msl_t_set s1)); repeat split; exact Hrun || reflexivity.
Qed.

End MissionProperties.

Lemma mission_at_first_threshold_witness :
  let s := ModernControl.set_run_t (Scenario.f32 5 0)
             (Flight.start_up 1 (Scenario.f32 100 0)) in
  ModernControl.return_back_to_0m_able (ModernControl.mission Flight.cfg s) = true
  /\ ModernControl.modern_control_mission_select (ModernControl.mission Flight.cfg s)
     = 0%Z.
Proof.
  cbv zeta.
  assert (Hable : ModernControl.modern_control_mission_able
                    (Flight.cfg (F := B32.float32)) = true) by reflexivity.
  assert (Hsel :
    (ModernControl.modern_control_mission_select
       (ModernControl.set_run_t (Scenario.f32 5 0)
          (Flight.start_up 1 (Scenario.f32 100 0))) = 1%Z
     /\ ModernControl.run_t
          (ModernControl.set_run_t (Scenario.f32 5 0)
             (Flight.start_up 1 (Scenario.f32 100 0)))
        = vget (ModernControl.ms1_t
                  (ModernControl.mission_1_time_plan
                     (ModernControl.set_run_t (Scenario.f32 5 0)
                        (Flight.start_up 1 (Scenario.f32 100 0))))) 0)
    \/ (ModernControl.modern_control_mission_select
          (ModernControl.set_run_t (Scenario.f32 5 0)
             (Flight.start_up 1 (Scenario.f32 100 0))) = 2%Z
        /\ ModernControl.run_t
             (ModernControl.set_run_t (Scenario.f32 5 0)
                (Flight.start_up 1 (Scenario.f32 100 0)))
           = vget (ModernControl.ms1_t
                     (ModernControl.mission_2_time_plan Flight.cfg
                        (ModernControl.set_run_t (Scenario.f32 5 0)
                           (Flight.start_up 1 (Scenario.f32 100 0))))) 0)).
  { left. split; vm_compute; reflexivity. }
  destruct (mission_at_first_threshold_starts_return Flight.cfg _ Hable Hsel)
    as (_ & Hret & Hselect & _).
  split; assumption.
Defined.

Section MissionPhases.

Import ModernControl.

(** [mission_1_phase] is the branch [mission_1_content] takes. *)
Lemma mission_1_content_effect {F : Type} `{FloatOps F} (s : state F) :
  mission_1_content s = mission_1_effect (mission_1_phase s) s.
Proof.
  unfold mission_1_content, mission_1_phase. cbv zeta.
  repeat match goal with
         | |- context [if ?b then _ else _] => destruct b
         end; reflexivity.
Qed.

(** Off the first threshold the chain of tests is the spec's rule: the
    smallest [k] with [run_t] under the [k]-th cumulative threshold. *)
Lemma mission_1_phase_off_threshold {F : Type} `{FloatOps F} (s : state F) :
  ((run_t s <? vget (ms1_t s) 0) || (run_t s >? vget (ms1_t s) 0))%fl = true ->
  mission_1_phase s
  = spec_phase [vget (ms1_t s) 0; vget (ms1_t s) 1; vget (ms1_t s) 2; vget (ms1_t s) 3]
      (run_t s).
Proof.
  intros Hne. unfold mission_1_phase, spec_phase, spec_phase_from. cbv zeta.
  destruct (run_t s <? vget (ms1_t s) 0)%fl; [reflexivity | ].
  cbn [orb] in Hne. rewrite Hne. cbn [andb].
  repeat match goal with
         | |- context [if ?b then _ else _] => destruct b
         end; reflexivity.
Qed.

(** C2 at its failing input: under mission 1's plan [5, 15, 15, 15] the
    spec's rule puts [run_t = 5] in phase 1, but the code's tests
    [run_t < 5] and [run_t > 5 && ...] all fail there and the mission falls
    through to the return branch; at [run_t = 12] both select phase 1 and at
    [run_t = 61] both are returning. *)
Theorem mission_1_skips_hold_at_first_threshold :
  let at_t (n : Z) : state B32.float32 :=
    mission_1_time_plan
      (set_run_t (Scenario.f32 n 0) (Flight.start_up 1 (Scenario.f32 100 0))) in
  let plan := [Scenario.f32 5 0; Scenario.f32 15 0; Scenario.f32 15 0; Scenario.f32 15 0] in
  ms1_t (at_t 5%Z) = plan
  /\ spec_phase plan (Scenario.f32 5 0) = Phase 1
  /\ mission_1_phase (at_t 5%Z) = Returning
  /\ spec_phase plan (Scenario.f32 12 0) = Phase 1
  /\ mission_1_phase (at_t 12%Z) = Phase 1
  /\ spec_phase plan (Scenario.f32 61 0) = Returning
  /\ mission_1_phase (at_t 61%Z) = Returning
  /\ setout_Z (Flight.flown_to 5 (Scenario.f32 0 0)) = B32.pzero
  /\ return_back_to_0m_able (Flight.flown_to 5 (Scenario.f32 0 0)) = true
  /\ modern_control_mission_select (Flight.flown_to 5 (Scenario.f32 0 0)) = 0%Z
  /\ setout_Z (Flight.flown_to 12 (Scenario.f32 0 0)) = Scenario.f32 1 0
  /\ return_back_to_0m_able (Flight.flown_to 12 (Scenario.f32 0 0)) = false.
Proof. vm_compute. repeat split. Qed.

End MissionPhases.

(** ** Safety ceiling *)

Section SafetyTimeout.

Import ModernControl.

Context {F : Type} `{FloatOps F}.

(** Equal sequencer views have equal members. *)
Lemma sequencer_members (s s' : state F) :
  sequencer s = sequencer s' ->
  cywmc_able s = cywmc_able s'
  /\ run_t s = run_t s'
  /\ pos_current s = pos_current s'
  /\ altitude_view s = altitude_view s'.
Proof.
  intros E.
  change (sq_cywmc_able (sequencer s) = sq_cywmc_able (sequencer s')
          /\ sq_run_t (sequencer s) = sq_run_t (sequencer s')
          /\ sq_pos_current (sequencer s) = sq_pos_current (sequencer s')
          /\ (sq_setout_Z (sequencer s), sq_return_back_to_0m_able (sequencer s),
              sq_modern_control_mission_select (sequencer s))
             = (sq_setout_Z (sequencer s'), sq_return_back_to_0m_able (sequencer s'),
                sq_modern_control_mission_select (sequencer s'))).
  rewrite E. repeat split.
Qed.

(** The state the safety test reads has the running time of this cycle. *)
Lemma run_t_at_safety_check (cfg : config F) (g0 : state F) :
  run_t (mission cfg (update_r (ss_init cfg g0))) = run_t g0.
Proof.
  transitivity (run_t (update_r (ss_init cfg g0))).
  - exact (f_equal mv_run_t (mission_model cfg _)).
  - transitivity (run_t (ss_init cfg g0)).
    + apply (sequencer_members _ _ (update_r_sequencer _)).
    + apply (sequencer_members _ _ (ss_init_sequencer cfg g0)).
Qed.

(** The output of a cycle carries the guard the sequencing stages left. *)
Lemma cywmc_able_control_law (cfg : config F) (i : cycle_in F) (Z rate_Z : F)
    (g0 : state F) :
  cywmc_able (control_law cfg i Z rate_Z g0)
  = cywmc_able (safety_check cfg (mission cfg (update_r (ss_init cfg g0)))).
Proof.
  unfold control_law, sequencing. cbv zeta.
  transitivity (cywmc_able (main_feedback i Z rate_Z
                  (return_back cfg Z
                     (safety_check cfg (mission cfg (update_r (ss_init cfg g0))))))).
  - apply (sequencer_members _ _ (give_output_sequencer cfg _)).
  - transitivity (cywmc_able (return_back cfg Z
                     (safety_check cfg (mission cfg (update_r (ss_init cfg g0)))))).
    + apply (sequencer_members _ _ (main_feedback_sequencer i _ _ _)).
    + exact (f_equal fst (return_back_guard cfg Z _)).
Qed.

Lemma reset_integral_members (i : cycle_in F) (s : state F) :
  cywmc_able (reset_integral i s) = cywmc_able s
  /\ _att_control (reset_integral i s) = _att_control s
  /\ _thrust_sp (reset_integral i s) = _thrust_sp s
  /\ altitude_view (reset_integral i s) = altitude_view s.
Proof.
  unfold reset_integral, when.
  destruct (negb (flag_armed i) || negb (is_rotary_wing i)); repeat split.
Qed.

(** Past the ceiling, the cycle that notices it clears [cywmc_able]. *)
Lemma safety_timeout_disables_block (cfg : config F) (i : cycle_in F) (s : state F) :
  cywmc_able s = true ->
  (run_t (get_current_state i (reset_integral i s)) >? safety_return_time cfg)%fl
  = true ->
  cywmc_able (control_attitude_rates cfg i s) = false.
Proof.
  intros Hcy Hlate.
  destruct (reset_integral_members i s) as (Hc & _).
  unfold control_attitude_rates, modern_control, when. cbv zeta.
  rewrite Hc, Hcy. rewrite cywmc_able_control_law.
  unfold safety_check, when. rewrite run_t_at_safety_check, Hlate. reflexivity.
Qed.

(** With [cywmc_able] clear the block is skipped: a call only resets the
    integrator when disarmed. *)
Lemma disabled_block_is_skipped (cfg : config F) (i : cycle_in F) (s : state F) :
  cywmc_able s = false ->
  control_attitude_rates cfg i s = reset_integral i s.
Proof.
  intros Hcy. destruct (reset_integral_members i s) as (Hc & _).
  unfold control_attitude_rates, modern_control, when. cbv zeta.
  now rewrite Hc, Hcy.
Qed.

(** Nothing sets [cywmc_able] again, and the commands stay what the last
    active cycle made them. *)
Lemma disabled_block_freezes_commands (cfg : config F) (ins : list (cycle_in F)) :
  forall s : state F,
    cywmc_able s = false ->
    cywmc_able (run_cycles cfg ins s) = false
    /\ _att_control (run_cycles cfg ins s) = _att_control s
    /\ _thrust_sp (run_cycles cfg ins s) = _thrust_sp s.
Proof.
  unfold run_cycles. induction ins as [ | i ins IH]; intros s Hcy; simpl.
  - repeat split. exact Hcy.
  - rewrite (disabled_block_is_skipped cfg i s Hcy).
    destruct (reset_integral_members i s) as (Hc & Ha & Ht & _).
    rewrite Hcy in Hc.
    destruct (IH _ Hc) as (Hc' & Ha' & Ht').
    repeat split; congruence.
Qed.

End SafetyTimeout.

(** C4 at its failing input: mission 1 with the safety ceiling at 30 s, the
    vehicle holding at 1.5 m when [run_t] reaches 31 s.  That cycle still
    computes a thrust command of 0.34 and clears [cywmc_able]; in the cycles
    that follow the block is skipped, the thrust command stays 0.34 instead
    of being zeroed, and that is the value published to the actuators. *)
Theorem safety_timeout_leaves_stale_thrust :
  let s2 : ModernControl.state B32.float32 := Flight.flown_to 31 (Scenario.f32 15 1) in
  let later := [ Flight.at_run_t 32 (Scenario.f32 15 1);
                 Flight.at_run_t 33 (Scenario.f32 15 1);
                 Flight.at_run_t 40 (Scenario.f32 15 1) ] in
  let s3 := ModernControl.run_cycles Flight.cfg later s2 in
  (ModernControl.run_t s2 >? ModernControl.safety_return_time Flight.cfg)%fl = true
  /\ ModernControl.cywmc_able s2 = false
  /\ ModernControl.cywmc_able s3 = false
  /\ ModernControl._thrust_sp s2 = S754_finite false 11408508 (-25)
  /\ ModernControl._thrust_sp s3 = S754_finite false 11408508 (-25)
  /\ option_map (fun m => vget (Publisher.control m) 3)
       (snd (Publisher.publish_actuator_controls 41000000 41000000
               (Flight.to_publisher s3)))
     = Some (S754_finite false 11408508 (-25)).
Proof. vm_compute. repeat split. Qed.

(** ** Return phase *)

Section ReturnPhase.

Import ModernControl ReturnRamp.

Local Open Scope Z_scope.

Context {F : Type} `{FloatOps F}.

Lemma get_current_state_return (i : cycle_in F) (s : state F) :
  back_Z_aim (get_current_state i (reset_integral i s)) = back_Z_aim s
  /\ z (pos_current (get_current_state i (reset_integral i s))) = altitude_read i s.
Proof.
  unfold get_current_state, poll_position, update_run_t, reset_integral, when,
    altitude_read.
  destruct (negb (flag_armed i) || negb (is_rotary_wing i)),
    (pos_update i), (flag_armed i && flag_control_rates_enabled i);
    try (split; reflexivity);
    cbv beta zeta; unfold when;
    match goal with
    | |- context [if ?b then _ else _] => destruct b
    end; split; reflexivity.
Qed.

Lemma mission_back_Z_aim_deselected (cfg : config F) (s : state F) :
  modern_control_mission_select s = 0%Z ->
  back_Z_aim (mission cfg s) = back_Z_aim s.
Proof.
  intros Hsel. unfold mission.
  destruct (modern_control_mission_able cfg); [ | reflexivity].
  cbv zeta. unfold when.
  change (modern_control_mission_select
            (set_give_output_able true (set_mordern_control_able true s)))
    with (modern_control_mission_select s).
  rewrite Hsel. cbn [Z.eqb].
  change (modern_control_mission_select
            (set_give_output_able true (set_mordern_control_able true s)))
    with (modern_control_mission_select s).
  rewrite Hsel. reflexivity.
Qed.

(** What the return block finds: the sequencer's members as the call
    found them. *)
Lemma before_return_members (cfg : config F) (i : cycle_in F) (s : state F) :
  modern_control_mission_select s = 0%Z ->
  let g0 := get_current_state i (reset_integral i s) in
  let m := safety_check cfg (mission cfg (update_r (ss_init cfg g0))) in
  altitude_view m = altitude_view s /\ back_Z_aim m = back_Z_aim s.
Proof.
  intros Hsel. cbv zeta.
  set (g0 := get_current_state i (reset_integral i s)).
  assert (Hg : altitude_view g0 = altitude_view s).
  { unfold g0. rewrite get_current_state_altitude.
    apply (reset_integral_members i s). }
  assert (Hu : altitude_view (update_r (ss_init cfg g0)) = altitude_view s).
  { rewrite <- Hg.
    transitivity (altitude_view (ss_init cfg g0)).
    - apply (sequencer_members _ _ (update_r_sequencer _)).
    - apply (sequencer_members _ _ (ss_init_sequencer cfg _)). }
  assert (Hsel' : modern_control_mission_select (update_r (ss_init cfg g0)) = 0%Z).
  { unfold altitude_view in Hu. injection Hu as _ _ Hu. now rewrite Hu. }
  split.
  - rewrite safety_check_altitude, mission_altitude_deselected by exact Hsel'.
    exact Hu.
  - transitivity (back_Z_aim (mission cfg (update_r (ss_init cfg g0)))).
    { unfold safety_check, when.
      match goal with |- context [if ?b then _ else _] => destruct b end;
        reflexivity. }
    rewrite mission_back_Z_aim_deselected by exact Hsel'.
    transitivity (back_Z_aim (ss_init cfg g0)).
    { exact (f_equal (@sq_back_Z_aim F) (update_r_sequencer (ss_init cfg g0))). }
    transitivity (back_Z_aim g0).
    { exact (f_equal (@sq_back_Z_aim F) (ss_init_sequencer cfg g0)). }
    apply get_current_state_return.
Qed.

(** The return block on a state whose return flag is set. *)
Lemma return_back_effect (cfg : config F) (Z : F) (s : state F) :
  return_back_to_0m_able s = true ->
  setout_Z (return_back cfg Z s) = ramped_altitude cfg Z s
  /\ back_Z_aim (return_back cfg Z s)
     = (if ramp_test cfg Z s then (- Z * return_degress_rate cfg)%fl
        else back_Z_aim s)
  /\ return_back_to_0m_able (return_back cfg Z s) = true
  /\ modern_control_mission_select (return_back cfg Z s)
     = modern_control_mission_select s.
Proof.
  intros Hret. unfold return_back, ramped_altitude, ramp_test, when.
  rewrite Hret. cbv beta zeta. unfold assign.
  destruct s as [? ? ? ? ? ? ? ? ? ? ? ? ? ? ? ? ? ? ? ? ? ? ? ? ? a ret ? aim ? ? ?].
  cbn in Hret. subst ret. cbn.
  destruct ((- Z <? aim / return_degress_rate cfg)%fl && (fdec 25 2 <=? a)%fl); cbn;
    repeat match goal with
           | |- context [if ?b then _ else _] => destruct b; cbn
           end; repeat split.
Qed.

(** An active cycle, its stages named. *)
Lemma active_cycle (cfg : config F) (i : cycle_in F) (s : state F) :
  cywmc_able s = true ->
  let g0 := get_current_state i (reset_integral i s) in
  control_attitude_rates cfg i s
  = give_output cfg
      (main_feedback i (z (pos_current g0)) (vz (pos_current g0))
         (return_back cfg (z (pos_current g0))
            (safety_check cfg (mission cfg (update_r (ss_init cfg g0)))))).
Proof.
  intros Hcy. cbv zeta.
  destruct (reset_integral_members i s) as (Hc & _).
  unfold control_attitude_rates, modern_control, when. cbv zeta.
  rewrite Hc, Hcy. reflexivity.
Qed.

(** One call of [control_attitude_rates] in the return phase. *)
Lemma returning_call (cfg : config F) (i : cycle_in F) (s : state F) :
  returning s ->
  let q := control_attitude_rates cfg i s in
  returning q
  /\ setout_Z q
     = (if cywmc_able s then ramped_altitude cfg (altitude_read i s) s
        else setout_Z s)
  /\ back_Z_aim q
     = (if cywmc_able s && ramp_test cfg (altitude_read i s) s
        then (- altitude_read i s * return_degress_rate cfg)%fl
        else back_Z_aim s).
Proof.
  intros [Hret Hsel]. cbv zeta.
  destruct (cywmc_able s) eqn:Hcy.
  - rewrite (active_cycle cfg i s Hcy). cbv zeta.
    destruct (get_current_state_return i s) as [_ HZ].
    destruct (before_return_members cfg i s Hsel) as [Halt Haim].
    cbv zeta in Halt, Haim.
    set (g0 := get_current_state i (reset_integral i s)) in *.
    set (m := safety_check cfg (mission cfg (update_r (ss_init cfg g0)))) in *.
    rewrite HZ. set (Z := altitude_read i s).
    unfold altitude_view in Halt. injection Halt as Hmz Hmr Hms.
    assert (Hm : return_back_to_0m_able m = true) by now rewrite Hmr.
    destruct (return_back_effect cfg Z m Hm) as (Hz & Ha & Hr & Hs).
    set (r := return_back cfg Z m) in *.
    set (o := give_output cfg (main_feedback i Z (vz (pos_current g0)) r)).
    assert (Ho : sequencer o = sequencer r).
    { unfold o. rewrite give_output_sequencer. apply main_feedback_sequencer. }
    destruct (sequencer_members _ _ Ho) as (_ & _ & _ & Hoalt).
    unfold altitude_view in Hoalt. injection Hoalt as Hoz Hor Hos.
    pose proof (f_equal (@sq_back_Z_aim F) Ho) as Hoa.
    change (back_Z_aim o = back_Z_aim r) in Hoa.
    unfold returning. rewrite Hoz, Hor, Hos, Hoa, Hz, Ha, Hr, Hs, Hms.
    split; [split; [reflexivity | exact Hsel] | ].
    unfold ramped_altitude, ramp_test. rewrite Hmz, Haim. cbn [andb].
    split; reflexivity.
  - assert (E : control_attitude_rates cfg i s = reset_integral i s).
    { unfold control_attitude_rates, modern_control, when.
      destruct (reset_integral_members i s) as (Hc & _). now rewrite Hc, Hcy. }
    rewrite E.
    destruct (reset_integral_members i s) as (_ & _ & _ & Halt).
    unfold altitude_view in Halt. injection Halt as Hz Hr Hs.
    unfold returning. rewrite Hz, Hr, Hs. cbn [andb].
    split; [split; assumption | ]. split; [reflexivity | ].
    unfold reset_integral, when.
    destruct (negb (flag_armed i) || negb (is_rotary_wing i)); reflexivity.
Qed.

End ReturnPhase.

(** ** Return phase, in binary32 *)

Section ReturnRampFloat.

Import ModernControl ReturnRamp.

Local Open Scope Z_scope.

(** A number that is not negative, times a factor of at most 1, is at most
    that number. *)
Lemma SFmul_le_self (a rate : spec_float) :
  valid32 a = true -> B32.isfinite a = true ->
  valid32 rate = true -> B32.isfinite rate = true ->
  SFleb (S754_zero false) a = true -> SFleb rate (B32.dec 1 0) = true ->
  SFleb (SFmul B32.prec B32.emax a rate) a = true.
Proof.
  intros Va Na Vr Nr H0 H1.
  apply (SFleb_ulps (S754_zero false) a eq_refl Va eq_refl Na) in H0.
  apply (SFleb_ulps rate (B32.dec 1 0) Vr eq_refl Nr eq_refl) in H1.
  change (ulps (S754_zero false)) with 0 in H0.
  assert (E1 : ulps (B32.dec 1 0) = 2 ^ 149) by (vm_compute; reflexivity).
  rewrite E1 in H1.
  apply (rounding_mono _ _ _ _ _ _ (-298) _ _
           (SFmul_rounding a rate Va Vr Na Nr)
           (rounding_rebase _ _ _ (-298) _ (number_rounding a Va Na) ltac:(lia)));
    try lia.
  replace (-298 - -298) with 0 by lia. replace (-149 - -298) with 149 by lia.
  change (2 ^ 0) with 1.
  assert (0 < 2 ^ 149) by (apply Z.pow_pos_nonneg; lia).
  nia.
Qed.

(** The value the return block leaves, in binary32. *)
Lemma ramp_value (a rate : B32.float32) (t : bool) :
  valid32 a = true -> B32.isfinite a = true ->
  valid32 rate = true -> (rate <=? fone)%fl = true ->
  (t = true -> (fdec 25 2 <=? a)%fl = true) ->
  let a1 := if t then (a * rate)%fl else a in
  let b := if (a1 <? fdec 25 2)%fl then fzero else a1 in
  ramp_step rate a b /\ valid32 b = true /\ B32.isfinite b = true.
Proof.
  intros Va Na Vr Hr Ht. cbv zeta. unfold ramp_step.
  cbn [fle flt fmul b32_ops] in *.
  set (floor := @fdec B32.float32 b32_ops 25 2) in *.
  set (one := @fone B32.float32 b32_ops) in *.
  assert (Ez : (@fzero B32.float32 b32_ops) = S754_zero false)
    by (vm_compute; reflexivity).
  rewrite Ez.
  assert (Hzf : SFleb (S754_zero false) floor = true) by reflexivity.
  assert (Hzf' : SFltb (S754_zero false) floor = true) by reflexivity.
  assert (Nfl : floor <> S754_nan) by discriminate.
  assert (Oa : ordered a) by now apply ordered_number.
  destruct Oa as [_ Nna].
  (* the ramped value is at most the old one, and is not NaN *)
  assert (Hmul : SFleb floor a = true ->
                 SFleb (SFmul B32.prec B32.emax a rate) a = true).
  { intros Hfa.
    pose proof (SFleb_trans _ _ _ Hzf Hfa) as H0.
    destruct (SFleb_number_r rate one) as [-> | Nr];
      [split; [exact Vr | apply (SFleb_not_nan _ _ Hr)] | exact Hr | reflexivity | | ].
    - (* a factor of -inf *)
      destruct a as [sa | sa | | [ | ] ma ea]; try discriminate Na;
        try discriminate Hfa; try (destruct sa; discriminate Hfa).
      reflexivity.
    - now apply SFmul_le_self. }
  destruct t.
  - specialize (Ht eq_refl). specialize (Hmul Ht).
    set (a1 := SFmul B32.prec B32.emax a rate) in *.
    destruct (SFleb_not_nan _ _ Hmul) as [Nn1 _].
    destruct (SFltb a1 floor) eqn:E.
    + split; [ | split; reflexivity].
      split; [right; right; reflexivity | ].
      split; [intros _; apply (SFleb_trans _ _ _ Hzf Ht) | ].
      split; [ | left; reflexivity].
      intros Hlt. exfalso.
      rewrite SFltb_negb_SFleb in Hlt by assumption. now rewrite Ht in Hlt.
    + assert (Hfa1 : SFleb floor a1 = true).
      { destruct (SFleb_total floor a1 Nfl Nn1) as [K | K]; [exact K | ].
        now rewrite K in E. }
      assert (V1 : valid32 a1 = true /\ B32.isfinite a1 = true).
      { destruct (SFleb_number_r a1 a) as [E1 | N1]; try assumption.
        - split; [ | exact Nn1].
          (* the product is valid *)
          destruct rate as [sr | sr | | sr mr er].
          + unfold a1. destruct a; try discriminate Na; reflexivity.
          + unfold a1. destruct a; try discriminate Na; reflexivity.
          + discriminate Hr.
          + unfold a1.
            exact (proj1 (rounding_ordered _ _ _ _
                            (SFmul_rounding a _ Va Vr Na eq_refl))).
        - rewrite E1 in E. discriminate E.
        - split; [ | exact N1].
          destruct rate as [sr | sr | | sr mr er].
          + unfold a1. destruct a; try discriminate Na; reflexivity.
          + unfold a1. destruct a; try discriminate Na; reflexivity.
          + discriminate Hr.
          + unfold a1.
            exact (proj1 (rounding_ordered _ _ _ _
                            (SFmul_rounding a _ Va Vr Na eq_refl))). }
      split; [ | exact V1].
      split; [right; left; reflexivity | ].
      split; [intros _; exact Hmul | ].
      split; [ | right; exact Hfa1].
      intros Hlt. exfalso.
      rewrite SFltb_negb_SFleb in Hlt by assumption. now rewrite Ht in Hlt.
  - destruct (SFltb a floor) eqn:E.
    + split; [ | split; reflexivity].
      split; [right; right; reflexivity | ].
      split; [ | split; [intros _; reflexivity | left; reflexivity]].
      intros Hfa. exfalso.
      rewrite SFltb_negb_SFleb in E by assumption. now rewrite Hfa in E.
    + split; [ | split; assumption].
      split; [left; reflexivity | ].
      split; [intros _; now apply SFleb_refl | ].
      split; [intros K; discriminate K | right].
      destruct (SFleb_total floor a Nfl Nna) as [K | K]; [exact K | ].
      now rewrite K in E.
Qed.

(** C5: during the return phase, over every sequence of successive calls,
    each call in which the block runs takes the commanded altitude
    [setout_Z] to the value of the return block: multiplied by the ramp
    factor when the vehicle is under the return aim and the commanded
    altitude is at or above the 0.25 m floor, then replaced by 0 when under
    the floor.  So each call leaves it alone, multiplies it by the ramp
    factor or replaces it by 0; it does not grow from a value at or above
    the floor; a value under the floor becomes exactly 0; and what a call
    leaves is 0 or at least the floor.  A call in which the block does not
    run leaves it alone.  The ramp factor [return_degress_rate], declared
    in the absent header, is taken to be at most 1. *)
Theorem returning_altitude_ramp
    (cfg : config B32.float32) (ins : list (cycle_in B32.float32))
    (i : cycle_in B32.float32) (s : state B32.float32) :
  valid32 (return_degress_rate cfg) = true ->
  (return_degress_rate cfg <=? fone)%fl = true ->
  valid32 (setout_Z s) = true ->
  fisfinite (setout_Z s) = true ->
  returning s ->
  let p := run_cycles cfg ins s in
  let q := control_attitude_rates cfg i p in
  returning q
  /\ setout_Z q
     = (if cywmc_able p then ramped_altitude cfg (altitude_read i p) p
        else setout_Z p)
  /\ back_Z_aim q
     = (if cywmc_able p && ramp_test cfg (altitude_read i p) p
        then (- altitude_read i p * return_degress_rate cfg)%fl
        else back_Z_aim p)
  /\ (cywmc_able p = true ->
      ramp_step (return_degress_rate cfg) (setout_Z p) (setout_Z q)).
Proof.
  intros Vr Hr. revert s.
  assert (Hcall : forall (j : cycle_in B32.float32) (p : state B32.float32),
             valid32 (setout_Z p) = true -> B32.isfinite (setout_Z p) = true ->
             returning p ->
             let q := control_attitude_rates cfg j p in
             (returning q
              /\ setout_Z q
                 = (if cywmc_able p then ramped_altitude cfg (altitude_read j p) p
                    else setout_Z p)
              /\ back_Z_aim q
                 = (if cywmc_able p && ramp_test cfg (altitude_read j p) p
                    then (- altitude_read j p * return_degress_rate cfg)%fl
                    else back_Z_aim p)
              /\ (cywmc_able p = true ->
                  ramp_step (return_degress_rate cfg) (setout_Z p) (setout_Z q)))
             /\ valid32 (setout_Z q) = true /\ B32.isfinite (setout_Z q) = true).
  { intros j p Vp Np Hp. cbv zeta.
    destruct (returning_call cfg j p Hp) as (Hq & Hz & Ha).
    cbv zeta in Hq, Hz, Ha.
    assert (Ht : ramp_test cfg (altitude_read j p) p = true ->
                 (fdec 25 2 <=? setout_Z p)%fl = true).
    { unfold ramp_test. intros K. apply andb_prop in K. apply K. }
    destruct (ramp_value (setout_Z p) (return_degress_rate cfg)
                (ramp_test cfg (altitude_read j p) p) Vp Np Vr Hr Ht)
      as (Hstep & Vb & Nb).
    cbv zeta in Hstep, Vb, Nb.
    change (ramp_step (return_degress_rate cfg) (setout_Z p)
              (ramped_altitude cfg (altitude_read j p) p)) in Hstep.
    change (valid32 (ramped_altitude cfg (altitude_read j p) p) = true) in Vb.
    change (B32.isfinite (ramped_altitude cfg (altitude_read j p) p) = true) in Nb.
    rewrite Hz. destruct (cywmc_able p).
    - split; [ | split; assumption].
      split; [exact Hq | ]. split; [reflexivity | ].
      split; [exact Ha | ]. intros _. exact Hstep.
    - split; [ | split; assumption].
      split; [exact Hq | ]. split; [reflexivity | ].
      split; [exact Ha | ]. intros K. discriminate K. }
  induction ins as [ | j ins IH]; intros s Vs Ns Hs.
  - apply (Hcall i s Vs Ns Hs).
  - cbn [run_cycles fold_left].
    destruct (Hcall j s Vs Ns Hs) as ((Hq & _) & Vq & Nq).
    apply (IH (control_attitude_rates cfg j s) Vq Nq Hq).
Qed.

End ReturnRampFloat.

Lemma returning_altitude_ramp_witness :
  ReturnRamp.ramp_step
    (ModernControl.return_degress_rate (Flight.cfg (F := B32.float32)))
    (ModernControl.setout_Z
       (ModernControl.run_cycles Flight.cfg [Flight.at_run_t 10 (Scenario.f32 2 0)]
          (Flight.coming_down (Scenario.f32 2 0))))
    (ModernControl.setout_Z
       (ModernControl.control_attitude_rates Flight.cfg
          (Flight.at_run_t 12 (Scenario.f32 17 1))
          (ModernControl.run_cycles Flight.cfg [Flight.at_run_t 10 (Scenario.f32 2 0)]
             (Flight.coming_down (Scenario.f32 2 0))))).
Proof.
  refine (proj2 (proj2 (proj2
    (returning_altitude_ramp Flight.cfg [Flight.at_run_t 10 (Scenario.f32 2 0)]
       (Flight.at_run_t 12 (Scenario.f32 17 1))
       (Flight.coming_down (Scenario.f32 2 0)) _ _ _ _ _))) _).
  - vm_compute. reflexivity.
  - vm_compute. reflexivity.
  - vm_compute. reflexivity.
  - vm_compute. reflexivity.
  - split; reflexivity.
  - vm_compute. reflexivity.
Defined.

(** The ramp at work in binary32: coming down from a commanded 2 m with the
    ramp factor 0.9, the commanded altitude steps to 1.8 m, waits for the
    vehicle, steps on, and is snapped to 0 from 0.2542 m. *)
Example returning_trace_b32 :
  map (@ModernControl.setout_Z B32.float32)
    (ModernControl.trace Flight.cfg
       [ Flight.at_run_t 51 (Scenario.f32 2 0);
         Flight.at_run_t 52 (Scenario.f32 2 0);
         Flight.at_run_t 53 (Scenario.f32 17 1) ]
       (Flight.coming_down (Scenario.f32 2 0)))
  = [ (Scenario.f32 2 0 * Scenario.f32 9 1)%fl;
      (Scenario.f32 2 0 * Scenario.f32 9 1)%fl;
      (Scenario.f32 2 0 * Scenario.f32 9 1 * Scenario.f32 9 1)%fl ]
  /\ ModernControl.setout_Z
       (ModernControl.control_attitude_rates Flight.cfg
          (Flight.at_run_t 60 (Scenario.f32 2 1))
          (Flight.coming_down (Scenario.f32 27 2)))
     = B32.pzero.
Proof. vm_compute. split; reflexivity. Qed.

(** * Further properties of the code *)

(** ** The loop's time step, in binary32 *)

Section LoopTiming.

Import Scheduler.

(** X1: every time step that is a number comes out of the guard within
    [0.0002 s, 0.02 s], and a time step already in that range is not
    changed. *)
Theorem clamp_dt_in_range (dt : B32.float32) :
  fisnan dt = false ->
  (fdec 2 4 <=? clamp_dt dt)%fl = true
  /\ (clamp_dt dt <=? fdec 2 2)%fl = true
  /\ ((fdec 2 4 <=? dt)%fl = true -> (dt <=? fdec 2 2)%fl = true ->
      clamp_dt dt = dt).
Proof.
  intros Hnan. unfold clamp_dt. cbn [flt fle fisnan fdec b32_ops] in *.
  destruct (SFltb dt (B32.dec 2 4)) eqn:Elo.
  - split; [reflexivity | split; [reflexivity | ]].
    intros Hle _. apply SFltb_of_SFleb in Hle. congruence.
  - destruct (SFltb (B32.dec 2 2) dt) eqn:Ehi.
    + split; [reflexivity | split; [reflexivity | ]].
      intros _ Hle. apply SFltb_of_SFleb in Hle. congruence.
    + split; [ | split; [ | reflexivity]].
      * apply SFleb_of_not_SFltb; [reflexivity | exact Hnan | exact Elo].
      * apply SFleb_of_not_SFltb; [exact Hnan | reflexivity | exact Ehi].
Qed.

Lemma clamp_dt_in_range_witness :
  (fdec 2 4 <=? clamp_dt (Scenario.f32 4 3))%fl = true
  /\ (clamp_dt (Scenario.f32 4 3) <=? fdec 2 2)%fl = true.
Proof.
  destruct (clamp_dt_in_range (Scenario.f32 4 3) eq_refl) as (Hlo & Hhi & _).
  split; assumption.
Defined.

(** The guard compares, so a NaN time step goes through it; a gap of a
    whole second is cut to 20 ms and a repeated clock reading gives
    0.2 ms. *)
Example clamp_dt_edges :
  clamp_dt B32.nan = B32.nan
  /\ loop_dt 2000000 1000000 = Scenario.f32 2 2
  /\ loop_dt 1000000 1000000 = Scenario.f32 2 4
  /\ loop_dt 1004000 1000000 = Scenario.f32 4 3.
Proof. vm_compute. repeat split. Qed.

End LoopTiming.

(** ** Throttle PID attenuation, in binary32 *)

Section PidAttenuationFloat.

(** X2: in binary32, for every thrust setpoint, breakpoint and rate, NaN
    and the infinities included, the roll and pitch attenuation factors are
    numbers within [0.05, 1] and the yaw factor is 1. *)
Theorem pid_attenuations_bounded_b32 (thrust_sp bp rate : B32.float32) :
  let a := pid_attenuations thrust_sp bp rate in
  (fdec 5 2 <=? vget a AXIS_INDEX_ROLL)%fl = true
  /\ (vget a AXIS_INDEX_ROLL <=? fone)%fl = true
  /\ fisnan (vget a AXIS_INDEX_ROLL) = false
  /\ vget a AXIS_INDEX_PITCH = vget a AXIS_INDEX_ROLL
  /\ vget a AXIS_INDEX_YAW = fone.
Proof.
  cbv zeta.
  change (vget (pid_attenuations thrust_sp bp rate) AXIS_INDEX_ROLL)
    with (tpa_factor thrust_sp bp rate).
  change (vget (pid_attenuations thrust_sp bp rate) AXIS_INDEX_PITCH)
    with (tpa_factor thrust_sp bp rate).
  change (vget (pid_attenuations thrust_sp bp rate) AXIS_INDEX_YAW)
    with (fone : B32.float32).
  unfold tpa_factor, TPA_RATE_LOWER_LIMIT.
  set (x := (fone - rate * (fabsf thrust_sp - bp) / (fone - bp))%fl).
  destruct (fmaxf_fminf_bounds (fdec 5 2) fone x) as (H1 & H2 & H3);
    try reflexivity.
  repeat split; assumption.
Qed.

(** A thrust setpoint of NaN leaves the gains unattenuated, and a breakpoint
    of 1 with thrust above it gives the lower limit. *)
Example pid_attenuations_edges :
  pid_attenuations B32.nan (Scenario.f32 5 1) (Scenario.f32 5 1)
  = [Scenario.f32 1 0; Scenario.f32 1 0; Scenario.f32 1 0]
  /\ pid_attenuations (Scenario.f32 12 1) (Scenario.f32 1 0) (Scenario.f32 5 1)
     = [Scenario.f32 5 2; Scenario.f32 5 2; Scenario.f32 1 0].
Proof. vm_compute. split; reflexivity. Qed.

End PidAttenuationFloat.

(** ** Landing gear, over runs of evaluations *)

Section LandingGearRuns.

Import LandingGear.

Lemma gear_run_app (before after : list gear_in) (init : bool) :
  gear_run (before ++ after) init
  = (fst (gear_run before init) ++ fst (gear_run after (snd (gear_run before init))),
     snd (gear_run after (snd (gear_run before init)))).
Proof.
  revert init. induction before as [ | i before IH]; intros init; simpl.
  - now destruct (gear_run after init).
  - destruct (get_landing_gear_state i init) as [g init'].
    rewrite IH.
    destruct (gear_run before init') as [gs final]. reflexivity.
Qed.

Lemma gear_run_airborne (ins : list gear_in) :
  Forall (fun i => landed i = false) ins ->
  gear_run ins true
  = (map (fun i => if is_on (gear_switch i) then GEAR_UP else GEAR_DOWN) ins, true).
Proof.
  induction 1 as [ | i rest Hl _ IH]; simpl; [reflexivity | ].
  unfold get_landing_gear_state. rewrite Hl.
  destruct (gear_switch i); cbn; now rewrite IH.
Qed.

(** X5: whatever happened before, the evaluation that sees the gear switch
    in the off position returns gear down, and from then on, for as long as
    the vehicle is not found landed, an evaluation returns gear up exactly
    when it finds the switch on. *)
Theorem gear_retracts_after_toggle
    (before after : list gear_in) (off : gear_in) (init : bool) :
  gear_switch off = SWITCH_POS_OFF ->
  Forall (fun i => landed i = false) after ->
  fst (gear_run (before ++ off :: after) init)
  = fst (gear_run before init)
    ++ GEAR_DOWN
       :: map (fun i => if is_on (gear_switch i) then GEAR_UP else GEAR_DOWN) after.
Proof.
  intros Hoff Hafter. rewrite gear_run_app. cbn [fst gear_run].
  f_equal.
  assert (E : get_landing_gear_state off (snd (gear_run before init))
              = (GEAR_DOWN, true)).
  { unfold get_landing_gear_state. rewrite Hoff. cbn.
    now destruct (landed off), (snd (gear_run before init)). }
  rewrite E, (gear_run_airborne after Hafter). reflexivity.
Qed.

(** X6: over every run of evaluations, from either value of the flag, the
    gear is commanded up only by an evaluation that finds the vehicle in
    the air and the switch on: no evaluation on the ground retracts it. *)
Theorem gear_up_only_airborne (ins : list gear_in) :
  forall init : bool,
    Forall (fun ig => snd ig = GEAR_UP ->
                      landed (fst ig) = false
                      /\ gear_switch (fst ig) = SWITCH_POS_ON)
      (combine ins (fst (gear_run ins init))).
Proof.
  induction ins as [ | i ins IH]; intros init; cbn [gear_run].
  - constructor.
  - pose proof (gear_up_inv i init) as Hup.
    destruct (get_landing_gear_state i init) as [g init'].
    specialize (IH init').
    destruct (gear_run ins init') as [gs final].
    cbn [fst combine] in *. constructor; [ | exact IH].
    cbn [fst snd]. intros E. destruct (Hup E) as (Hs & Hl & _). now split.
Qed.

End LandingGearRuns.

Lemma gear_retracts_after_toggle_witness :
  fst (LandingGear.gear_run
         (LandingGear.gear_held_on
          ++ {| LandingGear.landed := false;
                LandingGear.gear_switch := LandingGear.SWITCH_POS_OFF |}
             :: [ {| LandingGear.landed := false;
                     LandingGear.gear_switch := LandingGear.SWITCH_POS_ON |};
                  {| LandingGear.landed := false;
                     LandingGear.gear_switch := LandingGear.SWITCH_POS_MIDDLE |};
                  {| LandingGear.landed := false;
                     LandingGear.gear_switch := LandingGear.SWITCH_POS_ON |} ]) false)
  = fst (LandingGear.gear_run LandingGear.gear_held_on false)
    ++ [LandingGear.GEAR_DOWN; LandingGear.GEAR_UP; LandingGear.GEAR_DOWN;
        LandingGear.GEAR_UP].
Proof.
  apply (gear_retracts_after_toggle LandingGear.gear_held_on
           [ {| LandingGear.landed := false;
                LandingGear.gear_switch := LandingGear.SWITCH_POS_ON |};
             {| LandingGear.landed := false;
                LandingGear.gear_switch := LandingGear.SWITCH_POS_MIDDLE |};
             {| LandingGear.landed := false;
                LandingGear.gear_switch := LandingGear.SWITCH_POS_ON |} ]
           {| LandingGear.landed := false;
              LandingGear.gear_switch := LandingGear.SWITCH_POS_OFF |} false).
  - reflexivity.
  - repeat constructor.
Defined.

(** ** Vehicle status and the actuator topic *)

Section VehicleStatus.

Import Scheduler.

Lemma status_polls_chosen (msgs : list (option vehicle_status_s)) :
  forall (s : status_state) (id : orb_id),
    _actuators_id s = Some id ->
    _actuators_id (status_polls msgs s) = Some id.
Proof.
  unfold status_polls.
  induction msgs as [ | m msgs IH]; intros s id Hid; simpl; [exact Hid | ].
  apply IH. destruct m as [m | ]; simpl; [now rewrite Hid | exact Hid].
Qed.

(** X7: the actuator topic is chosen by the first status message and never
    again: over any run of polls, a topic already chosen is kept, and
    while none is chosen the topic becomes that of the first message
    received (and stays unset while no message arrives), even when a later
    message reports the other vehicle type. *)
Theorem actuator_topic_latched
    (msgs : list (option vehicle_status_s)) (s : status_state) :
  _actuators_id (status_polls msgs s)
  = match _actuators_id s with
    | Some id => Some id
    | None => option_map topic_of (first_message msgs)
    end.
Proof.
  destruct (_actuators_id s) as [id | ] eqn:Hs.
  - now apply status_polls_chosen.
  - revert s Hs. unfold status_polls.
    induction msgs as [ | m msgs IH]; intros s Hs; simpl.
    + exact Hs.
    + destruct m as [m | ].
      * apply (status_polls_chosen msgs). simpl. now rewrite Hs.
      * apply IH. exact Hs.
Qed.

End VehicleStatus.

(** ** Gyro selection from start-up *)

Section GyroSelection.

Context {F : Type} `{FloatOps F}.

(** X8: from start-up, whatever the number of gyro topics and whatever the
    sensor_correction messages, the selected gyro is one of the subscribed
    instances, of which there are between 1 and 3 and no more than there
    are topics: the subscription the loop polls and copies from exists. *)
Theorem selected_gyro_is_subscribed
    (group_count : N) (msgs : list (option (sensor_correction_s F))) :
  let s := poll_all msgs (gyro_selection_init group_count) in
  (_selected_gyro s < _gyro_count s)%N
  /\ (1 <= _gyro_count s <= MAX_GYRO_COUNT)%N
  /\ (group_count = 0 \/ _gyro_count s <= group_count)%N.
Proof.
  cbv zeta.
  destruct (init_selected_in_range (F := F) group_count) as [Hsel Hmax].
  pose proof (poll_all_selected_in_range msgs _ Hsel) as Hin.
  rewrite poll_all_gyro_count.
  split; [exact Hin | ].
  split; [lia | ].
  unfold gyro_selection_init, MAX_GYRO_COUNT. cbn [_gyro_count].
  destruct (N.eqb_spec (N.min group_count 3) 0); lia.
Qed.

End GyroSelection.

(** ** The published message *)

Section PublishedMessage.

Import Publisher.

Context {F : Type} `{FloatOps F}.

(** X9: the message [publish_actuator_controls] leaves in [_actuators]:
    channels 0 to 3 carry the sanitised torque and thrust demands, times
    the battery scale when compensation is on and the scale is positive;
    channels 4 to 6 keep what they held; channel 7 carries the landing
    gear, never scaled; and the two time stamps are the clock and the gyro
    sample's. *)
Theorem published_message_layout
    (now gyro_timestamp : Z) (s : publisher F) :
  length (control (_actuators s)) = 8%nat ->
  let a := fst (publish_actuator_controls now gyro_timestamp s) in
  let scaled := _bat_scale_en s && (_battery_status_scale s >? fzero)%fl in
  (forall k : nat, (k < 4)%nat ->
     vget (control a) k
     = if scaled
       then (finite_or_zero (primary_channel s k) * _battery_status_scale s)%fl
       else finite_or_zero (primary_channel s k))
  /\ (forall k : nat, (4 <= k < 7)%nat ->
        vget (control a) k = vget (control (_actuators s)) k)
  /\ vget (control a) 7 = _landing_gear s
  /\ length (control a) = 8%nat
  /\ timestamp a = now
  /\ timestamp_sample a = gyro_timestamp.
Proof.
  intros Hlen. cbv zeta. unfold publish_actuator_controls.
  cbn [fst control timestamp timestamp_sample].
  destruct (control (_actuators s))
    as [ | c0 [ | c1 [ | c2 [ | c3 [ | c4 [ | c5 [ | c6 [ | c7 [ | c8 rest]]]]]]]]];
    try discriminate Hlen.
  destruct (_bat_scale_en s && (_battery_status_scale s >? fzero)%fl).
  - split; [ | split; [ | repeat split]].
    + intros k Hk. destruct k as [ | [ | [ | [ | k]]]]; try lia; reflexivity.
    + intros k Hk.
      destruct k as [ | [ | [ | [ | [ | [ | [ | k]]]]]]]; try lia; reflexivity.
  - split; [ | split; [ | repeat split]].
    + intros k Hk. destruct k as [ | [ | [ | [ | k]]]]; try lia; reflexivity.
    + intros k Hk.
      destruct k as [ | [ | [ | [ | [ | [ | [ | k]]]]]]]; try lia; reflexivity.
Qed.

End PublishedMessage.

Lemma published_message_layout_witness :
  vget (Publisher.control
          (fst (Publisher.publish_actuator_controls 1000 990
                  PublisherScenario.nan_roll_scale_1_1))) 7
  = Scenario.f32 (-1) 0.
Proof.
  exact (proj1 (proj2 (proj2
           (published_message_layout 1000 990
              PublisherScenario.nan_roll_scale_1_1 eq_refl)))).
Defined.

(** ** Flight termination *)

Section FlightTermination.

Import Publisher.

(** X10: on flight termination of a multicopter the message published has
    positive zero on the three torque channels and on the thrust channel,
    whatever the controller had commanded, as long as battery compensation
    is off or its scale factor is not +infinity. *)
Theorem termination_publishes_zero
    (now gyro_timestamp : Z) (s : publisher B32.float32) (k : nat) :
  length (control (_actuators s)) = 8%nat ->
  _bat_scale_en s = false \/ _battery_status_scale s <> B32.pinf ->
  (k < 4)%nat ->
  vget (control (fst (Scheduler.terminate now gyro_timestamp s))) k = B32.pzero.
Proof.
  intros Hlen Hscale Hk. unfold Scheduler.terminate, publish_actuator_controls.
  cbn [fst control _att_control _thrust_sp _landing_gear _bat_scale_en
       _battery_status_scale _actuators].
  destruct (control (_actuators s))
    as [ | c0 [ | c1 [ | c2 [ | c3 [ | c4 [ | c5 [ | c6 [ | c7 [ | c8 rest]]]]]]]]];
    try discriminate Hlen.
  destruct (_bat_scale_en s && (_battery_status_scale s >? fzero)%fl) eqn:Hen.
  - apply andb_prop in Hen. destruct Hen as [Hen Hpos].
    destruct Hscale as [Hoff | Hinf]; [congruence | ].
    pose proof (zero_times_positive_scale _ Hinf Hpos) as Hz.
    destruct k as [ | [ | [ | [ | k]]]]; try lia; exact Hz.
  - destruct k as [ | [ | [ | [ | k]]]]; try lia; reflexivity.
Qed.

End FlightTermination.

Lemma termination_publishes_zero_witness :
  vget (Publisher.control
          (fst (Scheduler.terminate 1000 990 PublisherScenario.nan_roll_scale_1_1))) 3
  = B32.pzero.
Proof.
  apply (termination_publishes_zero 1000 990 PublisherScenario.nan_roll_scale_1_1 3).
  - reflexivity.
  - right. vm_compute. discriminate.
  - lia.
Defined.

(** ** The state-space model across cycles *)

Section ModelSetUp.

Import ModernControl ModernControlViews.

Context {F : Type} `{FloatOps F}.

Lemma reset_integral_model_and_reference (i : cycle_in F) (s : state F) :
  model_and_reference (reset_integral i s) = model_and_reference s.
Proof.
  unfold reset_integral, when.
  destruct (negb (flag_armed i) || negb (is_rotary_wing i)); reflexivity.
Qed.

Lemma get_current_state_model_and_reference (i : cycle_in F) (s : state F) :
  model_and_reference (get_current_state i s) = model_and_reference s.
Proof.
  unfold get_current_state, poll_position, update_run_t.
  destruct (pos_update i), (flag_armed i && flag_control_rates_enabled i);
    try reflexivity;
    cbv beta zeta; unfold when; destruct (arm_t0 s <? fone)%fl; reflexivity.
Qed.

Lemma update_r_plant (s : state F) : plant (update_r s) = plant s.
Proof. apply when_frame. reflexivity. Qed.

Lemma mission_1_model_and_reference (s : state F) :
  model_and_reference (mission_1 s) = model_and_reference s.
Proof.
  unfold mission_1.
  transitivity (model_and_reference (mission_1_time_plan s)).
  - generalize (mission_1_time_plan s). intros p. unfold mission_1_content.
    repeat match goal with
           | |- context [if ?b then _ else _] => destruct b
           end; reflexivity.
  - apply when_frame. reflexivity.
Qed.

Lemma mission_2_model_and_reference (cfg : config F) (s : state F) :
  model_and_reference (mission_2 cfg s) = model_and_reference s.
Proof.
  unfold mission_2.
  transitivity (model_and_reference (mission_2_time_plan cfg s)).
  - generalize (mission_2_time_plan cfg s). intros p. unfold mission_2_content.
    repeat match goal with
           | |- context [if ?b then _ else _] => destruct b
           end; reflexivity.
  - apply when_frame. reflexivity.
Qed.

Lemma mission_model_and_reference (cfg : config F) (s : state F) :
  model_and_reference (mission cfg s) = model_and_reference s.
Proof.
  unfold mission. destruct (modern_control_mission_able cfg); [ | reflexivity].
  cbv zeta.
  rewrite (when_frame model_and_reference _ _ (mission_2_model_and_reference cfg)).
  rewrite (when_frame model_and_reference _ _ mission_1_model_and_reference).
  reflexivity.
Qed.

Lemma safety_check_model_and_reference (cfg : config F) (s : state F) :
  model_and_reference (safety_check cfg s) = model_and_reference s.
Proof. apply when_frame. reflexivity. Qed.

Lemma return_back_model_and_reference (cfg : config F) (Z : F) (s : state F) :
  model_and_reference (return_back cfg Z s) = model_and_reference s.
Proof.
  apply when_frame. intros p. cbv zeta.
  rewrite !(when_frame model_and_reference); reflexivity.
Qed.

Lemma main_feedback_model_and_reference
    (i : cycle_in F) (Z rate_Z : F) (s : state F) :
  model_and_reference (main_feedback i Z rate_Z s) = model_and_reference s.
Proof. apply when_frame. reflexivity. Qed.

Lemma give_output_model_and_reference (cfg : config F) (s : state F) :
  model_and_reference (give_output cfg s) = model_and_reference s.
Proof.
  unfold give_output.
  destruct (give_output_able s), (cywmc_angle_control cfg); reflexivity.
Qed.

(** From the reference update on, a cycle leaves the model and the
    reference alone. *)
Lemma after_update_r_model_and_reference
    (cfg : config F) (i : cycle_in F) (Z rate_Z : F) (u : state F) :
  model_and_reference
    (give_output cfg
       (main_feedback i Z rate_Z
          (return_back cfg Z (safety_check cfg (mission cfg u)))))
  = model_and_reference u.
Proof.
  rewrite give_output_model_and_reference, main_feedback_model_and_reference,
    return_back_model_and_reference, safety_check_model_and_reference.
  apply mission_model_and_reference.
Qed.

Lemma model_and_reference_members (s s' : state F) :
  model_and_reference s = model_and_reference s' ->
  plant s = plant s' /\ ss_seted s = ss_seted s' /\ ss_r s = ss_r s'
  /\ ss_G_scale s = ss_G_scale s'.
Proof.
  unfold model_and_reference, plant. intros E. injection E as -> -> -> -> -> -> ->.
  repeat split.
Qed.

Lemma ss_init_set (cfg : config F) (s : state F) :
  ss_seted s <> 0%Z -> ss_init cfg s = s.
Proof.
  intros Hs. unfold ss_init, when.
  destruct (Z.eqb_spec (ss_seted s) 0); [contradiction | reflexivity].
Qed.

Lemma ss_init_unset (cfg : config F) (s : state F) :
  ss_seted s = 0%Z -> ss_init cfg s = ss_setup cfg s.
Proof. intros Hs. unfold ss_init, when. now rewrite Hs. Qed.

Lemma cycle_plant (cfg : config F) (i : cycle_in F) (s : state F) :
  ss_seted s <> 0%Z ->
  plant (control_attitude_rates cfg i s) = plant s.
Proof.
  intros Hs.
  destruct (cywmc_able s) eqn:Hcy.
  - rewrite (active_cycle cfg i s Hcy). cbv zeta.
    set (g0 := get_current_state i (reset_integral i s)).
    destruct (model_and_reference_members _ _
                (after_update_r_model_and_reference cfg i (z (pos_current g0))
                   (vz (pos_current g0)) (update_r (ss_init cfg g0)))) as (-> & _).
    rewrite update_r_plant.
    assert (Hg : model_and_reference g0 = model_and_reference s).
    { unfold g0. rewrite get_current_state_model_and_reference.
      apply reset_integral_model_and_reference. }
    destruct (model_and_reference_members _ _ Hg) as (Hp & Hseted & _).
    rewrite ss_init_set by congruence. exact Hp.
  - rewrite (disabled_block_is_skipped cfg i s Hcy).
    apply (model_and_reference_members _ _ (reset_integral_model_and_reference i s)).
Qed.

(** X11: the model is set up once: from a state whose set-up flag is
    raised, no run of calls changes the flag, the gain matrix K, the plant
    matrices A, B, C or the reference scaling G. *)
Theorem model_set_up_once (cfg : config F) (ins : list (cycle_in F)) :
  forall s : state F,
    ss_seted s <> 0%Z ->
    plant (run_cycles cfg ins s) = plant s.
Proof.
  unfold run_cycles. induction ins as [ | i ins IH]; intros s Hs; simpl.
  - reflexivity.
  - pose proof (cycle_plant cfg i s Hs) as Hp.
    rewrite IH.
    + exact Hp.
    + unfold plant in Hp. injection Hp as -> _ _ _ _ _. exact Hs.
Qed.

(** X12: the first call in which the block runs writes the model: the gain
    matrix is the constant K of the source, A couples each of the four
    outputs to its rate, B holds the inverse mass and inertias, C observes
    the first four states, and only the altitude entry of G is non-zero. *)
Theorem first_cycle_sets_up_model (cfg : config F) (i : cycle_in F) (s : state F) :
  cywmc_able s = true ->
  ss_seted s = 0%Z ->
  plant (control_attitude_rates cfg i s)
  = (1%Z, K_setup, A_setup, B_setup cfg, C_setup, G_scale_setup cfg).
Proof.
  intros Hcy Hs.
  rewrite (active_cycle cfg i s Hcy). cbv zeta.
  set (g0 := get_current_state i (reset_integral i s)).
  destruct (model_and_reference_members _ _
              (after_update_r_model_and_reference cfg i (z (pos_current g0))
                 (vz (pos_current g0)) (update_r (ss_init cfg g0)))) as (-> & _).
  rewrite update_r_plant.
  assert (Hg : model_and_reference g0 = model_and_reference s).
  { unfold g0. rewrite get_current_state_model_and_reference.
    apply reset_integral_model_and_reference. }
  destruct (model_and_reference_members _ _ Hg) as (_ & Hseted & _).
  rewrite ss_init_unset by congruence. reflexivity.
Qed.

End ModelSetUp.

Lemma model_set_up_once_witness :
  ModernControlViews.plant
    (ModernControl.run_cycles Flight.cfg
       [Flight.at_run_t 12 (Scenario.f32 1 0); Flight.at_run_t 13 (Scenario.f32 1 0)]
       (Flight.flown_to 6 (Scenario.f32 0 0)))
  = ModernControlViews.plant (Flight.flown_to 6 (Scenario.f32 0 0)).
Proof.
  apply (model_set_up_once Flight.cfg
           [Flight.at_run_t 12 (Scenario.f32 1 0); Flight.at_run_t 13 (Scenario.f32 1 0)]
           (Flight.flown_to 6 (Scenario.f32 0 0))).
  vm_compute. discriminate.
Defined.

Lemma first_cycle_sets_up_model_witness :
  ModernControlViews.plant
    (ModernControl.control_attitude_rates Flight.cfg
       (Flight.at_run_t 0 (Scenario.f32 0 0))
       (Flight.start_up 1 (Scenario.f32 100 0)))
  = (1%Z, ModernControlViews.K_setup, ModernControlViews.A_setup,
     ModernControlViews.B_setup Flight.cfg, ModernControlViews.C_setup,
     ModernControlViews.G_scale_setup Flight.cfg).
Proof.
  apply (first_cycle_sets_up_model Flight.cfg
           (Flight.at_run_t 0 (Scenario.f32 0 0))
           (Flight.start_up 1 (Scenario.f32 100 0))); reflexivity.
Defined.

(** ** Output suppression *)

Section OutputSuppression.

Import ModernControl ModernControlViews.

Context {F : Type} `{FloatOps F}.

Lemma safety_check_give_output_able (cfg : config F) (s : state F) :
  give_output_able (safety_check cfg s) = give_output_able s.
Proof. apply (when_frame give_output_able). reflexivity. Qed.

Lemma main_feedback_give_output_able (i : cycle_in F) (Z rate_Z : F) (s : state F) :
  give_output_able (main_feedback i Z rate_Z s) = give_output_able s
  /\ _att_control (main_feedback i Z rate_Z s) = _att_control s.
Proof.
  split.
  - apply (when_frame give_output_able). reflexivity.
  - apply (when_frame (@_att_control F)). reflexivity.
Qed.

(** The return block never enables the output. *)
Lemma return_back_keeps_output_off (cfg : config F) (Z : F) (s : state F) :
  give_output_able s = false ->
  give_output_able (return_back cfg Z s) = false.
Proof.
  intros Hoff. unfold return_back, when. cbv beta zeta.
  repeat match goal with
         | |- context [if ?b then _ else _] => destruct b
         end; cbn; try reflexivity; exact Hoff.
Qed.

(** On the ground in the return phase the return block disables the
    output. *)
Lemma return_back_grounded (cfg : config F) (Z : F) (s : state F) :
  return_back_to_0m_able s = true ->
  (- Z <? fdec 2 1)%fl = true ->
  give_output_able (return_back cfg Z s) = false.
Proof.
  intros Hret Hlow. unfold return_back, when. rewrite Hret. cbv beta zeta.
  rewrite Hlow. reflexivity.
Qed.

(** With the output disabled, the output stage zeroes the commands. *)
Lemma give_output_off (cfg : config F) (s : state F) :
  give_output_able s = false ->
  _thrust_sp (give_output cfg s) = fzero
  /\ (cywmc_angle_control cfg = true ->
      length (_att_control s) = 3%nat ->
      _att_control (give_output cfg s) = vzero 3).
Proof.
  intros Hoff. unfold give_output. rewrite Hoff.
  split.
  - destruct (cywmc_angle_control cfg); reflexivity.
  - intros -> Hlen. unfold when.
    destruct s as [? ? ? ? ? ? ? ? ? ? ? ? ? ? ? ? ? ? ? ? ? ? ? ? ? ? ? ? ? a ? ?].
    cbn [ModernControl._att_control] in Hlen.
    destruct a as [ | ? [ | ? [ | ? [ | ? ?]]]]; try discriminate Hlen.
    reflexivity.
Qed.

(** X13: with the mission sequencer switched off
    ([modern_control_mission_able] clear), every call in which the block
    runs commands zero thrust, and zero torques when the block drives the
    torque commands. *)
Theorem sequencer_off_commands_zero
    (cfg : config F) (i : cycle_in F) (s : state F) :
  modern_control_mission_able cfg = false ->
  cywmc_able s = true ->
  _thrust_sp (control_attitude_rates cfg i s) = fzero
  /\ (cywmc_angle_control cfg = true ->
      length (_att_control s) = 3%nat ->
      _att_control (control_attitude_rates cfg i s) = vzero 3).
Proof.
  intros Hoff Hcy. rewrite (active_cycle cfg i s Hcy). cbv zeta.
  set (g0 := get_current_state i (reset_integral i s)).
  set (u := update_r (ss_init cfg g0)).
  set (Z := z (pos_current g0)). set (rate_Z := vz (pos_current g0)).
  assert (Hm : give_output_able (mission cfg u) = false).
  { unfold mission. rewrite Hoff. reflexivity. }
  assert (Ha : _att_control (mission cfg u) = _att_control s).
  { unfold mission. rewrite Hoff.
    change (_att_control u = _att_control s). unfold u.
    transitivity (_att_control (ss_init cfg g0)).
    { apply (when_frame (@_att_control F)). reflexivity. }
    transitivity (_att_control g0).
    { apply (when_frame (@_att_control F)). reflexivity. }
    unfold g0, get_current_state, poll_position, update_run_t.
    destruct (reset_integral_members i s) as (_ & Hatt & _).
    rewrite <- Hatt. generalize (reset_integral i s). intros r.
    destruct (pos_update i), (flag_armed i && flag_control_rates_enabled i);
      try reflexivity;
      cbv beta zeta; unfold when; destruct (arm_t0 r <? fone)%fl; reflexivity. }
  set (p := main_feedback i Z rate_Z
              (return_back cfg Z (safety_check cfg (mission cfg u)))).
  assert (Hp : give_output_able p = false).
  { unfold p.
    rewrite (proj1 (main_feedback_give_output_able i Z rate_Z _)).
    apply return_back_keeps_output_off.
    now rewrite safety_check_give_output_able. }
  destruct (give_output_off cfg p Hp) as [Ht Hatt].
  split; [exact Ht | ].
  intros Hangle Hlen. apply Hatt; [exact Hangle | ].
  unfold p. rewrite (proj2 (main_feedback_give_output_able i Z rate_Z _)).
  assert (Hr : forall q, _att_control (return_back cfg Z q) = _att_control q).
  { intros q. apply (when_frame (@_att_control F)). intros q'. cbv zeta.
    rewrite !(when_frame (@_att_control F)); reflexivity. }
  rewrite Hr.
  assert (Hsc : forall q, _att_control (safety_check cfg q) = _att_control q).
  { intros q. apply (when_frame (@_att_control F)). reflexivity. }
  rewrite Hsc, Ha. exact Hlen.
Qed.

(** X14: in the return phase, a call that finds the vehicle less than
    0.2 m above the origin commands zero thrust: the motors are cut once
    the vehicle is on the ground. *)
Theorem return_on_ground_commands_zero
    (cfg : config F) (i : cycle_in F) (s : state F) :
  cywmc_able s = true ->
  returning s ->
  (- z (pos_current (get_current_state i (reset_integral i s))) <? fdec 2 1)%fl
  = true ->
  _thrust_sp (control_attitude_rates cfg i s) = fzero.
Proof.
  intros Hcy [Hret Hsel] Hlow. rewrite (active_cycle cfg i s Hcy). cbv zeta.
  set (g0 := get_current_state i (reset_integral i s)) in *.
  set (Z := z (pos_current g0)) in *. set (rate_Z := vz (pos_current g0)).
  set (m := safety_check cfg (mission cfg (update_r (ss_init cfg g0)))).
  assert (Halt : altitude_view m = altitude_view s).
  { unfold m. rewrite safety_check_altitude.
    assert (Hu : altitude_view (update_r (ss_init cfg g0)) = altitude_view s).
    { transitivity (altitude_view (ss_init cfg g0)).
      - apply (sequencer_members _ _ (update_r_sequencer _)).
      - transitivity (altitude_view g0).
        + apply (sequencer_members _ _ (ss_init_sequencer cfg _)).
        + unfold g0. rewrite get_current_state_altitude.
          apply (reset_integral_members i s). }
    rewrite mission_altitude_deselected; [exact Hu | ].
    unfold altitude_view in Hu. injection Hu as _ _ Hu. now rewrite Hu. }
  unfold altitude_view in Halt. injection Halt as _ Hmr _.
  assert (Hm : return_back_to_0m_able m = true) by now rewrite Hmr.
  apply give_output_off.
  rewrite (proj1 (main_feedback_give_output_able i Z rate_Z _)).
  now apply return_back_grounded.
Qed.

(** X15: the safety time-out is permanent: the call that finds the running
    time past the ceiling clears the block's guard, and after it no run of
    calls sets the guard again or changes the commands, which stay what
    that call computed. *)
Theorem safety_timeout_is_permanent
    (cfg : config F) (i : cycle_in F) (ins : list (cycle_in F)) (s : state F) :
  cywmc_able s = true ->
  (run_t (get_current_state i (reset_integral i s)) >? safety_return_time cfg)%fl
  = true ->
  let s1 := control_attitude_rates cfg i s in
  let s2 := run_cycles cfg (i :: ins) s in
  cywmc_able s2 = false
  /\ _thrust_sp s2 = _thrust_sp s1
  /\ _att_control s2 = _att_control s1.
Proof.
  intros Hcy Hlate. cbv zeta.
  pose proof (safety_timeout_disables_block cfg i s Hcy Hlate) as Hoff.
  change (run_cycles cfg (i :: ins) s)
    with (run_cycles cfg ins (control_attitude_rates cfg i s)).
  destruct (disabled_block_freezes_commands cfg ins _ Hoff) as (Hc & Ha & Ht).
  split; [exact Hc | split; [exact Ht | exact Ha]].
Qed.

End OutputSuppression.

Lemma sequencer_off_commands_zero_witness :
  ModernControl._thrust_sp
    (ModernControl.control_attitude_rates
       (ModernControlViews.sequencer_off Flight.cfg)
       (Flight.at_run_t 12 (Scenario.f32 1 0))
       (Flight.start_up 1 (Scenario.f32 100 0)))
  = B32.pzero.
Proof.
  refine (proj1 (sequencer_off_commands_zero
                   (ModernControlViews.sequencer_off Flight.cfg)
                   (Flight.at_run_t 12 (Scenario.f32 1 0))
                   (Flight.start_up 1 (Scenario.f32 100 0)) _ _)); reflexivity.
Defined.

Lemma return_on_ground_commands_zero_witness :
  ModernControl._thrust_sp
    (ModernControl.control_attitude_rates Flight.cfg
       (Flight.at_run_t 60 (Scenario.f32 1 1))
       (Flight.coming_down (Scenario.f32 27 2)))
  = B32.pzero.
Proof.
  refine (return_on_ground_commands_zero Flight.cfg
            (Flight.at_run_t 60 (Scenario.f32 1 1))
            (Flight.coming_down (Scenario.f32 27 2)) _ _ _).
  - reflexivity.
  - split; reflexivity.
  - vm_compute. reflexivity.
Defined.

Lemma safety_timeout_is_permanent_witness :
  ModernControl.cywmc_able
    (ModernControl.run_cycles Flight.cfg
       [Flight.at_run_t 31 (Scenario.f32 15 1); Flight.at_run_t 32 (Scenario.f32 15 1)]
       (ModernControl.control_attitude_rates Flight.cfg
          (Flight.at_run_t 0 (Scenario.f32 0 0))
          (Flight.start_up 1 (Scenario.f32 100 0))))
  = false.
Proof.
  refine (proj1 (safety_timeout_is_permanent Flight.cfg
                   (Flight.at_run_t 31 (Scenario.f32 15 1))
                   [Flight.at_run_t 32 (Scenario.f32 15 1)]
                   (ModernControl.control_attitude_rates Flight.cfg
                      (Flight.at_run_t 0 (Scenario.f32 0 0))
                      (Flight.start_up 1 (Scenario.f32 100 0))) _ _)).
  - vm_compute. reflexivity.
  - vm_compute. reflexivity.
Defined.

(** ** Running time, in binary32 *)

Section RunningTime.

Import ModernControl ModernControlViews.

Lemma last_cons_default {A : Type} (l : list A) :
  forall x d d' : A, last (x :: l) d = last (x :: l) d'.
Proof.
  induction l as [ | y l IH]; intros x d d'; [reflexivity | ].
  change (last (y :: l) d = last (y :: l) d'). apply IH.
Qed.

Lemma run_time_while_armed (rest : list (cycle_in B32.float32)) :
  forall (first : cycle_in B32.float32) (s : state B32.float32),
    Forall armed_cycle rest ->
    (arm_t0 s <? fone)%fl = false ->
    run_t s = ((hrt_run first - arm_t0 s) / fdec 1000000 0)%fl ->
    arm_t0 (run_time_after rest s) = arm_t0 s
    /\ run_t (run_time_after rest s)
       = ((hrt_run (last rest first) - arm_t0 s) / fdec 1000000 0)%fl.
Proof.
  unfold run_time_after.
  induction rest as [ | i rest IH]; intros first s Hall Hset Hrun.
  - split; [reflexivity | exact Hrun].
  - inversion Hall as [ | ? ? Hi Hrest]; subst.
    assert (Hstep : arm_t0 (update_run_t i s) = arm_t0 s
                    /\ run_t (update_run_t i s)
                       = ((hrt_run i - arm_t0 s) / fdec 1000000 0)%fl).
    { unfold update_run_t. unfold armed_cycle in Hi. rewrite Hi.
      cbv zeta. unfold when, assign. rewrite Hset. split; reflexivity. }
    destruct Hstep as [Ha Hr].
    cbn [fold_left].
    destruct (IH i (update_run_t i s) Hrest) as [Ha' Hr'].
    + now rewrite Ha.
    + now rewrite Ha.
    + rewrite Ha in Ha', Hr'. split; [exact Ha' | ].
      rewrite Hr'. destruct rest as [ | c rest]; [reflexivity | ].
      now rewrite (last_cons_default rest c i first).
Qed.

(** X16: the running time counts from the arming: after a disarmed call,
    over any run of armed calls, the arming clock holds the first armed
    call's clock reading (taken to be at least 1 microsecond) and the
    running time is the last call's reading minus that one, in seconds; the
    disarmed call resets both to zero whatever they were. *)
Theorem run_time_counts_from_arming
    (d first : cycle_in B32.float32) (rest : list (cycle_in B32.float32))
    (s : state B32.float32) :
  flag_armed d && flag_control_rates_enabled d = false ->
  Forall armed_cycle (first :: rest) ->
  (hrt_arm first <? fone)%fl = false ->
  arm_t0 (update_run_t d s) = fzero
  /\ run_t (update_run_t d s) = fzero
  /\ arm_t0 (run_time_after (d :: first :: rest) s) = hrt_arm first
  /\ run_t (run_time_after (d :: first :: rest) s)
     = ((hrt_run (last rest first) - hrt_arm first) / fdec 1000000 0)%fl.
Proof.
  intros Hd Hall Hclock.
  inversion Hall as [ | ? ? Hfirst Hrest]; subst.
  assert (H0 : arm_t0 (update_run_t d s) = fzero
               /\ run_t (update_run_t d s) = fzero).
  { unfold update_run_t. rewrite Hd. split; reflexivity. }
  destruct H0 as [Ha0 Hr0].
  split; [exact Ha0 | split; [exact Hr0 | ]].
  change (run_time_after (d :: first :: rest) s)
    with (run_time_after rest (update_run_t first (update_run_t d s))).
  set (s0 := update_run_t d s) in *.
  assert (H1 : arm_t0 (update_run_t first s0) = hrt_arm first
               /\ run_t (update_run_t first s0)
                  = ((hrt_run first - hrt_arm first) / fdec 1000000 0)%fl).
  { unfold update_run_t. unfold armed_cycle in Hfirst. rewrite Hfirst.
    cbv zeta. unfold when, assign. rewrite Ha0.
    change ((fzero <? fone)%fl : bool) with true. split; reflexivity. }
  destruct H1 as [Ha1 Hr1].
  destruct (run_time_while_armed rest first (update_run_t first s0) Hrest)
    as [Ha Hr].
  - now rewrite Ha1.
  - now rewrite Ha1.
  - rewrite Ha1 in Ha, Hr. split; assumption.
Qed.

End RunningTime.

Lemma run_time_counts_from_arming_witness :
  ModernControl.run_t
    (ModernControlViews.run_time_after
       [ ModernControlViews.disarmed (Flight.armed_at 500000 (Scenario.f32 0 0));
         Flight.armed_at 1000000 (Scenario.f32 0 0);
         Flight.armed_at 3000000 (Scenario.f32 1 0) ]
       (Flight.start_up 1 (Scenario.f32 100 0)))
  = ((Scenario.f32 3000000 0 - Scenario.f32 1000000 0) / Scenario.f32 1000000 0)%fl.
Proof.
  refine (proj2 (proj2 (proj2
    (run_time_counts_from_arming
       (ModernControlViews.disarmed (Flight.armed_at 500000 (Scenario.f32 0 0)))
       (Flight.armed_at 1000000 (Scenario.f32 0 0))
       [Flight.armed_at 3000000 (Scenario.f32 1 0)]
       (Flight.start_up 1 (Scenario.f32 100 0)) _ _ _)))).
  - reflexivity.
  - repeat constructor.
  - vm_compute. reflexivity.
Defined.

(** ** Mission schedules, in binary32 *)

Section MissionSchedules.

Import ModernControl ModernControlViews.

Local Open Scope Z_scope.

Lemma SFltb_asym (x y : spec_float) : SFltb x y = true -> SFltb y x = false.
Proof. intros H. apply SFltb_of_SFleb. now apply SFltb_SFleb. Qed.

(** X17: mission 1 in binary32, on a state whose time plan is not set
    yet: the plan is [5, 15, 15, 15] seconds; before 5 s the output is
    disabled and the commands are zeroed; strictly after 5 s and before
    20 s the commanded altitude is 1 m, from 20 s to 35 s it is 1.5 m, from
    35 s to 50 s it is 2 m, each with a reference update requested; from
    50 s on, at exactly 5 s, and when the running time is NaN, the return
    phase starts with the commanded altitude left as it was. *)
Theorem mission_1_altitude_schedule (s : state B32.float32) :
  is_msl_t_set s = false ->
  length (ms1_t s) = 4%nat ->
  let s' := mission_1 s in
  let t := run_t s in
  ms1_t s' = [fdec 5 0; fdec 15 0; fdec 15 0; fdec 15 0]
  /\ ((t <? fdec 5 0)%fl = true ->
      give_output_able s' = false /\ _thrust_sp s' = fzero
      /\ setout_Z s' = setout_Z s)
  /\ ((fdec 5 0 <? t)%fl = true /\ (t <? fdec 20 0)%fl = true ->
      setout_Z s' = fdec 1 0 /\ need_update_r s' = true)
  /\ ((fdec 20 0 <=? t)%fl = true /\ (t <? fdec 35 0)%fl = true ->
      setout_Z s' = fdec 15 1 /\ need_update_r s' = true)
  /\ ((fdec 35 0 <=? t)%fl = true /\ (t <? fdec 50 0)%fl = true ->
      setout_Z s' = fdec 2 0 /\ need_update_r s' = true)
  /\ (t = fdec 5 0 \/ (fdec 50 0 <=? t)%fl = true \/ fisnan t = true ->
      returning s' /\ start_return_back_runt s' = t
      /\ setout_Z s' = setout_Z s).
Proof.
  intros Hset Hlen. cbv zeta.
  unfold mission_1, mission_1_time_plan, when. rewrite Hset. cbn [negb].
  destruct s as [? ? t ? ? ? ? ? ? ? ? ? ? ? ? ? ? ? ? ? ? ? ? ? plan ? ? ? ? ? ? ?].
  cbn [ModernControl.ms1_t ModernControl.run_t ModernControl.setout_Z] in *.
  destruct plan as [ | ? [ | ? [ | ? [ | ? [ | ? ?]]]]]; try discriminate Hlen.
  unfold mission_1_content. cbv zeta.
  cbn [ms1_t_at set_ms1_t set_is_msl_t_set ModernControl.ms1_t ModernControl.run_t
       vset vget nth].
  cbn [flt fle fadd fisnan b32_ops].
  set (c5 := @fdec B32.float32 b32_ops 5 0).
  set (c15 := @fdec B32.float32 b32_ops 15 0).
  set (c20 := @fdec B32.float32 b32_ops 20 0).
  set (c35 := @fdec B32.float32 b32_ops 35 0).
  set (c50 := @fdec B32.float32 b32_ops 50 0).
  replace (SFadd B32.prec B32.emax c5 c15) with c20 by (vm_compute; reflexivity).
  replace (SFadd B32.prec B32.emax c20 c15) with c35 by (vm_compute; reflexivity).
  replace (SFadd B32.prec B32.emax c35 c15) with c50 by (vm_compute; reflexivity).
  assert (H520 : SFltb c5 c20 = true) by reflexivity.
  assert (H2035 : SFleb c20 c35 = true) by reflexivity.
  assert (H3550 : SFleb c35 c50 = true) by reflexivity.
  split.
  { repeat match goal with
           | |- context [if ?b then _ else _] => destruct b
           end; reflexivity. }
  split; [ | split; [ | split; [ | split]]].
  - intros H1. rewrite H1. repeat split.
  - intros [H1 H2]. rewrite (SFltb_asym _ _ H1), H1, H2. cbn [andb]. repeat split.
  - intros [H1 H2].
    pose proof (SFltb_leb_trans _ _ _ H520 H1) as H5t.
    rewrite (SFltb_asym _ _ H5t), H5t, (SFltb_of_SFleb _ _ H1), H2.
    cbn [andb]. repeat split.
  - intros [H1 H2].
    pose proof (SFleb_trans _ _ _ H2035 H1) as H20t.
    pose proof (SFltb_leb_trans _ _ _ H520 H20t) as H5t.
    rewrite (SFltb_asym _ _ H5t), H5t, (SFltb_of_SFleb _ _ H20t),
      (SFltb_of_SFleb _ _ H1), H2.
    cbn [andb]. repeat split.
  - intros [-> | [H1 | H1]].
    + rewrite SFltb_irrefl. cbn [andb]. repeat split.
    + pose proof (SFleb_trans _ _ _ H3550 H1) as H35t.
      pose proof (SFleb_trans _ _ _ H2035 H35t) as H20t.
      pose proof (SFltb_leb_trans _ _ _ H520 H20t) as H5t.
      rewrite (SFltb_asym _ _ H5t), H5t, (SFltb_of_SFleb _ _ H20t),
        (SFltb_of_SFleb _ _ H35t), (SFltb_of_SFleb _ _ H1).
      cbn [andb]. repeat split.
    + destruct t; try discriminate H1. cbn. repeat split.
Qed.

(** X18: mission 2 in binary32, on a state whose time plan is not set
    yet, with the stand-still time T0 and the hold time T1 of the
    configuration and their binary32 sum T0 + T1: before T0 the output is
    disabled and the commands are zeroed; strictly between T0 and T0 + T1
    the commanded altitude is the configured one, with a reference update
    requested; in every other case (at exactly T0, from T0 + T1 on, or a
    NaN among the three) the return phase starts with the commanded
    altitude left as it was. *)
Theorem mission_2_altitude_schedule
    (cfg : config B32.float32) (s : state B32.float32) :
  is_msl_t_set s = false ->
  length (ms1_t s) = 4%nat ->
  let s' := mission_2 cfg s in
  let t := run_t s in
  let T0 := mission_2_time_still cfg in
  let T1 := mission_2_time_height cfg in
  ((t <? T0)%fl = true ->
   give_output_able s' = false /\ _thrust_sp s' = fzero
   /\ setout_Z s' = setout_Z s)
  /\ ((T0 <? t)%fl = true /\ (t <? T0 + T1)%fl = true ->
      setout_Z s' = mission_2_setout_Z cfg /\ need_update_r s' = true)
  /\ ((t <? T0)%fl = false
      /\ ((T0 <? t)%fl = false \/ (t <? T0 + T1)%fl = false) ->
      returning s' /\ start_return_back_runt s' = t
      /\ setout_Z s' = setout_Z s).
Proof.
  intros Hset Hlen. cbv zeta.
  unfold mission_2, mission_2_time_plan, when. rewrite Hset. cbn [negb].
  destruct s as [? ? t ? ? ? ? ? ? ? ? ? ? ? ? ? ? ? ? ? ? ? ? ? plan ? ? ? ? ? ? ?].
  cbn [ModernControl.ms1_t ModernControl.run_t ModernControl.setout_Z] in *.
  destruct plan as [ | ? [ | ? [ | ? [ | ? [ | ? ?]]]]]; try discriminate Hlen.
  unfold mission_2_content. cbv zeta.
  cbn [ms1_t_at set_ms1_t set_is_msl_t_set ModernControl.ms1_t ModernControl.run_t
       vset vget nth].
  cbn [flt fle fadd b32_ops].
  split; [ | split].
  - intros H1. rewrite H1. repeat split.
  - intros [H1 H2]. rewrite (SFltb_asym _ _ H1), H1, H2. cbn [andb]. repeat split.
  - intros [H1 [H2 | H2]]; rewrite H1, H2; rewrite ?andb_false_r; cbn [andb];
      repeat split.
Qed.

End MissionSchedules.

Lemma mission_1_altitude_schedule_witness :
  ModernControl.setout_Z
    (ModernControl.mission_1
       (ModernControl.set_run_t (Scenario.f32 12 0)
          (Flight.start_up 1 (Scenario.f32 100 0))))
  = Scenario.f32 1 0.
Proof.
  refine (proj1 (proj1 (proj2 (proj2
    (mission_1_altitude_schedule
       (ModernControl.set_run_t (Scenario.f32 12 0)
          (Flight.start_up 1 (Scenario.f32 100 0))) _ _))) _)).
  - reflexivity.
  - reflexivity.
  - split; vm_compute; reflexivity.
Defined.

Lemma mission_2_altitude_schedule_witness :
  ModernControl.setout_Z
    (ModernControl.mission_2 Flight.cfg
       (ModernControl.set_run_t (Scenario.f32 12 0)
          (Flight.start_up 2 (Scenario.f32 100 0))))
  = ModernControl.mission_2_setout_Z (Flight.cfg (F := B32.float32)).
Proof.
  refine (proj1 (proj1 (proj2
    (mission_2_altitude_schedule Flight.cfg
       (ModernControl.set_run_t (Scenario.f32 12 0)
          (Flight.start_up 2 (Scenario.f32 100 0))) _ _)) _)).
  - reflexivity.
  - reflexivity.
  - split; vm_compute; reflexivity.
Defined.

(** ** The reference, in binary32 *)

Section Reference.

Import ModernControl ModernControlViews.

Local Open Scope Z_scope.

(** A sum that starts from [+0] is never [-0], so adding a zero to it
    changes nothing. *)
Lemma SFadd_pzero_zero (p : spec_float) (s : bool) :
  SFadd B32.prec B32.emax (SFadd B32.prec B32.emax (S754_zero false) p) (S754_zero s)
  = SFadd B32.prec B32.emax (S754_zero false) p.
Proof.
  destruct p as [sp | sp | | sp mp ep]; cbn; try reflexivity.
  - destruct sp, s; reflexivity.
Qed.

Lemma SFmul_pzero_finite (r : spec_float) :
  B32.isfinite r = true ->
  exists s, SFmul B32.prec B32.emax (S754_zero false) r = S754_zero s.
Proof.
  destruct r as [sr | sr | | sr mr er]; try discriminate; intros _; cbn; eauto.
Qed.

(** The reference scaled by the set-up's G: only the altitude channel
    survives. *)
Lemma scale_reference_setup (cfg : config B32.float32) (r0 r1 r2 r3 : B32.float32) :
  B32.isfinite r0 = true -> B32.isfinite r1 = true ->
  B32.isfinite r2 = true -> B32.isfinite r3 = true ->
  mat_vec (G_scale_setup cfg) [r0; r1; r2; r3]
  = [(fzero + ss_G_scale_0 cfg * r0)%fl; fzero; fzero; fzero].
Proof.
  intros F0 F1 F2 F3.
  unfold G_scale_setup, mat_vec, dot. cbn [map combine fold_left fst snd].
  cbn [fadd fmul b32_ops].
  change (@fzero B32.float32 b32_ops) with (S754_zero false).
  destruct (SFmul_pzero_finite r0 F0) as [s0 ->].
  destruct (SFmul_pzero_finite r1 F1) as [s1 ->].
  destruct (SFmul_pzero_finite r2 F2) as [s2 ->].
  destruct (SFmul_pzero_finite r3 F3) as [s3 ->].
  rewrite !SFadd_pzero_zero.
  replace (SFadd B32.prec B32.emax (S754_zero false) (S754_zero s0))
    with (S754_zero false) by (destruct s0; reflexivity).
  replace (SFadd B32.prec B32.emax (S754_zero false) (S754_zero s1))
    with (S754_zero false) by (destruct s1; reflexivity).
  replace (SFadd B32.prec B32.emax (S754_zero false) (S754_zero s2))
    with (S754_zero false) by (destruct s2; reflexivity).
  replace (SFadd B32.prec B32.emax (S754_zero false) (S754_zero s3))
    with (S754_zero false) by (destruct s3; reflexivity).
  reflexivity.
Qed.

Lemma update_r_reference (cfg : config B32.float32) (s : state B32.float32) :
  ss_G_scale s = G_scale_setup cfg ->
  length (ss_r s) = 4%nat ->
  Forall (fun e => B32.isfinite e = true) (tl (ss_r s)) ->
  B32.isfinite (setout_Z s) = true ->
  ss_r (update_r s)
  = if need_update_r s
    then [(fzero + ss_G_scale_0 cfg * setout_Z s)%fl; fzero; fzero; fzero]
    else ss_r s.
Proof.
  intros HG Hlen Hfin Hz. unfold update_r, when.
  destruct (need_update_r s); [ | reflexivity].
  cbv zeta. unfold assign, scale_reference, ss_r_at.
  destruct s as [? ? ? ? ? ? ? ? r ? ? ? ? ? ? ? ? ? G ? ? ? ? ? ? ? ? ? ? ? ? ?].
  cbn [ModernControl.ss_r ModernControl.ss_G_scale ModernControl.setout_Z
       set_ss_r set_need_update_r] in *.
  destruct r as [ | ? [ | ? [ | ? [ | ? [ | ? ?]]]]]; try discriminate Hlen.
  cbn [vset]. rewrite HG. cbn [tl] in Hfin.
  inversion Hfin as [ | ? ? F1 Hf2]; subst.
  inversion Hf2 as [ | ? ? F2 Hf3]; subst.
  inversion Hf3 as [ | ? ? F3 _]; subst.
  now apply scale_reference_setup.
Qed.

(** X19: in binary32, the reference follows the commanded altitude with
    one call's delay: a call in which the block runs and that finds a
    finite [setout_Z] leaves the reference at [0 + G0 * setout_Z, 0, 0, 0],
    with [setout_Z] as the call found it, when it sets the model up or
    finds an update requested and finite attitude references, and leaves
    the reference alone otherwise; so the attitude references stay 0. *)
Theorem reference_follows_setpoint
    (cfg : config B32.float32) (i : cycle_in B32.float32) (s : state B32.float32) :
  cywmc_able s = true ->
  fisfinite (setout_Z s) = true ->
  ss_seted s = 0%Z
  \/ (ss_G_scale s = G_scale_setup cfg /\ length (ss_r s) = 4%nat
      /\ Forall (fun e => fisfinite e = true) (tl (ss_r s))) ->
  ss_r (control_attitude_rates cfg i s)
  = if (ss_seted s =? 0)%Z || need_update_r s
    then [(fzero + ss_G_scale_0 cfg * setout_Z s)%fl; fzero; fzero; fzero]
    else ss_r s.
Proof.
  intros Hcy Hfz Hmodel.
  rewrite (active_cycle cfg i s Hcy). cbv zeta.
  set (g0 := get_current_state i (reset_integral i s)).
  destruct (model_and_reference_members _ _
              (after_update_r_model_and_reference cfg i (z (pos_current g0))
                 (vz (pos_current g0)) (update_r (ss_init cfg g0))))
    as (_ & _ & -> & _).
  assert (Hg : model_and_reference g0 = model_and_reference s).
  { unfold g0. rewrite get_current_state_model_and_reference.
    apply reset_integral_model_and_reference. }
  destruct (model_and_reference_members _ _ Hg) as (_ & Hseted & Hr & HG).
  assert (Hz : setout_Z g0 = setout_Z s /\ need_update_r g0 = need_update_r s).
  { unfold g0.
    destruct (reset_integral_members i s) as (_ & _ & _ & Halt).
    pose proof (get_current_state_altitude i (reset_integral i s)) as Halt'.
    rewrite Halt in Halt'. unfold altitude_view in Halt'.
    injection Halt' as Hz _ _. split; [exact Hz | ].
    unfold get_current_state, poll_position, update_run_t, reset_integral, when.
    destruct (negb (flag_armed i) || negb (is_rotary_wing i)),
      (pos_update i), (flag_armed i && flag_control_rates_enabled i);
      try reflexivity;
      cbv beta zeta; unfold when;
      match goal with
      | |- context [if ?b then _ else _] => destruct b
      end; reflexivity. }
  destruct Hz as [Hz Hn].
  cbn [fisfinite b32_ops] in Hfz, Hmodel.
  destruct (Z.eqb_spec (ss_seted s) 0) as [E0 | E0]; cbn [orb].
  - (* this call sets the model up *)
    rewrite ss_init_unset by congruence.
    assert (Hsetup : ss_r (ss_setup cfg g0)
                     = [(fzero + ss_G_scale_0 cfg * setout_Z g0)%fl; fzero; fzero; fzero]
                     /\ ss_G_scale (ss_setup cfg g0) = G_scale_setup cfg
                     /\ setout_Z (ss_setup cfg g0) = setout_Z g0
                     /\ need_update_r (ss_setup cfg g0) = need_update_r g0).
    { split; [ | repeat split].
      change (ss_r (ss_setup cfg g0))
        with (mat_vec (G_scale_setup cfg) [setout_Z g0; fzero; fzero; fzero]).
      apply scale_reference_setup; try reflexivity. now rewrite Hz. }
    destruct Hsetup as (Hr1 & HG1 & Hz1 & Hn1).
    rewrite (update_r_reference cfg _ HG1).
    + rewrite Hn1, Hz1, Hr1, Hz. now destruct (need_update_r g0).
    + now rewrite Hr1.
    + rewrite Hr1. repeat constructor.
    + now rewrite Hz1, Hz.
  - destruct Hmodel as [Hmodel | (HGs & Hlen & Hfin)]; [contradiction | ].
    rewrite ss_init_set by congruence.
    rewrite (update_r_reference cfg g0) by congruence.
    now rewrite Hn, Hz, Hr.
Qed.

End Reference.

Lemma reference_follows_setpoint_witness :
  ModernControl.ss_r
    (ModernControl.control_attitude_rates Flight.cfg
       (Flight.at_run_t 12 (Scenario.f32 1 0))
       (ModernControl.set_setout_Z (Scenario.f32 1 0)
          (Flight.start_up 1 (Scenario.f32 100 0))))
  = [(fzero + ModernControl.ss_G_scale_0 (Flight.cfg (F := B32.float32))
              * Scenario.f32 1 0)%fl; fzero; fzero; fzero].
Proof.
  refine (reference_follows_setpoint Flight.cfg
            (Flight.at_run_t 12 (Scenario.f32 1 0))
            (ModernControl.set_setout_Z (Scenario.f32 1 0)
               (Flight.start_up 1 (Scenario.f32 100 0))) _ _ _).
  - reflexivity.
  - reflexivity.
  - left. reflexivity.
Defined.

(** ** The control law, in binary32 *)

Section ControlLaw.

Import ModernControl ModernControlViews.

Local Open Scope Z_scope.

(** The row of the gain matrix that weighs the altitude and the vertical
    speed: with finite angles and rates, the zero gains add nothing. *)
Lemma dot_altitude_row (k0 k4 x0 x1 x2 x3 x4 x5 x6 x7 : B32.float32) :
  valid32 k0 = true -> valid32 k4 = true ->
  valid32 x0 = true -> valid32 x4 = true ->
  B32.isfinite x1 = true -> B32.isfinite x2 = true -> B32.isfinite x3 = true ->
  B32.isfinite x5 = true -> B32.isfinite x6 = true -> B32.isfinite x7 = true ->
  dot [k0; fzero; fzero; fzero; k4; fzero; fzero; fzero]
      [x0; x1; x2; x3; x4; x5; x6; x7]
  = (fzero + k0 * x0 + k4 * x4)%fl.
Proof.
  intros Vk0 Vk4 V0 V4 F1 F2 F3 F5 F6 F7.
  unfold dot. cbn [combine fold_left fst snd]. cbn [fadd fmul b32_ops].
  change (@fzero B32.float32 b32_ops) with (S754_zero false).
  destruct (dot_step (S754_zero false) k0 x0 eq_refl ltac:(discriminate) Vk0 V0)
    as [Y1v Y1z].
  set (y1 := SFadd B32.prec B32.emax (S754_zero false) (SFmul B32.prec B32.emax k0 x0)) in *.
  rewrite (dot_step_zero y1 x1 Y1z F1), (dot_step_zero y1 x2 Y1z F2),
    (dot_step_zero y1 x3 Y1z F3).
  destruct (dot_step y1 k4 x4 Y1v Y1z Vk4 V4) as [Y5v Y5z].
  set (y5 := SFadd B32.prec B32.emax y1 (SFmul B32.prec B32.emax k4 x4)) in *.
  now rewrite (dot_step_zero y5 x5 Y5z F5), (dot_step_zero y5 x6 Y5z F6),
    (dot_step_zero y5 x7 Y5z F7).
Qed.

(** A row that weighs the angles and the body rates: with a finite
    altitude and vertical speed, the zero gains add nothing. *)
Lemma dot_attitude_row (k1 k2 k3 k5 k6 k7 x0 x1 x2 x3 x4 x5 x6 x7 : B32.float32) :
  valid32 k1 = true -> valid32 k2 = true -> valid32 k3 = true ->
  valid32 x1 = true -> valid32 x2 = true -> valid32 x3 = true ->
  B32.isfinite x0 = true -> B32.isfinite x4 = true ->
  dot [fzero; k1; k2; k3; fzero; k5; k6; k7]
      [x0; x1; x2; x3; x4; x5; x6; x7]
  = (fzero + k1 * x1 + k2 * x2 + k3 * x3 + k5 * x5 + k6 * x6 + k7 * x7)%fl.
Proof.
  intros Vk1 Vk2 Vk3 V1 V2 V3 F0 F4.
  unfold dot. cbn [combine fold_left fst snd]. cbn [fadd fmul b32_ops].
  change (@fzero B32.float32 b32_ops) with (S754_zero false).
  rewrite (dot_step_zero (S754_zero false) x0 ltac:(discriminate) F0).
  destruct (dot_step (S754_zero false) k1 x1 eq_refl ltac:(discriminate) Vk1 V1)
    as [Y1v Y1z].
  set (y1 := SFadd B32.prec B32.emax (S754_zero false) (SFmul B32.prec B32.emax k1 x1)) in *.
  destruct (dot_step y1 k2 x2 Y1v Y1z Vk2 V2) as [Y2v Y2z].
  set (y2 := SFadd B32.prec B32.emax y1 (SFmul B32.prec B32.emax k2 x2)) in *.
  destruct (dot_step y2 k3 x3 Y2v Y2z Vk3 V3) as [Y3v Y3z].
  set (y3 := SFadd B32.prec B32.emax y2 (SFmul B32.prec B32.emax k3 x3)) in *.
  now rewrite (dot_step_zero y3 x4 Y3z F4).
Qed.

Lemma SFopp_finite (x : spec_float) : B32.isfinite (SFopp x) = B32.isfinite x.
Proof. destruct x; reflexivity. Qed.

(** X20: the control law that the constant gain matrix gives in binary32,
    on a state whose feedback law and output are active and with
    measurements that are finite numbers: the thrust command is a
    proportional-derivative law in the altitude alone,
    (r0 - (3 (-Z) + 4 (-vz)) + m g) / T_max, and each normalised torque
    demand is computed from the three angles and the three body rates only,
    not from the altitude or the vertical speed; the sums and products are
    those of binary32, in the order of the matrix product. *)
Theorem altitude_control_law
    (cfg : config B32.float32) (i : cycle_in B32.float32)
    (Z rate_Z : B32.float32) (p : state B32.float32) :
  mordern_control_able p = true ->
  give_output_able p = true ->
  ss_k p = K_setup ->
  length (ss_x p) = 8%nat ->
  length (ss_u_scale p) = 4%nat ->
  length (ss_r p) = 4%nat ->
  Forall (fun e : B32.float32 => valid32 e = true /\ fisfinite e = true)
    [Z; rate_Z; agl_roll i; agl_pitch i; agl_yaw i;
     vget (rates i) 0; vget (rates i) 1; vget (rates i) 2] ->
  let s' := give_output cfg (main_feedback i Z rate_Z p) in
  let r := vget (ss_r p) in
  let w := vget (rates i) in
  _thrust_sp s'
  = ((r 0%nat - (fzero + fdec 3 0 * - Z + fdec 4 0 * - rate_Z)
      + ss_m cfg * g cfg) / T_max cfg)%fl
  /\ vget (ss_u_scale s') 1
     = ((r 1%nat
         - (fzero + fdec 14800 4 * agl_roll i + fdec (-3884) 4 * agl_pitch i
            + fdec (-3751) 4 * agl_yaw i + fdec 5151 4 * w 0%nat
            + fdec (-914) 4 * w 1%nat + fdec (-650) 4 * w 2%nat)) / Mx_max cfg)%fl
  /\ vget (ss_u_scale s') 2
     = ((r 2%nat
         - (fzero + fdec 1841 4 * agl_roll i + fdec 16960 4 * agl_pitch i
            + fdec (-133) 4 * agl_yaw i + fdec 709 4 * w 0%nat
            + fdec 5454 4 * w 1%nat + fdec 140 4 * w 2%nat)) / My_max cfg)%fl
  /\ vget (ss_u_scale s') 3
     = ((r 3%nat
         - (fzero + fdec 9353 4 * agl_roll i + fdec 6032 4 * agl_pitch i
            + fdec 54446 4 * agl_yaw i + fdec 915 4 * w 0%nat
            + fdec 1529 4 * w 1%nat + fdec 21972 4 * w 2%nat)) / Mz_max cfg)%fl.
Proof.
  intros Hact Hout HK Hx Hu Hr Hfin. cbv zeta.
  rewrite (main_feedback_active i Z rate_Z p Hact Hx). cbv zeta.
  match goal with
  | |- context [give_output cfg ?m0] => set (m := m0)
  end.
  assert (Hm : give_output_able m = true) by exact Hout.
  assert (Hmu : length (ss_u_scale m) = 4%nat) by exact Hu.
  destruct (give_output_enabled cfg m Hm Hmu) as [Hscale Hthrust].
  cbv zeta in Hscale. rewrite Hthrust, Hscale.
  change (ss_u_actual m)
    with (vsub (ss_r p)
            (mat_vec (ss_k p)
               [ (- Z)%fl; agl_roll i; agl_pitch i; agl_yaw i; (- rate_Z)%fl;
                 vget (rates i) 0; vget (rates i) 1; vget (rates i) 2 ])).
  rewrite HK.
  destruct (ss_r p) as [ | r0 [ | r1 [ | r2 [ | r3 [ | ? ?]]]]];
    try discriminate Hr.
  inversion Hfin as [ | ? ? [VZ FZ] H1]; subst.
  inversion H1 as [ | ? ? [Vv Fv] H2]; subst.
  inversion H2 as [ | ? ? [Vr Fr] H3]; subst.
  inversion H3 as [ | ? ? [Vp Fp] H4]; subst.
  inversion H4 as [ | ? ? [Vy Fy] H5]; subst.
  inversion H5 as [ | ? ? [V0 F0] H6]; subst.
  inversion H6 as [ | ? ? [V1 F1] H7]; subst.
  inversion H7 as [ | ? ? [V2 F2] _]; subst.
  cbn [fisfinite b32_ops] in *.
  assert (VnZ : valid32 (- Z)%fl = true) by (cbn [fneg b32_ops]; now rewrite valid_opp).
  assert (Vnv : valid32 (- rate_Z)%fl = true)
    by (cbn [fneg b32_ops]; now rewrite valid_opp).
  assert (FnZ : B32.isfinite (- Z)%fl = true)
    by (cbn [fneg b32_ops]; now rewrite SFopp_finite).
  assert (Fnv : B32.isfinite (- rate_Z)%fl = true)
    by (cbn [fneg b32_ops]; now rewrite SFopp_finite).
  unfold K_setup, mat_vec. cbn [map].
  rewrite dot_altitude_row by (assumption || reflexivity).
  rewrite !dot_attitude_row by (assumption || reflexivity).
  unfold vsub. cbn [vmap2 vget nth]. repeat split.
Qed.

End ControlLaw.

Lemma altitude_control_law_witness :
  let p :=
    ModernControl.set_give_output_able true
      (ModernControl.set_mordern_control_able true
         (ModernControl.set_ss_k ModernControlViews.K_setup
            (Flight.start_up 1 (Scenario.f32 100 0)))) in
  ModernControl._thrust_sp
    (ModernControl.give_output Flight.cfg
       (ModernControl.main_feedback (Flight.at_run_t 12 (Scenario.f32 1 0))
          (Scenario.f32 (-1) 0) (Scenario.f32 0 0) p))
  = ((vget (ModernControl.ss_r p) 0%nat
      - (fzero + fdec 3 0 * - Scenario.f32 (-1) 0 + fdec 4 0 * - Scenario.f32 0 0)
      + ModernControl.ss_m Flight.cfg * ModernControl.g Flight.cfg)
     / ModernControl.T_max Flight.cfg)%fl.
Proof.
  cbv zeta.
  refine (proj1 (altitude_control_law Flight.cfg (Flight.at_run_t 12 (Scenario.f32 1 0))
                   (Scenario.f32 (-1) 0) (Scenario.f32 0 0) _ _ _ _ _ _ _ _));
    try reflexivity.
  repeat constructor.
Defined.

(** A NaN altitude reaches the torque demands, through the zero gains. *)
Example nan_altitude_reaches_torques :
  let p :=
    ModernControl.set_give_output_able true
      (ModernControl.set_mordern_control_able true
         (ModernControl.set_ss_k ModernControlViews.K_setup
            (Flight.start_up 1 (Scenario.f32 100 0)))) in
  ModernControl.ss_u_scale
    (ModernControl.give_output Flight.cfg
       (ModernControl.main_feedback (Flight.at_run_t 12 (Scenario.f32 1 0))
          B32.nan (Scenario.f32 0 0) p))
  = [B32.nan; B32.nan; B32.nan; B32.nan].
Proof. vm_compute. reflexivity. Qed.
